(** * Static OpenAPI generators for Django and Flask sources: a shallow embedding

    The development follows [djang.py] (URL-conf visitor, include walk, spec
    assembly), [specs/creators/python/django_creator.py] (pluraliser, path
    conversion, operation identifiers), [specs/creators/python/flask_creator.py]
    and [specs/creator/openapi_spec_creator.py] (the run-time Flask loader).

    Conventions.  Python [str] values are modelled by [string] (8-bit code
    points); case mapping is the ASCII one.  Python dictionaries and sets are
    [gmap]/[gset] where only lookups matter and association lists where the
    literal order is iterated.  A Python exception that the source lets
    escape is [None] in an [option] result. *)

From Stdlib Require Import Ascii String Permutation Sorted.
From stdpp Require Import base option list strings gmap sets pretty.

Local Open Scope list_scope.

(** ** Python string primitives *)

Module Py.

Definition is_upper (c : ascii) : bool :=
  let n := nat_of_ascii c in (65 <=? n)%nat && (n <=? 90)%nat.

Definition is_lower (c : ascii) : bool :=
  let n := nat_of_ascii c in (97 <=? n)%nat && (n <=? 122)%nat.

Definition is_digit (c : ascii) : bool :=
  let n := nat_of_ascii c in (48 <=? n)%nat && (n <=? 57)%nat.

Definition lower_char (c : ascii) : ascii :=
  if is_upper c then ascii_of_nat (nat_of_ascii c + 32) else c.

Definition upper_char (c : ascii) : ascii :=
  if is_lower c then ascii_of_nat (nat_of_ascii c - 32) else c.

Fixpoint map_chars (f : ascii -> ascii) (s : string) : string :=
  match s with
  | EmptyString => EmptyString
  | String c s' => String (f c) (map_chars f s')
  end.

(** [s.lower()] and [s.upper()] *)
Definition lower : string -> string := map_chars lower_char.
Definition upper : string -> string := map_chars upper_char.

(** [s.startswith(p)] *)
Fixpoint startswith (s p : string) {struct p} : bool :=
  match p, s with
  | EmptyString, _ => true
  | String a p', String b s' => Ascii.eqb a b && startswith s' p'
  | String _ _, EmptyString => false
  end.

(** [s[n:]] *)
Fixpoint drop (n : nat) (s : string) : string :=
  match n, s with
  | O, _ => s
  | S n', String _ s' => drop n' s'
  | S _, EmptyString => EmptyString
  end.

(** [s[:n]] *)
Fixpoint take (n : nat) (s : string) : string :=
  match n, s with
  | S n', String c s' => String c (take n' s')
  | _, _ => EmptyString
  end.

(** [s.endswith(p)] *)
Definition endswith (s p : string) : bool :=
  (String.length p <=? String.length s)%nat
  && String.eqb (drop (String.length s - String.length p) s) p.

(** [s[:-n]] for a positive literal [n] *)
Definition drop_last (n : nat) (s : string) : string :=
  take (String.length s - n) s.

(** [s[-n]] for a positive literal [n]; [None] is Python's [IndexError]. *)
Definition index_from_end (n : nat) (s : string) : option ascii :=
  if (n <=? String.length s)%nat then String.get (String.length s - n) s
  else None.

(** [sub in s] for strings *)
Fixpoint contains (s sub : string) : bool :=
  startswith s sub
  || match s with
     | EmptyString => false
     | String _ s' => contains s' sub
     end.

(** [c in s] for a one-character string [c] *)
Fixpoint char_in (c : ascii) (s : string) : bool :=
  match s with
  | EmptyString => false
  | String d s' => Ascii.eqb c d || char_in c s'
  end.

(** [s.lstrip(chars)] and [s.rstrip(chars)] for a set of characters *)
Fixpoint lstrip (chars : string) (s : string) : string :=
  match s with
  | EmptyString => EmptyString
  | String c s' => if char_in c chars then lstrip chars s' else s
  end.

Fixpoint rstrip (chars : string) (s : string) : string :=
  match s with
  | EmptyString => EmptyString
  | String c s' =>
      match rstrip chars s' with
      | EmptyString => if char_in c chars then EmptyString else String c EmptyString
      | r => String c r
      end
  end.

Definition strip (chars : string) (s : string) : string :=
  rstrip chars (lstrip chars s).

(** [sep.join(l)] *)
Fixpoint join (sep : string) (l : list string) : string :=
  match l with
  | [] => ""
  | [x] => x
  | x :: l' => x +:+ sep +:+ join sep l'
  end.

(** truthiness of a string *)
Definition nonempty (s : string) : bool :=
  match s with EmptyString => false | _ => true end.

(** Lookup in a dictionary literal, kept as the list of its items. *)
Fixpoint dict_get {V} (d : list (string * V)) (k : string) : option V :=
  match d with
  | [] => None
  | (k', v) :: d' => if String.eqb k k' then Some v else dict_get d' k
  end.

(** [x in l] for a list of strings *)
Definition str_in (x : string) (l : list string) : bool :=
  existsb (String.eqb x) l.

End Py.

(** ** The pluraliser of [django_creator.py] *)

Definition irregulars : list (string * string) :=
  [ ("person", "people"); ("man", "men"); ("woman", "women");
    ("child", "children"); ("foot", "feet"); ("tooth", "teeth");
    ("goose", "geese"); ("mouse", "mice"); ("ox", "oxen");
    ("leaf", "leaves"); ("life", "lives"); ("knife", "knives");
    ("wife", "wives"); ("elf", "elves"); ("loaf", "loaves");
    ("potato", "potatoes"); ("tomato", "tomatoes"); ("cactus", "cacti");
    ("focus", "foci"); ("fungus", "fungi"); ("nucleus", "nuclei");
    ("syllabus", "syllabi"); ("analysis", "analyses");
    ("diagnosis", "diagnoses"); ("basis", "bases"); ("crisis", "crises");
    ("thesis", "theses"); ("datum", "data"); ("medium", "media");
    ("criterion", "criteria"); ("index", "indices"); ("matrix", "matrices");
    ("vertex", "vertices"); ("alumnus", "alumni"); ("series", "series");
    ("species", "species"); ("deer", "deer"); ("fish", "fish");
    ("sheep", "sheep"); ("moose", "moose"); ("aircraft", "aircraft") ].

Definition o_exceptions : list string :=
  ["photo"; "piano"; "halo"; "studio"; "video"; "radio"; "solo"].

(** [word.endswith(c) and word[-2] not in 'aeiou'], with the [IndexError]
    of [word[-2]] on a one-letter word. *)
Definition ends_consonant_then (c : string) (word : string) : option bool :=
  if Py.endswith word c then
    match Py.index_from_end 2 word with
    | Some d => Some (negb (Py.char_in d "aeiou"))
    | None => None
    end
  else Some false.

Definition pluralize (word0 : string) : option string :=
  if negb (Py.nonempty word0) then Some word0 else
  let word := Py.lower word0 in
  match Py.dict_get irregulars word with
  | Some plural => Some plural
  | None =>
    if Py.endswith word "is" then Some (Py.drop_last 2 word +:+ "es") else
    if Py.endswith word "on" then Some (Py.drop_last 2 word +:+ "a") else
    if Py.endswith word "us" then Some (Py.drop_last 2 word +:+ "i") else
    if Py.endswith word "f" then Some (Py.drop_last 1 word +:+ "ves") else
    if Py.endswith word "fe" then Some (Py.drop_last 2 word +:+ "ves") else
    y ← ends_consonant_then "y" word;
    if y : bool then Some (Py.drop_last 1 word +:+ "ies") else
    o ← ends_consonant_then "o" word;
    if o : bool then
      if Py.str_in word o_exceptions then Some (word +:+ "s")
      else Some (word +:+ "es")
    else
    if Py.endswith word "ex" || Py.endswith word "ix"
    then Some (Py.drop_last 2 word +:+ "ices") else
    if existsb (Py.endswith word) ["s"; "ss"; "sh"; "ch"; "x"; "z"]
    then Some (word +:+ "es") else
    Some (word +:+ "s")
  end.

(** ** Regular expressions used by the path translators

    Each pattern of the source is a hand-written matcher: applied to the
    text at the current position it returns the replacement and the length
    of the match.  None of the patterns matches the empty string. *)

Module Re.

Definition matcher := string -> option (string * nat).

(** [re.sub]: leftmost, non-overlapping matches, scanning left to right.
    [skip] counts the characters of the current match still to be dropped. *)
Fixpoint sub_from (m : matcher) (s : string) (skip : nat) : string :=
  match s with
  | EmptyString => EmptyString
  | String c s' =>
      match skip with
      | S k => sub_from m s' k
      | O =>
          match m s with
          | Some (r, len) => r +:+ sub_from m s' (len - 1)
          | None => String c (sub_from m s' 0)
          end
      end
  end.

Definition sub (m : matcher) (s : string) : string := sub_from m s 0.

(** [re.findall] for a pattern with one group: the matcher returns the
    group instead of a replacement. *)
Fixpoint findall_from (m : matcher) (s : string) (skip : nat) : list string :=
  match s with
  | EmptyString => []
  | String c s' =>
      match skip with
      | S k => findall_from m s' k
      | O =>
          match m s with
          | Some (g, len) => g :: findall_from m s' (len - 1)
          | None => findall_from m s' 0
          end
      end
  end.

Definition findall (m : matcher) (s : string) : list string := findall_from m s 0.

(** The longest prefix without [c], and what follows it. *)
Fixpoint span_not (c : ascii) (s : string) : string * string :=
  match s with
  | EmptyString => (EmptyString, EmptyString)
  | String d s' =>
      if Ascii.eqb d c then (EmptyString, s)
      else let '(u, r) := span_not c s' in (String d u, r)
  end.

(** [[^c]+c]: a non-empty run without [c], closed by [c].  A greedy run
    followed by the literal [c] can only match at its full length. *)
Definition run_then (c : ascii) (s : string) : option (string * string) :=
  let '(u, r) := span_not c s in
  match u, r with
  | String _ _, String _ r' => Some (u, r')
  | _, _ => None
  end.

Definition braces (name : string) : string := "{" +:+ name +:+ "}".

Fixpoint first_some {A B} (f : A -> option B) (l : list A) : option B :=
  match l with
  | [] => None
  | x :: l' => match f x with Some y => Some y | None => first_some f l' end
  end.

(** [<(?:int|str|slug|uuid|path):([^>]+)>] with replacement [{\1}] *)
Definition slug_converters : list string := ["int"; "str"; "slug"; "uuid"; "path"].

Definition _slug : matcher := fun s =>
  match s with
  | String "<" s1 =>
      first_some (fun conv =>
        if Py.startswith s1 (conv +:+ ":") then
          match run_then ">" (Py.drop (String.length conv + 1) s1) with
          | Some (name, _) =>
              Some (braces name, String.length conv + String.length name + 3)
          | None => None
          end
        else None) slug_converters
  | _ => None
  end.

(** [<([^>]+)>] with replacement [{\1}] *)
Definition _angle : matcher := fun s =>
  match s with
  | String "<" s1 =>
      match run_then ">" s1 with
      | Some (name, _) => Some (braces name, String.length name + 2)
      | None => None
      end
  | _ => None
  end.

(** [{([^}]+)}], returning the group *)
Definition brace_group : matcher := fun s =>
  match s with
  | String "{" s1 =>
      match run_then "}" s1 with
      | Some (name, _) => Some (name, String.length name + 2)
      | None => None
      end
  | _ => None
  end.

(** [<(?:[^:]+:)?([^>]+)>] with replacement [{\1}]: the optional converter
    is tried first, and the pattern is retried without it on failure. *)
Definition any_converter : matcher := fun s =>
  match s with
  | String "<" s1 =>
      let without :=
        match run_then ">" s1 with
        | Some (name, _) => Some (braces name, String.length name + 2)
        | None => None
        end in
      match run_then ":" s1 with
      | Some (conv, s2) =>
          match run_then ">" s2 with
          | Some (name, _) =>
              Some (braces name, String.length conv + String.length name + 3)
          | None => without
          end
      | None => without
      end
  | _ => None
  end.

(** [\(\?P<([^>]+)>[^)]+\)] with replacement [{\1}] *)
Definition named_group : matcher := fun s =>
  if Py.startswith s "(?P<" then
    match run_then ">" (Py.drop 4 s) with
    | Some (name, s2) =>
        match run_then ")" s2 with
        | Some (body, _) =>
            Some (braces name, String.length name + String.length body + 6)
        | None => None
        end
    | None => None
    end
  else None.

End Re.

(** ** Path translation *)

Record param := Param {
  p_name : string;
  p_in : string;
  p_required : bool;
  p_schema_type : string }.

Definition path_param (name : string) : param :=
  {| p_name := name; p_in := "path"; p_required := true; p_schema_type := "string" |}.

(** [djang.py]: [_django_to_openapi] *)
Definition _django_to_openapi (path : string) : string * list param :=
  let openapi := Re.sub Re._slug path in
  let openapi := Re.sub Re._angle openapi in
  let params := map path_param (Re.findall Re.brace_group openapi) in
  ("/" +:+ Py.lstrip "/" openapi, params).

(** [django_creator.py]: [convert_django_path_to_openapi] *)
Definition convert_django_path_to_openapi (path : string) : string :=
  if negb (Py.nonempty path) then "/" else
  let path := if Py.startswith path "/" then path else "/" +:+ path in
  let openapi_path := Re.sub Re.any_converter path in
  let openapi_path := Re.sub Re.named_group openapi_path in
  let openapi_path :=
    if Py.endswith openapi_path "/" && (1 <? String.length openapi_path)%nat
    then Py.drop_last 1 openapi_path else openapi_path in
  if String.eqb openapi_path "/" then "/proxy/django" else openapi_path.

(** ** Route records and the spec assembler of [djang.py] *)

(** A route dictionary.  [operation_id] is [None] when the source stores
    Python's [None] there. *)
Record route := Route {
  path : string;
  method : string;
  operation_id : option string;
  description : string;
  parameters : list param }.

(** Python's order on the tuples [(r["path"], r["method"])]: strings are
    compared by code point, tuples lexicographically. *)
Definition sort_key (r : route) : string * string := (path r, method r).

Definition key_leb (a b : string * string) : bool :=
  match String.compare (fst a) (fst b) with
  | Lt => true
  | Gt => false
  | Eq => String.leb (snd a) (snd b)
  end.

(** [list.sort(key=...)] is a stable sort; the stable sorted arrangement of
    a list is unique, and insertion from the right computes it. *)
Fixpoint insert_by {A K} (leb : K -> K -> bool) (key : A -> K) (x : A) (l : list A) : list A :=
  match l with
  | [] => [x]
  | y :: l' => if leb (key x) (key y) then x :: l else y :: insert_by leb key x l'
  end.

Definition list_sort {A K} (leb : K -> K -> bool) (key : A -> K) (l : list A) : list A :=
  foldr (insert_by leb key) [] l.

(** One operation object of the document; the ["parameters"] entry is
    present only for a non-empty parameter list. *)
Record operation := Operation {
  operationId : option string;
  op_description : string;
  responses : list (string * string);
  op_parameters : option (list param) }.

Abbreviation path_items := (gmap string (gmap string operation)).

(** Modelled from the spec: the document builder is the external [apispec]
    library, which is not part of the sources.  The document has one
    path item per path and one operation per method:
    [APISpec.path(path=p, operations={m: op})] merges the operation into
    the path item of [p], creating the item when absent.  The library's
    validation of method names and parameter lists is outside this model. *)
Definition APISpec_path (p m : string) (op : operation) (paths : path_items) : path_items :=
  <[p := <[m := op]> (default ∅ (paths !! p))]> paths.

Record spec_dict := SpecDict {
  openapi : string;
  info_title : string;
  info_version : string;
  paths : path_items;
  servers : list (string * string) }.

Definition dedupe_key (r : route) : string := path r +:+ ":" +:+ method r.

(** The loop that fills [unique_routes], with the set [seen_routes]. *)
Fixpoint unique_from (seen_routes : gset string) (routes : list route) : list route :=
  match routes with
  | [] => []
  | r :: rs =>
      if bool_decide (dedupe_key r ∈ seen_routes) then unique_from seen_routes rs
      else r :: unique_from ({[dedupe_key r]} ∪ seen_routes) rs
  end.

Definition operation_of (r : route) : operation :=
  {| operationId := operation_id r;
     op_description := description r;
     responses := [("200", "Successful response")];
     op_parameters := match parameters r with [] => None | ps => Some ps end |}.

(** [_build_spec].  The argument list is sorted in place, so the function
    returns the document together with the caller's list as it is left. *)
Definition _build_spec (routes : list route) : spec_dict * list route :=
  let routes := list_sort key_leb sort_key routes in
  let unique_routes := unique_from ∅ routes in
  let paths :=
    foldl (fun acc r => APISpec_path (path r) (method r) (operation_of r) acc)
          ∅ unique_routes in
  ({| openapi := "3.0.2"; info_title := "DjangoApp"; info_version := "1.0.0";
      paths := paths;
      servers := [("/proxy/django", "API with base path")] |},
   routes).

(** The operation stored in a document for a path and a method. *)
Definition doc_operation (d : spec_dict) (p m : string) : option operation :=
  paths d !! p ≫= fun item => item !! m.

(** The order that [list.sort] establishes. *)
Definition key_le {A K} (leb : K -> K -> bool) (key : A -> K) (x y : A) : Prop :=
  leb (key x) (key y) = true.

(** ** Python syntax trees

    The nodes of Python's [ast] module that the visitors inspect, and
    [Other] for every other node, with its child nodes in field order.
    [parent_func] is the attribute that [DecoratorVisitor] attaches to
    decorator calls; a freshly parsed tree has [None] there. *)

Inductive constant := CStr (s : string) | COther.

#[local] Unset Elimination Schemes.
Inductive ast :=
| Module_ (body : list ast)
| Expr (value : ast)
| Assign (targets : list ast) (value : ast)
| AugAssign (target : ast) (value : ast)
| FunctionDef (name : string) (args : ast) (body : list ast)
              (decorator_list : list ast) (returns : option ast)
| ClassDef (name : string) (bases : list ast) (keywords : list (option string * ast))
           (body : list ast) (decorator_list : list ast)
| Call (func : ast) (args : list ast) (keywords : list (option string * ast))
       (parent_func : option string)
| Name (id : string)
| Attribute (value : ast) (attr : string)
| Constant (value : constant)
| List_ (elts : list ast)
| Tuple (elts : list ast)
| Dict (keys : list (option ast)) (values : list ast)
| Other (children : list ast).
#[local] Set Elimination Schemes.

(** [_str] *)
Definition _str (node : ast) : option string :=
  match node with
  | Constant (CStr s) => Some s
  | _ => None
  end.

(** [_str_list]: the comprehension keeps the truthy (non-empty) strings. *)
Definition _str_list (node : ast) : list string :=
  match node with
  | List_ elts | Tuple elts => filter (fun s => Py.nonempty s = true) (omap _str elts)
  | _ => []
  end.

(** [next((kw for kw in keywords if kw.arg == name), None)] *)
Definition find_keyword (name : string) (keywords : list (option string * ast)) : option ast :=
  snd <$> List.find (fun kw => bool_decide (fst kw = Some name)) keywords.

(** ** Python's [repr] of a list of strings, used by an f-string *)

Module Repr.

Definition dquote : ascii := ascii_of_nat 34.

Definition hex_digit (n : nat) : ascii :=
  if (n <? 10)%nat then ascii_of_nat (48 + n) else ascii_of_nat (87 + n).

Definition printable (c : ascii) : bool :=
  let n := nat_of_ascii c in
  (32 <=? n)%nat && negb (n =? 127)%nat
  && negb ((128 <=? n)%nat && (n <=? 160)%nat) && negb (n =? 173)%nat.

Definition escape_char (quote c : ascii) : string :=
  if Ascii.eqb c quote || Ascii.eqb c "\"%char then String "\"%char (String c "")
  else if Ascii.eqb c "009"%char then "\t"
  else if Ascii.eqb c "010"%char then "\n"
  else if Ascii.eqb c "013"%char then "\r"
  else if printable c then String c ""
  else let n := nat_of_ascii c in
       "\x" +:+ String (hex_digit (n / 16)) (String (hex_digit (n mod 16)) "").

Fixpoint escape (quote : ascii) (s : string) : string :=
  match s with
  | EmptyString => EmptyString
  | String c s' => escape_char quote c +:+ escape quote s'
  end.

Definition repr_str (s : string) : string :=
  let quote := if Py.char_in "'"%char s && negb (Py.char_in dquote s)
               then dquote else "'"%char in
  String quote (escape quote s +:+ String quote "").

Definition repr_list (l : list string) : string :=
  "[" +:+ Py.join ", " (map repr_str l) +:+ "]".

End Repr.

(** ** [djang.py]: the URL-configuration visitor *)

Definition VIEWSET_ACTION_METHODS : list (string * list string) :=
  [ ("list", ["get"]); ("create", ["post"]); ("retrieve", ["get"]);
    ("update", ["put"]); ("partial_update", ["patch"]); ("destroy", ["delete"]) ].

Definition VIEWSET_BASE_ACTIONS : list (string * list string) :=
  [ ("ModelViewSet", ["list"; "create"; "retrieve"; "update"; "partial_update"; "destroy"]);
    ("ReadOnlyModelViewSet", ["list"; "retrieve"]);
    ("ViewSet", []) ].

Module URLVisitor.

Record t := Make {
  prefix : string;
  routes : list route;
  includes : list (string * string);
  routers : gset string;
  router_base : gmap string (list string);
  viewset_info : gmap string (list string);
  route_patterns : gset string }.

(** [__init__] *)
Definition init (prefix : string) : t :=
  {| prefix := prefix; routes := []; includes := []; routers := ∅;
     router_base := ∅; viewset_info := ∅; route_patterns := ∅ |}.

Definition set_routes (v : t) (rs : list route) (pats : gset string) : t :=
  {| prefix := prefix v; routes := rs; includes := includes v; routers := routers v;
     router_base := router_base v; viewset_info := viewset_info v;
     route_patterns := pats |}.

Definition add_include (v : t) (inc : string * string) : t :=
  {| prefix := prefix v; routes := routes v; includes := includes v ++ [inc];
     routers := routers v; router_base := router_base v;
     viewset_info := viewset_info v; route_patterns := route_patterns v |}.

Definition set_routers (v : t) (rs : gset string) (rb : gmap string (list string)) : t :=
  {| prefix := prefix v; routes := routes v; includes := includes v; routers := rs;
     router_base := rb; viewset_info := viewset_info v;
     route_patterns := route_patterns v |}.

(** [_store_api_view_methods] *)
Definition _store_api_view_methods (func_name : string) (methods : list string) (v : t) : t :=
  {| prefix := prefix v; routes := routes v; includes := includes v;
     routers := routers v; router_base := router_base v;
     viewset_info := <[func_name := map Py.lower methods]> (viewset_info v);
     route_patterns := route_patterns v |}.

(** [f"{x}"] for a value that may be [None] *)
Definition fmt (x : option string) : string := default "None" x.

(** [_add_route] *)
Definition _add_route (raw_path : string) (methods : list string)
    (op_id : option string) (description : option string) (v : t) : t :=
  let '(openapi_path, params) := _django_to_openapi raw_path in
  let path_method_key :=
    openapi_path +:+ ":" +:+ Py.join "," (list_sort String.leb id methods) in
  if bool_decide (path_method_key ∈ route_patterns v) then v else
  set_routes v
    (routes v ++
     map (fun m =>
       {| path := openapi_path;
          method := m;
          operation_id :=
            if String.eqb m "get" then op_id else Some (fmt op_id +:+ "_" +:+ m);
          description :=
            match description with
            | Some d => if Py.nonempty d then d else Py.upper m +:+ " " +:+ raw_path
            | None => Py.upper m +:+ " " +:+ raw_path
            end;
          parameters := params |}) methods)
    ({[path_method_key]} ∪ route_patterns v).

(** The view name of a route declaration: [Name.id] or [Attribute.attr]. *)
Definition view_name_of (view_arg : option ast) : option string :=
  match view_arg with
  | Some (Name id) => Some id
  | Some (Attribute _ attr) => Some attr
  | _ => None
  end.

(** The methods read from [View.as_view(...)], starting from [methods]. *)
Definition as_view_methods (view_arg : option ast) (methods : list string) : list string :=
  match view_arg with
  | Some (Call (Attribute _ "as_view") vargs vkeywords _) =>
      let methods :=
        match find_keyword "http_method_names" vkeywords with
        | Some value => _str_list value
        | None => methods
        end in
      match List.find (fun a => match a with Dict _ _ => true | _ => false end) vargs with
      | Some (Dict (_ :: _ as keys) _) =>
          methods ++
          map Py.lower
            (filter (fun s => Py.nonempty s = true)
               (omap (fun k : option ast => k ≫= _str) keys))
      | _ => methods
      end
  | _ => methods
  end.

(** [_handle_pattern_call] *)
Definition _handle_pattern_call (node : ast) (v : t) : t :=
  match node with
  | Call func args keywords _ =>
      let func_name :=
        match func with
        | Name id => id
        | Attribute _ attr => attr
        | _ => ""
        end in
      if negb (Py.str_in func_name ["path"; "re_path"]) then v else
      match args with
      | [] => v
      | arg0 :: rest =>
          match _str arg0 with
          | None => v
          | Some raw_path =>
              let full_raw := prefix v +:+ raw_path in
              match rest with
              | Call (Name "include") iargs _ _ :: _ =>
                  let include_arg := head iargs in
                  match include_arg ≫= _str with
                  | Some (String _ _ as mod_) => add_include v (mod_, full_raw)
                  | _ =>
                      match include_arg with
                      | Some (Attribute (Name r) "urls") =>
                          if bool_decide (r ∈ routers v) then
                            set_routers v (routers v)
                              (<[r := default [""] (router_base v !! r) ++ [raw_path]]>
                                 (router_base v))
                          else v
                      | _ => v
                      end
                  end
              | _ =>
                  let view_arg := head rest in
                  let view_name := view_name_of view_arg in
                  let op_id :=
                    match find_keyword "name" keywords with
                    | Some value => _str value
                    | None => Some ("op_" +:+ pretty (length (routes v)))
                    end in
                  let op_id :=
                    match view_name with
                    | Some (String _ _ as n) => Some n
                    | _ => op_id
                    end in
                  let methods :=
                    match view_name with
                    | Some (String _ _ as n) => default [] (viewset_info v !! n)
                    | _ => []
                    end in
                  let methods := as_view_methods view_arg methods in
                  let methods :=
                    match methods with
                    | [] =>
                        match find_keyword "methods" keywords with
                        | Some value => map Py.lower (_str_list value)
                        | None => ["get"]
                        end
                    | _ => methods
                    end in
                  _add_route full_raw methods op_id
                    (Some (Repr.repr_list methods +:+ " " +:+ raw_path)) v
              end
          end
      end
  | _ => v
  end.

(** [_consume_iterable] *)
Definition _consume_iterable (node : ast) (v : t) : t :=
  match node with
  | List_ elts | Tuple elts => foldl (fun v elt => _handle_pattern_call elt v) v elts
  | _ => v
  end.

(** The body of [visit_Call] for [router.register(prefix, viewset, ...)]. *)
Definition register_routes (router_var : string) (args : list ast)
    (keywords : list (option string * ast)) (v : t) : t :=
  match args with
  | arg0 :: arg1 :: _ =>
      let viewset_class :=
        match arg1 with
        | Name id => Some id
        | Attribute _ attr => Some attr
        | _ => None
        end in
      let basename :=
        foldl (fun b kw =>
                 match fst kw, _str (snd kw) with
                 | Some "basename", Some (String _ _ as s) => Some s
                 | _, _ => b
                 end) None keywords in
      match _str arg0 with
      | None => v
      | Some pre =>
          let actions :=
            match viewset_class with
            | Some (String _ _ as cls) =>
                concat (map (fun '(base, base_actions) =>
                               if Py.contains cls base || Py.endswith cls "ViewSet"
                               then base_actions else [])
                            VIEWSET_BASE_ACTIONS)
            | _ => []
            end in
          let actions := match actions with [] => ["list"; "retrieve"] | _ => actions end in
          let owner :=
            match viewset_class with
            | Some (String _ _ as cls) => cls
            | _ => match basename with Some b => b | None => "viewset" end
            end in
          let add_actions (among : list string) (p : string) (v : t) : t :=
            foldl (fun v action =>
                     _add_route p
                       (default ["get"] (Py.dict_get VIEWSET_ACTION_METHODS action))
                       (Some (owner +:+ "_" +:+ action))
                       (Some (action +:+ " " +:+ pre)) v)
                  v (filter (fun a => Py.str_in a among = true) actions) in
          foldl (fun v base =>
                   let list_path := prefix v +:+ base +:+ Py.rstrip "/" pre +:+ "/" in
                   let v := add_actions ["list"; "create"] list_path v in
                   add_actions ["retrieve"; "update"; "partial_update"; "destroy"]
                               (list_path +:+ "{id}/") v)
                v (default [""] (router_base v !! router_var))
      end
  | _ => v
  end.

(** [visit_Call], before its final [generic_visit] *)
Definition visit_Call_own (func : ast) (args : list ast)
    (keywords : list (option string * ast)) (parent_func : option string) (v : t) : t :=
  let v :=
    match func, args with
    | Attribute (Name "urlpatterns") "extend", arg0 :: _ => _consume_iterable arg0 v
    | _, _ => v
    end in
  let v :=
    match func with
    | Attribute (Name router_var) "register" =>
        if bool_decide (router_var ∈ routers v)
        then register_routes router_var args keywords v else v
    | _ => v
    end in
  match func, args, parent_func with
  | Name "api_view", arg0 :: _, Some func_name =>
      _store_api_view_methods func_name (_str_list arg0) v
  | _, _, _ => v
  end.

(** [visit_Assign], before its final [generic_visit] *)
Definition visit_Assign_own (targets : list ast) (value : ast) (v : t) : t :=
  let v :=
    match value with
    | Call (Name ctor) _ _ _ =>
        if Py.endswith ctor "Router" then
          foldl (fun v target =>
                   match target with
                   | Name x =>
                       set_routers v ({[x]} ∪ routers v)
                         (match router_base v !! x with
                          | Some _ => router_base v
                          | None => <[x := [""]]> (router_base v)
                          end)
                   | _ => v
                   end) v targets
        else v
    | _ => v
    end in
  if existsb (fun t => match t with Name "urlpatterns" => true | _ => false end) targets
  then _consume_iterable value v else v.

(** [visit_AugAssign], before its final [generic_visit] *)
Definition visit_AugAssign_own (target value : ast) (v : t) : t :=
  match target with
  | Name "urlpatterns" => _consume_iterable value v
  | _ => v
  end.

(** [visit]: the dispatch of [ast.NodeVisitor] on the node class, and
    [generic_visit] over the child nodes in field order. *)
Fixpoint visit (node : ast) (v : t) : t :=
  let visit_list := fun (l : list ast) (v : t) => foldl (fun v n => visit n v) v l in
  let visit_keywords := fun (l : list (option string * ast)) (v : t) =>
    foldl (fun v kw => visit (snd kw) v) v l in
  match node with
  | Module_ body => visit_list body v
  | Expr value => visit value v
  | Assign targets value =>
      let v := visit_Assign_own targets value v in
      visit value (visit_list targets v)
  | AugAssign target value =>
      let v := visit_AugAssign_own target value v in
      visit value (visit target v)
  | FunctionDef _ args body decorator_list returns =>
      let v := visit_list decorator_list (visit_list body (visit args v)) in
      match returns with Some r => visit r v | None => v end
  | ClassDef _ bases keywords body decorator_list =>
      visit_list decorator_list
        (visit_list body (visit_keywords keywords (visit_list bases v)))
  | Call func args keywords parent_func =>
      let v := visit_Call_own func args keywords parent_func v in
      visit_keywords keywords (visit_list args (visit func v))
  | Name _ => v
  | Attribute value _ => visit value v
  | Constant _ => v
  | List_ elts | Tuple elts => visit_list elts v
  | Dict keys values =>
      visit_list values
        (foldl (fun v k => match k with Some n => visit n v | None => v end) v keys)
  | Other children => visit_list children v
  end.
End URLVisitor.

(** ** [djang.py]: the decorator visitor *)

Module DecoratorVisitor.

(** The decorator loop of [visit_FunctionDef] on the dictionary [api_views]. *)
Definition visit_FunctionDef_own (name : string) (decorator_list : list ast)
    (api_views : gmap string (list string)) : gmap string (list string) :=
  foldl (fun acc decorator =>
           match decorator with
           | Call (Name "api_view") (arg0 :: _) _ _ =>
               match _str_list arg0 with
               | [] => acc
               | methods => <[name := map Py.lower methods]> acc
               end
           | _ => acc
           end) api_views decorator_list.

(** [visit]: only [FunctionDef] has a handler; every other node is
    traversed by [generic_visit]. *)
Fixpoint visit (node : ast) (acc : gmap string (list string)) : gmap string (list string) :=
  let visit_list := fun (l : list ast) acc => foldl (fun acc n => visit n acc) acc l in
  let visit_keywords := fun (l : list (option string * ast)) acc =>
    foldl (fun acc kw => visit (snd kw) acc) acc l in
  match node with
  | Module_ body => visit_list body acc
  | Expr value => visit value acc
  | Assign targets value => visit value (visit_list targets acc)
  | AugAssign target value => visit value (visit target acc)
  | FunctionDef name args body decorator_list returns =>
      let acc := visit_FunctionDef_own name decorator_list acc in
      let acc := visit_list decorator_list (visit_list body (visit args acc)) in
      match returns with Some r => visit r acc | None => acc end
  | ClassDef _ bases keywords body decorator_list =>
      visit_list decorator_list
        (visit_list body (visit_keywords keywords (visit_list bases acc)))
  | Call func args keywords _ =>
      visit_keywords keywords (visit_list args (visit func acc))
  | Name _ => acc
  | Attribute value _ => visit value acc
  | Constant _ => acc
  | List_ elts | Tuple elts => visit_list elts acc
  | Dict keys values =>
      visit_list values
        (foldl (fun acc k => match k with Some n => visit n acc | None => acc end) acc keys)
  | Other children => visit_list children acc
  end.

(** [decorator.parent_func = ast.Name(id=node.name)], for a decorator that
    is a call of a plain name. *)
Definition mark (name : string) (decorator : ast) : ast :=
  match decorator with
  | Call (Name f) args keywords _ => Call (Name f) args keywords (Some name)
  | d => d
  end.

(** The tree as the traversal leaves it: the visitor writes [parent_func]
    into the decorator nodes of the tree it is given, and the URL visitor
    later walks the same tree. *)
Fixpoint annotate (node : ast) : ast :=
  let annotate_keywords := fun (l : list (option string * ast)) =>
    map (fun kw => (fst kw, annotate (snd kw))) l in
  match node with
  | Module_ body => Module_ (map annotate body)
  | Expr value => Expr (annotate value)
  | Assign targets value => Assign (map annotate targets) (annotate value)
  | AugAssign target value => AugAssign (annotate target) (annotate value)
  | FunctionDef name args body decorator_list returns =>
      FunctionDef name (annotate args) (map annotate body)
        (map (fun d => mark name (annotate d)) decorator_list)
        (match returns with Some r => Some (annotate r) | None => None end)
  | ClassDef name bases keywords body decorator_list =>
      ClassDef name (map annotate bases) (annotate_keywords keywords)
        (map annotate body) (map annotate decorator_list)
  | Call func args keywords parent_func =>
      Call (annotate func) (map annotate args) (annotate_keywords keywords) parent_func
  | Name id => Name id
  | Attribute value attr => Attribute (annotate value) attr
  | Constant c => Constant c
  | List_ elts => List_ (map annotate elts)
  | Tuple elts => Tuple (map annotate elts)
  | Dict keys values =>
      Dict (map (fun k => match k with Some n => Some (annotate n) | None => None end) keys)
           (map annotate values)
  | Other children => Other (map annotate children)
  end.

End DecoratorVisitor.

(** The visiting part of [_walk] for one parsed file: the decorator scan,
    the transfer of [api_views] into the URL visitor, and the URL visit of
    the same tree.  [ViewSetVisitor] is run by the source as well, but its
    result is never read, so it is left out. *)
Definition visit_file (tree : ast) (prefix : string) : URLVisitor.t :=
  let api_views := DecoratorVisitor.visit tree ∅ in
  let tree := DecoratorVisitor.annotate tree in
  let visitor := URLVisitor.init prefix in
  let visitor :=
    map_fold (fun func_name methods v =>
                URLVisitor._store_api_view_methods func_name methods v)
             visitor api_views in
  URLVisitor.visit tree visitor.

(** ** Sample URL configurations *)

Definition str (s : string) : ast := Constant (CStr s).
Definition call (f : ast) (args : list ast) : ast := Call f args [] None.

(** [router = DefaultRouter()] *)
Definition router_assign : ast :=
  Assign [Name "router"] (call (Name "DefaultRouter") []).

(** [router.register("tasks", TaskViewSet)] *)
Definition register_tasks : ast :=
  Expr (call (Attribute (Name "router") "register") [str "tasks"; Name "TaskViewSet"]).

(** [urlpatterns = [path("api/", include(router.urls))]] *)
Definition include_router_at_api : ast :=
  Assign [Name "urlpatterns"]
    (List_ [call (Name "path")
              [str "api/"; call (Name "include") [Attribute (Name "router") "urls"]]]).

(** The usual layout: registrations first, [urlpatterns] last. *)
Definition register_then_include : ast :=
  Module_ [router_assign; register_tasks; include_router_at_api].

(** The other textual order: [urlpatterns] before the registration. *)
Definition include_then_register : ast :=
  Module_ [router_assign; include_router_at_api; register_tasks].

(** [@api_view(["get", "post"])] above [def handler(request): pass], and
    [urlpatterns = [path(p, handler)]]. *)
Definition api_view_module (handler p : string) : ast :=
  Module_
    [ FunctionDef handler (Other [Other []]) [Other []]
        [call (Name "api_view") [List_ [str "get"; str "post"]]] None;
      Assign [Name "urlpatterns"] (List_ [call (Name "path") [str p; Name handler]]) ].

(** [urlpatterns = [path("a/", v), path("b/", v)]] *)
Definition same_view_twice : ast :=
  Module_
    [ Assign [Name "urlpatterns"]
        (List_ [call (Name "path") [str "a/"; Name "v"];
                call (Name "path") [str "b/"; Name "v"]]) ].

Definition method_and_path (r : route) : string * string := (method r, path r).

(** ** The host: file system, interpreter state and import machinery

    What the analysers ask of the Python run time.  [fs] maps the resolved
    path of every existing file to the outcome of reading and parsing it
    ([None] when [read_text] or [ast.parse] raises).  [resolve] is
    [Path.resolve]; path values are kept as strings and their
    normalisation is part of [resolve].  [find_spec] is the outcome of
    [importlib.util.find_spec] for an absolute name: [FindRaises] is an
    exception other than [ModuleNotFoundError].  [sys_modules] holds the
    names of the modules that are loaded; it is taken as it is when the
    walk starts. *)

Inductive find_outcome :=
| SpecOrigin (origin : option string)
| ModuleNotFound
| FindRaises.

(** Outcome of [loader.exec_module] followed by the scan of the module
    members for a Flask instance. *)
Inductive exec_outcome (app : Type) :=
| ExecRaises
| Members (flask_app : option app).
Arguments ExecRaises {app}.
Arguments Members {app} flask_app.

Record host := Host {
  fs : gmap string (option ast);
  resolve : string -> string;
  sys_path : list string;
  find_spec : string -> find_outcome;
  sys_modules : gset string }.

Inductive message :=
| CouldNotParse (file : string)
| CouldNotResolve (mod_ : string)
| ErrorLoading.

(** Observable actions, in the order in which they happen.
    [EvImportModule name] is the call [__import__(name)] of the import
    system: it loads the package and every parent package of it that is not
    loaded yet, running their [__init__.py]. *)
Inductive event :=
| EvExists (p : string)
| EvReadText (p : string)
| EvFindSpec (mod_ : string)
| EvImportModule (name : string)
| EvExecModule (p : string)
| EvStderr (m : message)
| EvStdout (m : message).

Definition exists_ (h : host) (p : string) : bool :=
  bool_decide (is_Some (fs h !! resolve h p)).

(** ** [djang.py]: the module resolver *)

(** [s.split(c)] for a one-character separator *)
Fixpoint split (c : ascii) (s : string) : list string :=
  match s with
  | EmptyString => [EmptyString]
  | String d s' =>
      if Ascii.eqb d c then EmptyString :: split c s'
      else match split c s' with
           | [] => [String d EmptyString]
           | w :: ws => String d w :: ws
           end
  end.

Module Path.

(** [a / b]: an absolute right operand replaces the left one. *)
Definition join (a b : string) : string :=
  if Py.startswith b "/" then b
  else if Py.nonempty b then
    (if Py.nonempty a then a +:+ "/" +:+ b else b)
  else a.

(** The parsed form that [pathlib] keeps of a POSIX path: the root, which
    is empty, ["/"] or, for exactly two leading slashes, ["//"]; and the
    components, without the empty ones and without ["."]. *)
Definition root (p : string) : string :=
  if Py.startswith p "//" && negb (Py.startswith p "///") then "//"
  else if Py.startswith p "/" then "/" else "".

Definition components (p : string) : list string :=
  filter (fun c => Py.nonempty c && negb (String.eqb c ".") = true) (split "/" p).

(** [str(path)] of a parsed path *)
Definition str (root : string) (components : list string) : string :=
  match components with
  | [] => if Py.nonempty root then root else "."
  | _ => root +:+ Py.join "/" components
  end.

(** [s.rfind(c)] *)
Fixpoint rfind (c : ascii) (s : string) : option nat :=
  match s with
  | EmptyString => None
  | String d s' =>
      match rfind c s' with
      | Some i => Some (S i)
      | None => if Ascii.eqb d c then Some 0 else None
      end
  end.

(** A name without its suffix: the suffix starts at the last dot of the
    name, when that dot is neither its first nor its last character. *)
Definition stem (name : string) : string :=
  match rfind "." name with
  | Some i =>
      if (0 <? i)%nat && (i <? String.length name - 1)%nat then Py.take i name else name
  | None => name
  end.

(** [path.with_suffix(suffix)] for a valid suffix; [None] is the
    [ValueError] that a path with an empty name gives. *)
Definition with_suffix (p suffix : string) : option string :=
  match reverse (components p) with
  | [] => None
  | name :: parents => Some (str (root p) (reverse parents ++ [stem name +:+ suffix]))
  end.

End Path.

(** [s.replace(".", os.sep)] *)
Definition dots_to_sep (s : string) : string :=
  Py.map_chars (fun c => if Ascii.eqb c "."%char then "/"%char else c) s.

(** The first existing path of a list, with the checks performed. *)
Fixpoint first_existing (h : host) (ps : list string) : option string * list event :=
  match ps with
  | [] => (None, [])
  | p :: ps' =>
      if exists_ h p then (Some p, [EvExists p])
      else let '(r, t) := first_existing h ps' in (r, EvExists p :: t)
  end.

(** [_find_urls_in_app_dir] *)
Definition _find_urls_in_app_dir (h : host) (app_name project_root : string)
    : option string * list event :=
  let parts := split "." app_name in
  let patterns :=
    [ Path.join (dots_to_sep app_name) "urls.py";
      Path.join (Path.join (List.hd "" parts) (List.last parts "")) "urls.py";
      Path.join (Path.join "apps" (dots_to_sep app_name)) "urls.py";
      Path.join (Path.join project_root (dots_to_sep app_name)) "urls.py";
      Path.join (Path.join (Path.join project_root "apps") (dots_to_sep app_name)) "urls.py" ] in
  first_existing h
    (patterns ++
     map (fun p => Path.join (Path.join p (dots_to_sep app_name)) "urls.py") (sys_path h)).

(** A value or an escaping exception. *)
Inductive result (A : Type) :=
| Ok (a : A)
| Raised.
Arguments Ok {A} a.
Arguments Raised {A}.

(** [fullname.rpartition('.')[0]]: the name of the parent package, empty
    for a name without a dot. *)
Definition parent_name (fullname : string) : string :=
  match Path.rfind "." fullname with
  | Some i => Py.take i fullname
  | None => EmptyString
  end.

(** [importlib.util.find_spec(name)].  A relative name is refused with an
    [ImportError].  For a module that is not loaded, the parent package of
    a dotted name is imported first, to search the module on its
    [__path__]. *)
Definition importlib_find_spec (h : host) (name : string) : find_outcome * list event :=
  if Py.startswith name "." then (FindRaises, [EvFindSpec name]) else
  (find_spec h name,
   EvFindSpec name ::
   (if bool_decide (name ∈ sys_modules h) then []
    else if Py.nonempty (parent_name name) then [EvImportModule (parent_name name)]
    else [])).

(** [project_root.joinpath] of the parts of [mod.split(".")], then
    [with_suffix(".py")] *)
Definition candidate_file (mod_ project_root : string) : option string :=
  Path.with_suffix (foldl Path.join project_root (split "." mod_)) ".py".

(** [_file_from_module] *)
Definition _file_from_module (h : host) (mod_ project_root : string)
    : result (option string) * list event :=
  match candidate_file mod_ project_root with
  | None => (Raised, [])
  | Some candidate =>
      if exists_ h candidate then (Ok (Some candidate), [EvExists candidate]) else
      match _find_urls_in_app_dir h mod_ project_root with
      | (Some app_urls, t) => (Ok (Some app_urls), EvExists candidate :: t)
      | (None, t) =>
          let '(spec, lookup) := importlib_find_spec h mod_ in
          let t := EvExists candidate :: t ++ lookup in
          match spec with
          | SpecOrigin (Some origin) =>
              if Py.endswith origin ".py" then (Ok (Some origin), t) else (Ok None, t)
          | SpecOrigin None => (Ok None, t)
          | ModuleNotFound => (Ok None, t)
          | FindRaises => (Raised, t)
          end
      end
  end.

(** ** [djang.py]: the recursive walk *)

Record walk_state := WalkState {
  seen : gset string;
  trace : list event }.

Definition emit (es : list event) (st : walk_state) : walk_state :=
  {| seen := seen st; trace := trace st ++ es |}.

Definition walk_outcome : Type := option (result (list route) * walk_state).

(** The loop over [visitor.includes]; [rec] is the recursive call. *)
Fixpoint walk_includes (rec : string -> string -> walk_state -> walk_outcome)
    (h : host) (project_root : string) (incs : list (string * string))
    (routes : list route) (st : walk_state) : walk_outcome :=
  match incs with
  | [] => Some (Ok routes, st)
  | (mod_, new_pref) :: rest =>
      let '(sub, t) := _file_from_module h mod_ project_root in
      let st := emit t st in
      match sub with
      | Raised => Some (Raised, st)
      | Ok (Some sub) =>
          match rec sub new_pref st with
          | None => None
          | Some (Raised, st) => Some (Raised, st)
          | Some (Ok rs, st) => walk_includes rec h project_root rest (routes ++ rs) st
          end
      | Ok None =>
          walk_includes rec h project_root rest routes
            (emit [EvStdout (CouldNotResolve mod_)] st)
      end
  end.

(** [_walk].  The recursion of the source is bounded here by [fuel];
    [None] means that the bound was reached. *)
Fixpoint _walk (fuel : nat) (h : host) (urls_file project_root prefix : string)
    (st : walk_state) : walk_outcome :=
  match fuel with
  | O => None
  | S fuel' =>
      let urls_file := resolve h urls_file in
      if bool_decide (urls_file ∈ seen st) then Some (Ok [], st) else
      if negb (exists_ h urls_file) then Some (Ok [], emit [EvExists urls_file] st) else
      let st := {| seen := {[urls_file]} ∪ seen st;
                   trace := trace st ++ [EvExists urls_file; EvReadText urls_file] |} in
      match fs h !! resolve h urls_file with
      | Some (Some tree) =>
          let visitor := visit_file tree prefix in
          walk_includes (fun f p s => _walk fuel' h f project_root p s) h project_root
            (URLVisitor.includes visitor) (URLVisitor.routes visitor) st
      | _ => Some (Ok [], emit [EvStderr (CouldNotParse urls_file)] st)
      end
  end.

(** Fuel that always suffices: one unit per existing file, plus one. *)
Definition walk_budget (h : host) : nat := S (size (fs h)).

Definition fresh_state : walk_state := {| seen := ∅; trace := [] |}.

(** The entry call of [main]: empty prefix, fresh [seen] set. *)
Definition walk (h : host) (urls_file project_root : string) : walk_outcome :=
  _walk (walk_budget h) h urls_file project_root "" fresh_state.

(** The routes of an outcome, when the walk returned normally. *)
Definition routes_of (o : walk_outcome) : option (list route) :=
  match o with
  | Some (Ok rs, _) => Some rs
  | _ => None
  end.

(** ** [openapi_spec_creator.py]: the run-time loader

    [abspath] is [os.path.abspath]; [has_loader] tells whether
    [spec_from_file_location] finds a loader for the file; [exec_module]
    is the execution of the target module by its loader.  The result is
    the Flask application or the status of [sys.exit]. *)
Definition load_flask_app {app : Type} (abspath : string -> string)
    (has_loader : string -> bool) (exec_module : string -> exec_outcome app)
    (file_path : string) : (app + nat) * list event :=
  let abs_path := abspath file_path in
  if has_loader abs_path then
    match exec_module abs_path with
    | Members (Some a) => (inl a, [EvExecModule abs_path])
    | Members None => (inr 1, [EvExecModule abs_path; EvStdout ErrorLoading])
    | ExecRaises => (inr 1, [EvExecModule abs_path; EvStdout ErrorLoading])
    end
  else (inr 1, [EvStdout ErrorLoading]).

Definition is_exec (e : event) : bool :=
  match e with EvExecModule _ => true | _ => false end.

(** The actions that run code of a module. *)
Definition is_import (e : event) : bool :=
  match e with EvExecModule _ | EvImportModule _ => true | _ => false end.

(** ** [django_creator.py]: operation identifiers *)

Module OperationId.

(** [\w] on ASCII text *)
Definition is_word (c : ascii) : bool :=
  Py.is_lower c || Py.is_upper c || Py.is_digit c || Ascii.eqb c "_"%char.

(** The longest prefix of word characters. *)
Fixpoint word_run (s : string) : string :=
  match s with
  | String c s' => if is_word c then String c (word_run s') else EmptyString
  | EmptyString => EmptyString
  end.

(** [re.search(r'(\w+)(?:\.as_view\(\)|$|\W)', view_name)]: the first
    maximal run of word characters; after a maximal run the text ends or a
    non-word character follows, so the search succeeds as soon as a word
    character exists. *)
Fixpoint search_word (s : string) : option string :=
  match s with
  | EmptyString => None
  | String c s' => if is_word c then Some (word_run s) else search_word s'
  end.

(** [([a-z0-9])([A-Z])] with replacement [\1_\2] *)
Definition camel_boundary : Re.matcher := fun s =>
  match s with
  | String a (String b _) =>
      if (Py.is_lower a || Py.is_digit a) && Py.is_upper b
      then Some (String a (String "_" (String b EmptyString)), 2)
      else None
  | _ => None
  end.

(** [\{[^}]+\}] with the empty replacement *)
Definition brace_erase : Re.matcher := fun s =>
  match Re.brace_group s with
  | Some (_, len) => Some (EmptyString, len)
  | None => None
  end.

(** [re.sub(r'[^a-z0-9_]', '_', part)] *)
Definition special_to_underscore (s : string) : string :=
  Py.map_chars (fun c =>
    if Py.is_lower c || Py.is_digit c || Ascii.eqb c "_"%char then c else "_"%char) s.

(** [re.sub(r'_+', '_', part)] *)
Fixpoint squeeze_underscores (s : string) : string :=
  match s with
  | EmptyString => EmptyString
  | String c s' =>
      if Ascii.eqb c "_"%char && Py.startswith s' "_" then squeeze_underscores s'
      else String c (squeeze_underscores s')
  end.

Definition snake (s : string) : string := Py.lower (Re.sub camel_boundary s).

(** The suffix loop over [['ViewSet', 'View', 'APIView']], with its [break]. *)
Definition strip_view_suffix (view_class : string) : string :=
  match List.find (Py.endswith view_class) ["ViewSet"; "View"; "APIView"] with
  | Some suffix => Py.drop_last (String.length suffix) view_class
  | None => view_class
  end.

Definition view_class_of (view_name : string) : string :=
  snake (strip_view_suffix (default view_name (search_word view_name))).

Definition clean_part (part : string) : string :=
  Py.strip "_" (squeeze_underscores (special_to_underscore (snake part))).

Definition clean_parts_of (path : string) : list string :=
  filter (fun p => Py.nonempty p = true)
    (map clean_part
       (filter (fun p => Py.nonempty p = true)
          (split "/" (Py.strip "/" (Re.sub brace_erase path))))).

Definition truthy (l : list string) : list string :=
  filter (fun p => Py.nonempty p = true) l.

Section Hash.

(** [hashlib.md5(s.encode()).hexdigest()] *)
Variable md5_hexdigest : string -> string.

Definition parts_of (method path view_name : string) : list string :=
  truthy [Py.lower method; view_class_of view_name; Py.join "_" (clean_parts_of path)].

(** The identifier before the length check. *)
Definition full_id (method path view_name : string) : string :=
  let operation_id := Py.join "_" (truthy (parts_of method path view_name)) in
  match operation_id with
  | String c _ => if Py.is_digit c then "op_" +:+ operation_id else operation_id
  | EmptyString => operation_id
  end.

(** The identifier rebuilt around the hash of the path part. *)
Definition short_id (method path view_name : string) : string :=
  let clean_parts := clean_parts_of path in
  let path_str := Py.join "_" clean_parts in
  let path_hash := Py.take 8 (md5_hexdigest path_str) in
  let first_segment := List.hd "" clean_parts in
  let parts_without_path :=
    filter (fun p => p ≠ path_str) (parts_of method path view_name) in
  Py.join "_" (truthy (parts_without_path ++ [first_segment; path_hash])).

(** [generate_operation_id] *)
Definition generate_operation_id (method path view_name : string) : string :=
  let operation_id := full_id method path view_name in
  if (64 <? String.length operation_id)%nat then
    let short := short_id method path view_name in
    if (String.length short <=? 64)%nat then short else Py.take 64 operation_id
  else operation_id.

End Hash.

End OperationId.

(** ** Django route syntax, for stating the translation property

    A route is a sequence of literal text and angle-bracket placeholders,
    [<name>] or [<converter:name>]. *)

Inductive segment :=
| Lit (text : string)
| Placeholder (converter : option string) (name : string).

Definition raw_segment (s : segment) : string :=
  match s with
  | Lit text => text
  | Placeholder None name => "<" +:+ name +:+ ">"
  | Placeholder (Some conv) name => "<" +:+ conv +:+ ":" +:+ name +:+ ">"
  end.

Definition openapi_segment (s : segment) : string :=
  match s with
  | Lit text => text
  | Placeholder _ name => Re.braces name
  end.

Fixpoint concat_str (l : list string) : string :=
  match l with
  | [] => EmptyString
  | x :: l' => x +:+ concat_str l'
  end.

(** The text after the first substitution: converters of [_slug] are
    resolved, plain placeholders are still in angle brackets. *)
Definition after_slug (s : segment) : string :=
  match s with
  | Lit text => text
  | Placeholder None name => "<" +:+ name +:+ ">"
  | Placeholder (Some _) name => Re.braces name
  end.

(** Literal text holds no opening bracket; a name is non-empty and holds
    no bracket and no colon; a converter is one of those of [_slug]. *)
Definition wf_segment (s : segment) : Prop :=
  match s with
  | Lit text => Py.char_in "<" text = false
  | Placeholder conv name =>
      Py.nonempty name = true
      /\ Py.char_in "<" name = false /\ Py.char_in ">" name = false
      /\ Py.char_in ":" name = false
      /\ match conv with
         | Some c => c ∈ Re.slug_converters
         | None => True
         end
  end.

(** Native syntax left in a translated path: an opening angle bracket or
    the opener of a named regex group. *)
Definition unresolved_placeholder (s : string) : bool :=
  Py.char_in "<" s || Py.contains s "(?P".



(** [Path.resolve] returns a resolved path. *)
Definition resolve_idempotent (h : host) : Prop :=
  forall p, resolve h (resolve h p) = resolve h p.

(** The host in which the file [p] has another content. *)
Definition with_file (p : string) (content : option ast) (h : host) : host :=
  {| fs := <[p := content]> (fs h); resolve := resolve h;
     sys_path := sys_path h; find_spec := find_spec h;
     sys_modules := sys_modules h |}.

(** Number of existing files that the walk has not visited. *)
Definition unvisited (h : host) (st : walk_state) : nat :=
  size (dom (fs h) ∖ seen st).

(** A root file A whose only include leads to B, whose only include leads
    back to A. *)
Record include_cycle (h : host) (root a b : string) (treeA treeB : ast)
    (prefB : string) : Prop := IncludeCycle {
  cyc_a_resolved : resolve h a = a;
  cyc_b_resolved : resolve h b = b;
  cyc_distinct : a <> b;
  cyc_a_parsed : fs h !! a = Some (Some treeA);
  cyc_b_parsed : fs h !! b = Some (Some treeB);
  cyc_a_includes :
    exists modB, URLVisitor.includes (visit_file treeA "") = [(modB, prefB)]
      /\ exists b0, fst (_file_from_module h modB root) = Ok (Some b0)
                    /\ resolve h b0 = b;
  cyc_b_includes :
    exists modA prefA, URLVisitor.includes (visit_file treeB prefB) = [(modA, prefA)]
      /\ exists a0, fst (_file_from_module h modA root) = Ok (Some a0)
                    /\ resolve h a0 = a }.

(** Two outcomes that agree on the result and on the visited set; the
    traces may differ. *)
Definition same_result (o o' : walk_outcome) : Prop :=
  match o, o' with
  | Some (r, st), Some (r', st') => r = r' /\ seen st = seen st'
  | None, None => True
  | _, _ => False
  end.

(** ** Sample projects *)

(** [urlpatterns = [path("x/", va), path("b/", include("b"))]] *)
Definition cycle_a : ast :=
  Module_ [Assign [Name "urlpatterns"]
    (List_ [call (Name "path") [str "x/"; Name "va"];
            call (Name "path") [str "b/"; call (Name "include") [str "b"]]])].

(** [urlpatterns = [path("y/", vb), path("back/", include("a"))]] *)
Definition cycle_b : ast :=
  Module_ [Assign [Name "urlpatterns"]
    (List_ [call (Name "path") [str "y/"; Name "vb"];
            call (Name "path") [str "back/"; call (Name "include") [str "a"]]])].

Definition plain_host (files : gmap string (option ast)) : host :=
  {| fs := files; resolve := fun p => p; sys_path := [];
     find_spec := fun _ => ModuleNotFound; sys_modules := ∅ |}.

(** The project [/p] with [a.py] and [b.py] including each other. *)
Definition cycle_host : host :=
  plain_host (<["/p/a.py" := Some cycle_a]> (<["/p/b.py" := Some cycle_b]> ∅)).

(** [urlpatterns = [path("", home), path("bad/", include("bad")),
    path("good/", include("good"))]] *)
Definition broken_root : ast :=
  Module_ [Assign [Name "urlpatterns"]
    (List_ [call (Name "path") [str ""; Name "home"];
            call (Name "path") [str "bad/"; call (Name "include") [str "bad"]];
            call (Name "path") [str "good/"; call (Name "include") [str "good"]]])].

(** [urlpatterns = [path("items/", items)]] *)
Definition good_file : ast :=
  Module_ [Assign [Name "urlpatterns"]
    (List_ [call (Name "path") [str "items/"; Name "items"]])].

(** The project [/p] whose [bad.py] does not parse. *)
Definition broken_host : host :=
  plain_host (<["/p/urls.py" := Some broken_root]>
              (<["/p/bad.py" := None]> (<["/p/good.py" := Some good_file]> ∅))).

(** The project [/p] whose [urls.py] is the given tree. *)
Definition single_file_host (tree : ast) : host :=
  plain_host {["/p/urls.py" := Some tree]}.

Definition walked (tree : ast) : list route :=
  default [] (routes_of (walk (single_file_host tree) "/p/urls.py" "/p")).

(** A stand-in for MD5 in examples. *)
Definition sample_digest (s : string) : string := "0123456789abcdef0123456789abcdef".

(** Three records, the first two with the same path and method. *)
Definition first_get_a : route :=
  {| path := "/a"; method := "get"; operation_id := Some "v";
     description := "first"; parameters := [] |}.
Definition second_get_a : route :=
  {| path := "/a"; method := "get"; operation_id := Some "w";
     description := "second"; parameters := [] |}.
Definition post_root : route :=
  {| path := "/"; method := "post"; operation_id := Some "u";
     description := "third"; parameters := [] |}.
Definition duplicate_routes : list route := [first_get_a; second_get_a; post_root].

(** Two records with different [(path, method)] and the same string key. *)
Definition colliding_routes : list route :=
  [ {| path := "/a"; method := "x-y:get"; operation_id := None;
       description := "one"; parameters := [] |};
    {| path := "/a:x-y"; method := "get"; operation_id := None;
       description := "two"; parameters := [] |} ].

(** [<int:id>/<slug:tag>/<pk>] *)
Definition sample_segments : list segment :=
  [Placeholder (Some "int") "id"; Lit "/"; Placeholder (Some "slug") "tag"; Lit "/";
   Placeholder None "pk"].

Definition long_path : string :=
  "/api/a-very-long-path-segment/with-many-more-segments/and-even-more/{id}/".

(** ** Well-formed route records and visitor states *)

(** A path with exactly one leading slash. *)
Definition one_leading_slash (s : string) : Prop :=
  exists t, s = String "/" t /\ Py.startswith t "/" = false.

(** A route record whose path has one leading slash and whose parameter
    list names the brace placeholders of the path, in order. *)
Definition route_ok (r : route) : Prop :=
  one_leading_slash (path r)
  /\ parameters r = map path_param (Re.findall Re.brace_group (path r)).

(** The second visitor state only adds to the first. *)
Definition extends (v v' : URLVisitor.t) : Prop :=
  URLVisitor.prefix v' = URLVisitor.prefix v
  /\ URLVisitor.routes v `prefix_of` URLVisitor.routes v'
  /\ URLVisitor.includes v `prefix_of` URLVisitor.includes v'
  /\ URLVisitor.route_patterns v ⊆ URLVisitor.route_patterns v'
  /\ URLVisitor.routers v ⊆ URLVisitor.routers v'.

(** What a visitor records lies under its prefix: an include reference
    names a module and carries a prefix that extends the visitor's; a
    route path is the translation of a raw path that extends it. *)
Definition under_prefix (v : URLVisitor.t) : Prop :=
  Forall (fun inc => Py.nonempty (fst inc) = true
                     /\ Py.startswith (snd inc) (URLVisitor.prefix v) = true)
         (URLVisitor.includes v)
  /\ Forall (fun r => exists raw,
               path r = fst (_django_to_openapi (URLVisitor.prefix v +:+ raw)))
            (URLVisitor.routes v).

(** The files on which a trace calls [read_text]. *)
Definition reads (t : list event) : list string :=
  omap (fun e => match e with EvReadText p => Some p | _ => None end) t.

(** A root file A that includes the file B twice, under two prefixes; B
    itself includes nothing. *)
Record include_diamond (h : host) (root a b : string) (treeA treeB : ast)
    (pref1 : string) : Prop := IncludeDiamond {
  dia_a_resolved : resolve h a = a;
  dia_b_resolved : resolve h b = b;
  dia_distinct : a <> b;
  dia_a_parsed : fs h !! a = Some (Some treeA);
  dia_b_parsed : fs h !! b = Some (Some treeB);
  dia_a_includes :
    exists mod1 mod2 pref2,
      URLVisitor.includes (visit_file treeA "") = [(mod1, pref1); (mod2, pref2)]
      /\ (exists b1, fst (_file_from_module h mod1 root) = Ok (Some b1) /\ resolve h b1 = b)
      /\ (exists b2, fst (_file_from_module h mod2 root) = Ok (Some b2) /\ resolve h b2 = b);
  dia_b_includes : URLVisitor.includes (visit_file treeB pref1) = [] }.

(** [urlpatterns = [path("v1/", include("b")), path("v2/", include("b"))]] *)
Definition diamond_a : ast :=
  Module_ [Assign [Name "urlpatterns"]
    (List_ [call (Name "path") [str "v1/"; call (Name "include") [str "b"]];
            call (Name "path") [str "v2/"; call (Name "include") [str "b"]]])].

(** The project [/p] whose [a.py] mounts [b.py] twice. *)
Definition diamond_host : host :=
  plain_host (<["/p/a.py" := Some diamond_a]> (<["/p/b.py" := Some good_file]> ∅)).

(** The names of the placeholders of a route, in order. *)
Definition placeholder_names (segs : list segment) : list string :=
  omap (fun s => match s with Placeholder _ name => Some name | Lit _ => None end) segs.

(** Neither literal text nor names hold a brace. *)
Definition braceless (s : segment) : Prop :=
  match s with
  | Lit text => Py.char_in "{" text = false
  | Placeholder _ name => Py.char_in "{" name = false /\ Py.char_in "}" name = false
  end.

(** [urlpatterns = [path("shop/", include("shop.missing"))]] *)
Definition dotted_include_root : ast :=
  Module_ [Assign [Name "urlpatterns"]
    (List_ [call (Name "path") [str "shop/"; call (Name "include") [str "shop.missing"]]])].

(** The project [/p] with the package [shop] ([/p/shop/__init__.py]),
    which has no module [missing]; the project root is on [sys.path] and
    nothing of the project is loaded. *)
Definition package_host : host :=
  {| fs := <["/p/urls.py" := Some dotted_include_root]>
             (<["/p/shop/__init__.py" := Some (Module_ [])]> ∅);
     resolve := fun p => p; sys_path := ["/p"];
     find_spec := fun _ => SpecOrigin None; sys_modules := ∅ |}.

(** What the walk keeps true of its state: [read_text] is called on no
    file twice, the visited set is the set of these files, and every one
    of them exists. *)
Definition reads_once (h : host) (st : walk_state) : Prop :=
  NoDup (reads (trace st))
  /\ (forall p, p ∈ reads (trace st) <-> p ∈ seen st)
  /\ (forall p, p ∈ seen st -> exists_ h p = true).

(** ** [django_creator.py]: path joining and field types *)

(** [join_paths] *)
Definition join_paths (base_path sub_path : string) : string :=
  let base_clean :=
    if negb (String.eqb base_path "/") then Py.rstrip "/" base_path else "/" in
  let sub_clean := Py.lstrip "/" sub_path in
  if String.eqb base_clean "/" then "/" +:+ sub_clean
  else base_clean +:+ "/" +:+ sub_clean.

(** The table of [map_django_field_type_to_openapi]. *)
Definition field_type_mapping : list (string * string) :=
  [ ("CharField", "string"); ("TextField", "string"); ("EmailField", "string");
    ("URLField", "string"); ("SlugField", "string"); ("UUIDField", "string");
    ("FileField", "string"); ("ImageField", "string");
    ("BooleanField", "boolean"); ("NullBooleanField", "boolean");
    ("IntegerField", "integer"); ("PositiveIntegerField", "integer");
    ("PositiveSmallIntegerField", "integer"); ("SmallIntegerField", "integer");
    ("BigIntegerField", "integer");
    ("FloatField", "number"); ("DecimalField", "number");
    ("DateField", "string"); ("TimeField", "string"); ("DateTimeField", "string");
    ("DurationField", "string"); ("JSONField", "object");
    ("ForeignKey", "integer"); ("OneToOneField", "integer");
    ("ManyToManyField", "array") ].

(** [map_django_field_type_to_openapi] *)
Definition map_django_field_type_to_openapi (django_field_type : string) : string :=
  default "string" (Py.dict_get field_type_mapping django_field_type).

(** The table of [convert_django_type_to_openapi]. *)
Definition type_map : list (string * string) :=
  [ ("CharField", "string"); ("TextField", "string"); ("EmailField", "string");
    ("URLField", "string"); ("SlugField", "string"); ("UUIDField", "string");
    ("FileField", "string"); ("ImageField", "string");
    ("BooleanField", "boolean"); ("NullBooleanField", "boolean");
    ("IntegerField", "integer"); ("PositiveIntegerField", "integer");
    ("PositiveSmallIntegerField", "integer"); ("SmallIntegerField", "integer");
    ("BigIntegerField", "integer");
    ("FloatField", "number"); ("DecimalField", "number");
    ("DateField", "string"); ("TimeField", "string"); ("DateTimeField", "string");
    ("DurationField", "string"); ("JSONField", "object");
    ("ForeignKey", "integer"); ("OneToOneField", "integer");
    ("ManyToManyField", "array");
    ("string", "string"); ("integer", "integer"); ("boolean", "boolean");
    ("number", "number"); ("object", "object"); ("array", "array") ].

(** [convert_django_type_to_openapi] *)
Definition convert_django_type_to_openapi (django_type : string) : string :=
  default "string" (Py.dict_get type_map django_type).

(** The type names of an OpenAPI schema that the tables use. *)
Definition openapi_types : list string :=
  ["string"; "integer"; "boolean"; "number"; "object"; "array"].

(** Every character of [s] is one of [chars]. *)
Fixpoint all_in (chars : string) (s : string) : bool :=
  match s with
  | EmptyString => true
  | String c s' => Py.char_in c chars && all_in chars s'
  end.

(** ** [flask_creator.py]: the route visitor and the spec assembler

    [ast.Str] is the string constant of the syntax tree. *)

Module Flask.

Definition converters : list string := ["int"; "float"; "string"; "path"; "uuid"].

(** The typed placeholder [converter:name>] after an opening bracket: the
    name and the length of the match, bracket included. *)
Definition typed_name (s1 : string) : option (string * nat) :=
  Re.first_some (fun conv =>
    if Py.startswith s1 (conv +:+ ":") then
      match Re.run_then ">" (Py.drop (String.length conv + 1) s1) with
      | Some (name, _) => Some (name, String.length conv + String.length name + 3)
      | None => None
      end
    else None) converters.

(** [<(?:int|float|string|path|uuid):([^>]+)>] with replacement [{\1}] *)
Definition typed : Re.matcher := fun s =>
  match s with
  | String "<" s1 =>
      match typed_name s1 with
      | Some (name, len) => Some (Re.braces name, len)
      | None => None
      end
  | _ => None
  end.

(** [<(?:(?:int|float|string|path|uuid):)?([^>]+)>], returning the group:
    the optional converter is tried first, and the pattern is retried
    without it on failure. *)
Definition placeholder : Re.matcher := fun s =>
  match s with
  | String "<" s1 =>
      match typed_name s1 with
      | Some r => Some r
      | None =>
          match Re.run_then ">" s1 with
          | Some (name, _) => Some (name, String.length name + 2)
          | None => None
          end
      end
  | _ => None
  end.

(** The state of a [FlaskRouteVisitor]. *)
Record t := Visitor {
  routes : list route;
  app_name : option string;
  current_app_var : option string;
  possible_app_vars : gset string }.

Definition init : t :=
  {| routes := []; app_name := None; current_app_var := None; possible_app_vars := ∅ |}.

(** [_extract_string_value] *)
Definition _extract_string_value (node : ast) : option string := _str node.

(** [_extract_list_of_strings] *)
Definition _extract_list_of_strings (node : ast) : list string :=
  match node with
  | List_ elts => map Py.lower (omap _str elts)
  | _ => ["get"]
  end.

(** The two values that [_add_route] computes from the path. *)
Definition path_params (raw_path : string) : list param :=
  map path_param (Re.findall placeholder raw_path).

Definition openapi_path (raw_path : string) : string :=
  Re.sub Re._angle (Re.sub typed raw_path).

(** [_add_route] *)
Definition _add_route (raw_path : string) (methods : list string)
    (endpoint : option string) (v : t) : t :=
  let endpoint :=
    match endpoint with
    | Some e => if Py.nonempty e then e else "endpoint_" +:+ pretty (length (routes v))
    | None => "endpoint_" +:+ pretty (length (routes v))
    end in
  {| routes :=
       routes v ++
       map (fun m =>
              Route (openapi_path raw_path) m (Some endpoint)
                ("Endpoint for " +:+ Py.upper m +:+ " " +:+ raw_path)
                (path_params raw_path)) methods;
     app_name := app_name v;
     current_app_var := current_app_var v;
     possible_app_vars := possible_app_vars v |}.

(** The first positional argument as a string. *)
Definition path_arg (args : list ast) : option string :=
  match args with
  | a :: _ => _extract_string_value a
  | [] => None
  end.

(** The keyword loop of [_process_route_decorator]: the last [methods] and
    the last [endpoint] keyword count. *)
Definition route_keywords (keywords : list (option string * ast))
    : list string * option string :=
  foldl (fun acc kw =>
           if bool_decide (fst kw = Some "methods")
           then (_extract_list_of_strings (snd kw), snd acc)
           else if bool_decide (fst kw = Some "endpoint")
           then (fst acc, _extract_string_value (snd kw))
           else acc)
        (["get"], None) keywords.

(** [_process_route_decorator] *)
Definition _process_route_decorator (args : list ast)
    (keywords : list (option string * ast)) (v : t) : t :=
  let '(methods, endpoint) := route_keywords keywords in
  match path_arg args with
  | Some p => if Py.nonempty p then _add_route p methods endpoint v else v
  | None => v
  end.

(** The keyword loop of [_process_http_method_decorator]. *)
Definition endpoint_keyword (keywords : list (option string * ast)) : option string :=
  foldl (fun acc kw =>
           if bool_decide (fst kw = Some "endpoint")
           then _extract_string_value (snd kw) else acc)
        None keywords.

(** [_process_http_method_decorator]; [attr] is [node.func.attr]. *)
Definition _process_http_method_decorator (attr : string) (args : list ast)
    (keywords : list (option string * ast)) (v : t) : t :=
  let method := Py.lower attr in
  let endpoint := endpoint_keyword keywords in
  match path_arg args with
  | Some p => if Py.nonempty p then _add_route p [method] endpoint v else v
  | None => v
  end.

Definition set_current_app_var (id : string) (v : t) : t :=
  {| routes := routes v; app_name := app_name v; current_app_var := Some id;
     possible_app_vars := possible_app_vars v |}.

(** [visit_Call], before [generic_visit] *)
Definition visit_Call_own (func : ast) (args : list ast)
    (keywords : list (option string * ast)) (v : t) : t :=
  match func with
  | Attribute value attr =>
      if String.eqb attr "route" then
        match value with
        | Name id =>
            if bool_decide (id ∈ possible_app_vars v)
            then _process_route_decorator args keywords (set_current_app_var id v)
            else v
        | _ => v
        end
      else if Py.str_in attr ["get"; "post"; "put"; "delete"; "patch"] then
        match value with
        | Name id =>
            if bool_decide (id ∈ possible_app_vars v)
            then _process_http_method_decorator attr args keywords
                   (set_current_app_var id v)
            else v
        | _ => v
        end
      else v
  | _ => v
  end.

(** [visit_Assign], before [generic_visit] *)
Definition visit_Assign_own (targets : list ast) (value : ast) (v : t) : t :=
  match value with
  | Call (Name f) _ _ _ =>
      if String.eqb f "Flask" then
        foldl (fun v target =>
                 match target with
                 | Name id =>
                     {| routes := routes v;
                        app_name :=
                          match app_name v with
                          | Some a => if Py.nonempty a then Some a else Some id
                          | None => Some id
                          end;
                        current_app_var := current_app_var v;
                        possible_app_vars := {[id]} ∪ possible_app_vars v |}
                 | _ => v
                 end) v targets
      else v
  | _ => v
  end.

(** [visit]: the dispatch of [ast.NodeVisitor] and [generic_visit]. *)
Fixpoint visit (node : ast) (v : t) : t :=
  let visit_list := fun (l : list ast) (v : t) => foldl (fun v n => visit n v) v l in
  let visit_keywords := fun (l : list (option string * ast)) (v : t) =>
    foldl (fun v kw => visit (snd kw) v) v l in
  match node with
  | Module_ body => visit_list body v
  | Expr value => visit value v
  | Assign targets value =>
      let v := visit_Assign_own targets value v in
      visit value (visit_list targets v)
  | AugAssign target value => visit value (visit target v)
  | FunctionDef _ args body decorator_list returns =>
      let v := visit_list decorator_list (visit_list body (visit args v)) in
      match returns with Some r => visit r v | None => v end
  | ClassDef _ bases keywords body decorator_list =>
      visit_list decorator_list
        (visit_list body (visit_keywords keywords (visit_list bases v)))
  | Call func args keywords _ =>
      let v := visit_Call_own func args keywords v in
      visit_keywords keywords (visit_list args (visit func v))
  | Name _ => v
  | Attribute value _ => visit value v
  | Constant _ => v
  | List_ elts | Tuple elts => visit_list elts v
  | Dict keys values =>
      visit_list values
        (foldl (fun v k => match k with Some n => visit n v | None => v end) v keys)
  | Other children => visit_list children v
  end.

(** [extract_routes_from_file] on a file that was read and parsed. *)
Definition extract_routes (tree : ast) : string * list route :=
  let visitor := visit tree init in
  (match app_name visitor with
   | Some a => if Py.nonempty a then a else "FlaskApp"
   | None => "FlaskApp"
   end,
   routes visitor).

(** [generate_openapi_spec] *)
Definition generate_openapi_spec (app_name : string) (routes : list route) : spec_dict :=
  {| openapi := "3.0.2"; info_title := app_name; info_version := "1.0.0";
     paths :=
       foldl (fun acc r => APISpec_path (path r) (method r) (operation_of r) acc) ∅ routes;
     servers := [("/proxy/flask", "API with base path")] |}.

End Flask.

(** A Flask route: literal text without an opening bracket, non-empty
    names without brackets and colons, converters of Flask. *)
Definition flask_segment (s : segment) : Prop :=
  match s with
  | Lit text => Py.char_in "<" text = false
  | Placeholder conv name =>
      Py.nonempty name = true
      /\ Py.char_in "<" name = false /\ Py.char_in ">" name = false
      /\ Py.char_in ":" name = false
      /\ match conv with
         | Some c => c ∈ Flask.converters
         | None => True
         end
  end.

(** [/users/<int:user_id>/posts/<slug>] *)
Definition flask_sample_segments : list segment :=
  [Lit "/users/"; Placeholder (Some "int") "user_id"; Lit "/posts/";
   Placeholder None "slug"].

(** The decorator call [app.<attr>(args, keywords)]. *)
Definition app_call (app attr : string) (args : list ast)
    (keywords : list (option string * ast)) : ast :=
  Call (Attribute (Name app) attr) args keywords None.

(** [app = Flask(__name__)] followed by a function decorated with
    [decorator]. *)
Definition flask_module (decorator : ast) : ast :=
  Module_ [Assign [Name "app"] (call (Name "Flask") [Name "__name__"]);
           FunctionDef "view" (Other []) [] [decorator] None].

(** A Flask route record as the visitor makes them: a lower-case method
    and a non-empty operation identifier. *)
Definition flask_route_ok (r : route) : Prop :=
  Py.lower (method r) = method r
  /\ exists e, operation_id r = Some e /\ Py.nonempty e = true.

(** What the Flask visitor keeps true of its state. *)
Definition flask_consistent (v : Flask.t) : Prop :=
  Forall flask_route_ok (Flask.routes v)
  /\ (Flask.possible_app_vars v = ∅ -> Flask.routes v = [])
  /\ (Flask.app_name v = None -> Flask.possible_app_vars v = ∅).

(** ** Identifier fragments, for stating what [generate_operation_id]
    makes of a path *)

(** [[a-z0-9_]] *)
Definition id_char (c : ascii) : bool :=
  Py.is_lower c || Py.is_digit c || Ascii.eqb c "_"%char.

Fixpoint forall_chars (P : ascii -> bool) (s : string) : bool :=
  match s with
  | EmptyString => true
  | String c s' => P c && forall_chars P s'
  end.

(** A non-empty word of lower-case letters, digits and single underscores
    that neither starts nor ends with an underscore. *)
Definition clean_word (s : string) : Prop :=
  Py.nonempty s = true
  /\ forall_chars id_char s = true
  /\ Py.startswith s "_" = false
  /\ Py.endswith s "_" = false
  /\ Py.contains s "__" = false.

(** The path of the record is the translation of a raw path that starts
    with [pref]. *)
Definition mounted_under (pref : string) (r : route) : Prop :=
  exists raw, path r = fst (_django_to_openapi (pref +:+ raw)).


(** ** Decorated handlers, for stating what reaches a route declaration *)

(** A tree as the parser gives it: no call node carries [parent_func]. *)
Fixpoint fresh (node : ast) : bool :=
  match node with
  | Module_ body => forallb fresh body
  | Expr value => fresh value
  | Assign targets value => forallb fresh targets && fresh value
  | AugAssign target value => fresh target && fresh value
  | FunctionDef _ args body decorator_list returns =>
      fresh args && forallb fresh body && forallb fresh decorator_list
      && match returns with Some r => fresh r | None => true end
  | ClassDef _ bases keywords body decorator_list =>
      forallb fresh bases && forallb (fun kw => fresh (snd kw)) keywords
      && forallb fresh body && forallb fresh decorator_list
  | Call func args keywords parent_func =>
      match parent_func with None => true | Some _ => false end
      && fresh func && forallb fresh args && forallb (fun kw => fresh (snd kw)) keywords
  | Name _ => true
  | Attribute value _ => fresh value
  | Constant _ => true
  | List_ elts | Tuple elts => forallb fresh elts
  | Dict keys values =>
      forallb (fun k => match k with Some n => fresh n | None => true end) keys
      && forallb fresh values
  | Other children => forallb fresh children
  end.

(** The first argument of a decorator [@api_view(arg, ...)], written as a
    call of the bare name. *)
Definition api_view_arg (decorator : ast) : option ast :=
  match decorator with
  | Call (Name g) (arg0 :: _) _ _ => if String.eqb g "api_view" then Some arg0 else None
  | _ => None
  end.

(** The arguments of all [api_view] decorators of the plain function
    definitions named [f], anywhere in the tree. *)
Fixpoint api_view_args (f : string) (node : ast) : list ast :=
  match node with
  | Module_ body => flat_map (api_view_args f) body
  | Expr value => api_view_args f value
  | Assign targets value => flat_map (api_view_args f) targets ++ api_view_args f value
  | AugAssign target value => api_view_args f target ++ api_view_args f value
  | FunctionDef name args body decorator_list returns =>
      (if String.eqb name f then omap api_view_arg decorator_list else [])
      ++ api_view_args f args ++ flat_map (api_view_args f) body
      ++ flat_map (api_view_args f) decorator_list
      ++ match returns with Some r => api_view_args f r | None => [] end
  | ClassDef _ bases keywords body decorator_list =>
      flat_map (api_view_args f) bases
      ++ flat_map (fun kw => api_view_args f (snd kw)) keywords
      ++ flat_map (api_view_args f) body ++ flat_map (api_view_args f) decorator_list
  | Call func args keywords _ =>
      api_view_args f func ++ flat_map (api_view_args f) args
      ++ flat_map (fun kw => api_view_args f (snd kw)) keywords
  | Name _ => []
  | Attribute value _ => api_view_args f value
  | Constant _ => []
  | List_ elts | Tuple elts => flat_map (api_view_args f) elts
  | Dict keys values =>
      flat_map (fun k => match k with Some n => api_view_args f n | None => [] end) keys
      ++ flat_map (api_view_args f) values
  | Other children => flat_map (api_view_args f) children
  end.

(** The verbs that a decorator argument lists, in lower case. *)
Definition verbs_of (arg : ast) : list string := map Py.lower (_str_list arg).

(** The functions named [f] are decorated, by the bare name [api_view],
    and every such decoration lists the verbs [ms]. *)
Definition decorated_with (f : string) (ms : list string) (tree : ast) : Prop :=
  api_view_args f tree <> []
  /\ Forall (fun arg => verbs_of arg = ms) (api_view_args f tree).

(** The URL visitor as [_walk] prepares it for a file: the verbs found by
    the decorator scan are stored before the visit starts. *)
Definition prepared_visitor (tree : ast) (prefix : string) : URLVisitor.t :=
  map_fold (fun func_name methods v =>
              URLVisitor._store_api_view_methods func_name methods v)
           (URLVisitor.init prefix) (DecoratorVisitor.visit tree ∅).

(** A file with a [urlpatterns] list among its statements:
    [pre; urlpatterns = [before..., decl, after...]; post]. *)
Definition urlconf (pre before : list ast) (decl : ast) (after post : list ast) : ast :=
  Module_ (pre ++ Assign [Name "urlpatterns"] (List_ (before ++ decl :: after)) :: post).

(** The state of the URL visitor of a file when it reaches a declaration
    of the [urlpatterns] list: the statements [pre] are visited and the
    declarations [before] are handled. *)
Definition visitor_at (tree : ast) (prefix : string) (pre before : list ast)
    : URLVisitor.t :=
  foldl (fun v elt => URLVisitor._handle_pattern_call elt v)
    (foldl (fun v n => URLVisitor.visit n v) (prepared_visitor tree prefix)
       (map DecoratorVisitor.annotate pre))
    (map DecoratorVisitor.annotate before).

(** The records of the declaration [path(raw_path, handler)] for the
    verbs [ms], in a file visited under [prefix]. *)
Definition verb_routes (handler prefix raw_path : string) (ms : list string)
    : list route :=
  let '(openapi_path, params) := _django_to_openapi (prefix +:+ raw_path) in
  map (fun m =>
         {| path := openapi_path; method := m;
            operation_id :=
              Some (if String.eqb m "get" then handler else handler +:+ "_" +:+ m);
            description := Repr.repr_list ms +:+ " " +:+ raw_path;
            parameters := params |}) ms.

(** The key under which [_add_route] remembers a path with its verbs. *)
Definition route_key (raw_path : string) (ms : list string) : string :=
  fst (_django_to_openapi raw_path) +:+ ":" +:+ Py.join "," (list_sort String.leb id ms).

(** [@decorators.api_view(["get", "post"])] above [def handler(request):
    pass], and [urlpatterns = [path("x/", handler)]]. *)
Definition qualified_api_view_module : ast :=
  Module_
    [ FunctionDef "handler" (Other [Other []]) [Other []]
        [Call (Attribute (Name "decorators") "api_view")
           [List_ [str "get"; str "post"]] [] None] None;
      Assign [Name "urlpatterns"] (List_ [call (Name "path") [str "x/"; Name "handler"]]) ].

(** A route declaration [g(raw_path, f, more..., keywords...)], for [g]
    one of [path] and [re_path] and a handler given by its name. *)
Definition route_decl (g raw_path f : string) (more : list ast)
    (keywords : list (option string * ast)) : ast :=
  Call (Name g) (str raw_path :: Name f :: more) keywords None.

(** [@api_view(verbs)] above [def handler(request): pass]. *)
Definition api_view_handler (handler : string) (verbs : list string) : ast :=
  FunctionDef handler (Other [Other []]) [Other []]
    [call (Name "api_view") [List_ (map str verbs)]] None.

(** The route list before the definition of its handler. *)
Definition handler_after_routes : ast :=
  urlconf [] [] (route_decl "path" "x/" "handler" [] []) []
    [api_view_handler "handler" ["get"; "post"]].

(** A handler defined before the route list, and defined again, with
    another verb, after it. *)
Definition handler_redefined : ast :=
  urlconf [api_view_handler "handler" ["get"]] []
    (route_decl "path" "x/" "handler" [] []) []
    [api_view_handler "handler" ["post"]].

(** * Properties *)

#[local] Set Warnings "-clear-no-such-hyp".
#[local] Arguments Ascii.eqb : simpl nomatch.
#[local] Arguments String.eqb : simpl nomatch.

Example pluralize_table :
  map pluralize ["person"; "category"; "bus"; "city"; "photo"; "index"; "y"; "Box"]
  = [Some "people"; Some "categories"; Some "bi"; Some "cities";
     Some "photos"; Some "indices"; None; Some "boxes"].
Proof. vm_compute. reflexivity. Qed.

Example translate_examples :
  map (fun p => fst (_django_to_openapi p))
      [""; "/"; "<int:id>/<slug:tag>/"; "items/<pk>/"; "//a"; "^items/(?P<id>\d+)/$"; "<<a>b>"]
  = ["/"; "/"; "/{id}/{tag}/"; "/items/{pk}/"; "/a"; "/^items/(?P{id}\d+)/$"; "/{<a}b>"]
  /\ map convert_django_path_to_openapi
      [""; "/"; "<int:id>/<slug:tag>/"; "items/<pk>/"; "//a"; "^items/(?P<id>\d+)/$"; "(?P<a:id>x)"]
  = ["/"; "/proxy/django"; "/{id}/{tag}"; "/items/{pk}"; "//a"; "/^items/(?P{id}\d+)/$"; "/(?P{id}x)"].
Proof. vm_compute. split; reflexivity. Qed.

Example register_then_include_eval :
  map method_and_path (URLVisitor.routes (visit_file register_then_include ""))
  = [("get", "/tasks/"); ("post", "/tasks/"); ("get", "/tasks/{id}/");
     ("put", "/tasks/{id}/"); ("patch", "/tasks/{id}/"); ("delete", "/tasks/{id}/")].
Proof. vm_compute. reflexivity. Qed.

(** ** The pluraliser *)

(** C3, as the code has it: five of the six table entries hold; ["bus"] is
    not an irregular word and meets the [-us -> -i] rule before the
    sibilant rule, so its plural is ["bi"]; a word found in the irregular
    table gets the table's plural, whatever the suffix rules would say. *)
Theorem pluralize_table_irregular_first :
  pluralize "person" = Some "people"
  /\ pluralize "category" = Some "categories"
  /\ pluralize "city" = Some "cities"
  /\ pluralize "photo" = Some "photos"
  /\ pluralize "index" = Some "indices"
  /\ pluralize "bus" = Some "bi"
  /\ forall word plural,
       Py.nonempty word = true ->
       Py.dict_get irregulars (Py.lower word) = Some plural ->
       pluralize word = Some plural.
Proof.
  repeat (split; [vm_compute; reflexivity |]).
  intros word plural Hne Hirr. unfold pluralize.
  rewrite Hne. cbv zeta. cbn [negb]. rewrite Hirr. reflexivity.
Qed.

Lemma pluralize_table_irregular_first_witness :
  Py.nonempty "Index" = true
  /\ Py.dict_get irregulars (Py.lower "Index") = Some "indices"
  /\ pluralize "Index" = Some "indices".
Proof.
  split; [reflexivity |]. split; [reflexivity |].
  apply pluralize_table_irregular_first; reflexivity.
Defined.

(** C3 as stated fails on ["bus"]. *)
Lemma pluralize_bus_not_buses : pluralize "bus" <> Some "buses".
Proof. vm_compute. discriminate. Qed.

(** ** Path translation *)

Lemma lstrip_no_leading (c : ascii) (s : string) :
  Py.startswith (Py.lstrip (String c "") s) (String c "") = false.
Proof.
  induction s as [|a s IH]; simpl; [reflexivity |].
  destruct (Ascii.eqb a c) eqn:E; simpl; [exact IH |].
  rewrite Ascii.eqb_sym, E. reflexivity.
Qed.

Lemma append_nil (b : string) : "" +:+ b = b.
Proof. reflexivity. Qed.

Lemma append_cons (c : ascii) (a b : string) : String c a +:+ b = String c (a +:+ b).
Proof. reflexivity. Qed.

Ltac str_simpl := repeat (progress (rewrite ?append_cons, ?append_nil; simpl)).

Lemma append_assoc (a b c : string) : (a +:+ b) +:+ c = a +:+ (b +:+ c).
Proof. induction a as [|x a IH]; str_simpl; [reflexivity | rewrite IH; reflexivity]. Qed.

Lemma append_length (a b : string) :
  String.length (a +:+ b) = String.length a + String.length b.
Proof. induction a as [|x a IH]; str_simpl; [reflexivity | rewrite IH; reflexivity]. Qed.

Lemma char_in_app (c : ascii) (a b : string) :
  Py.char_in c (a +:+ b) = Py.char_in c a || Py.char_in c b.
Proof.
  induction a as [|d a IH]; str_simpl; [reflexivity |].
  rewrite IH. apply orb_assoc.
Qed.

(** Dropping the rest of a match. *)
Lemma sub_from_skip (m : Re.matcher) (u s : string) :
  Re.sub_from m (u +:+ s) (String.length u) = Re.sub_from m s 0.
Proof.
  induction u as [|c u IH]; str_simpl; [destruct s; reflexivity | exact IH].
Qed.

(** A match at the head of the text is replaced, and the scan resumes
    after it. *)
Lemma sub_match (m : Re.matcher) (c : ascii) (u s r : string) :
  m (String c (u +:+ s)) = Some (r, S (String.length u)) ->
  Re.sub m (String c (u +:+ s)) = r +:+ Re.sub m s.
Proof.
  intros H. unfold Re.sub. simpl. rewrite H. simpl.
  rewrite Nat.sub_0_r, sub_from_skip. reflexivity.
Qed.

(** Text without the opening character of the pattern is copied. *)
Lemma sub_text (m : Re.matcher) (open : ascii) (t s : string) :
  (forall c s', c <> open -> m (String c s') = None) ->
  Py.char_in open t = false ->
  Re.sub m (t +:+ s) = t +:+ Re.sub m s.
Proof.
  intros Hm. induction t as [|c t IH]; str_simpl; intros Ht; [reflexivity |].
  apply orb_false_iff in Ht as [Hc Ht].
  unfold Re.sub in *. simpl. rewrite Hm.
  - rewrite IH by exact Ht. reflexivity.
  - intros ->. rewrite Ascii.eqb_refl in Hc. discriminate.
Qed.

Lemma slug_needs_angle (c : ascii) (s : string) :
  c <> "<"%char -> Re._slug (String c s) = None.
Proof.
  intros Hc. unfold Re._slug.
  destruct c as [[] [] [] [] [] [] [] []]; try reflexivity. congruence.
Qed.

Lemma angle_needs_angle (c : ascii) (s : string) :
  c <> "<"%char -> Re._angle (String c s) = None.
Proof.
  intros Hc. unfold Re._angle.
  destruct c as [[] [] [] [] [] [] [] []]; try reflexivity. congruence.
Qed.

(** A run without the closing character, followed by it. *)
Lemma span_not_run (c : ascii) (n s : string) :
  Py.char_in c n = false ->
  Re.span_not c (n +:+ String c s) = (n, String c s).
Proof.
  induction n as [|d n IH]; str_simpl; intros H.
  - rewrite Ascii.eqb_refl. reflexivity.
  - apply orb_false_iff in H as [Hd Hn].
    rewrite Ascii.eqb_sym, Hd, IH by exact Hn. reflexivity.
Qed.

Lemma run_then_run (c : ascii) (n s : string) :
  Py.nonempty n = true -> Py.char_in c n = false ->
  Re.run_then c (n +:+ String c s) = Some (n, s).
Proof.
  intros Hne Hn. unfold Re.run_then. rewrite span_not_run by exact Hn.
  destruct n; [discriminate | reflexivity].
Qed.

Lemma startswith_app (p s : string) : Py.startswith (p +:+ s) p = true.
Proof. induction p; str_simpl; [reflexivity |]. rewrite Ascii.eqb_refl. exact IHp. Qed.

Lemma drop_app (p s : string) : Py.drop (String.length p) (p +:+ s) = s.
Proof. induction p; str_simpl; [destruct s; reflexivity | exact IHp]. Qed.

(** A name without a colon does not start like [converter:]. *)
Lemma no_converter_prefix (conv n s : string) :
  Py.char_in ":" n = false -> Py.char_in ">" conv = false ->
  Py.startswith (n +:+ String ">" s) (conv +:+ ":") = false.
Proof.
  revert n. induction conv as [|c conv IH]; intros n Hn Hc.
  - destruct n as [|a n]; [reflexivity |]. str_simpl. simpl in Hn.
    apply orb_false_iff in Hn as [Ha _]. rewrite Ha. reflexivity.
  - simpl in Hc. apply orb_false_iff in Hc as [Hc1 Hc2].
    destruct n as [|a n]; str_simpl.
    + rewrite Ascii.eqb_sym, Hc1. reflexivity.
    + simpl in Hn. apply orb_false_iff in Hn as [_ Hn].
      rewrite IH by assumption. apply andb_false_r.
Qed.

Lemma slug_at_converter (c n s : string) :
  c ∈ Re.slug_converters ->
  Py.nonempty n = true -> Py.char_in ">" n = false ->
  Re._slug (String "<" ((c +:+ ":" +:+ n +:+ ">") +:+ s))
  = Some (Re.braces n, S (String.length (c +:+ ":" +:+ n +:+ ">"))).
Proof.
  intros Hc Hne Hn. unfold Re.slug_converters in Hc.
  assert (Hrun : Re.run_then ">" (n +:+ String ">" s) = Some (n, s))
    by (apply run_then_run; assumption).
  repeat (apply elem_of_cons in Hc as [-> | Hc]);
    [ .. | apply elem_of_nil in Hc; destruct Hc ];
    unfold Re._slug, Re.slug_converters; rewrite !append_assoc; str_simpl;
    rewrite Hrun; rewrite !append_length; simpl; do 2 f_equal; lia.
Qed.

Lemma slug_at_plain (n s : string) :
  Py.char_in ":" n = false ->
  Re._slug (String "<" (n +:+ String ">" s)) = None.
Proof.
  intros Hn. unfold Re._slug, Re.slug_converters. cbn [Re.first_some].
  rewrite !no_converter_prefix by (exact Hn || reflexivity). reflexivity.
Qed.

Lemma angle_at_plain (n s : string) :
  Py.nonempty n = true -> Py.char_in ">" n = false ->
  Re._angle (String "<" ((n +:+ ">") +:+ s))
  = Some (Re.braces n, S (String.length (n +:+ ">"))).
Proof.
  intros Hne Hn. unfold Re._angle. rewrite append_assoc. str_simpl.
  rewrite run_then_run by assumption.
  rewrite append_length. simpl. do 2 f_equal. lia.
Qed.

Lemma sub_nomatch (m : Re.matcher) (c : ascii) (s : string) :
  m (String c s) = None -> Re.sub m (String c s) = String c (Re.sub m s).
Proof. intros H. unfold Re.sub. simpl. rewrite H. reflexivity. Qed.

Lemma raw_converter (c n rest : string) :
  raw_segment (Placeholder (Some c) n) +:+ rest
  = String "<" ((c +:+ ":" +:+ n +:+ ">") +:+ rest).
Proof. reflexivity. Qed.

Lemma raw_plain (n rest : string) :
  raw_segment (Placeholder None n) +:+ rest = String "<" (n +:+ String ">" rest).
Proof.
  change (String "<" ((n +:+ ">") +:+ rest) = String "<" (n +:+ String ">" rest)).
  rewrite append_assoc. reflexivity.
Qed.

Lemma braces_app (n rest : string) :
  Re.braces n +:+ rest = String "{" (n +:+ String "}" rest).
Proof.
  change (String "{" ((n +:+ "}") +:+ rest) = String "{" (n +:+ String "}" rest)).
  rewrite append_assoc. reflexivity.
Qed.

Lemma slug_sub_segments (segs : list segment) :
  Forall wf_segment segs ->
  Re.sub Re._slug (concat_str (map raw_segment segs))
  = concat_str (map after_slug segs).
Proof.
  induction 1 as [|seg segs Hseg _ IH]; [reflexivity |].
  cbn [map concat_str]. destruct seg as [text | [conv|] name].
  - cbn [raw_segment after_slug]. simpl in Hseg.
    rewrite (sub_text _ "<"%char) by (auto using slug_needs_angle). congruence.
  - destruct Hseg as (Hne & _ & Hgt & _ & Hconv).
    rewrite raw_converter.
    rewrite (sub_match _ _ _ _ (Re.braces name))
      by (apply slug_at_converter; assumption).
    cbn [after_slug]. congruence.
  - destruct Hseg as (Hne & Hlt & Hgt & Hcolon & _).
    rewrite raw_plain, sub_nomatch by (apply slug_at_plain; exact Hcolon).
    rewrite (sub_text _ "<"%char) by (auto using slug_needs_angle).
    rewrite sub_nomatch by (apply slug_needs_angle; discriminate).
    rewrite IH. symmetry. apply (raw_plain name).
Qed.

Lemma angle_sub_segments (segs : list segment) :
  Forall wf_segment segs ->
  Re.sub Re._angle (concat_str (map after_slug segs))
  = concat_str (map openapi_segment segs).
Proof.
  induction 1 as [|seg segs Hseg _ IH]; [reflexivity |].
  cbn [map concat_str]. destruct seg as [text | [conv|] name].
  - cbn [openapi_segment after_slug]. simpl in Hseg.
    rewrite (sub_text _ "<"%char) by (auto using angle_needs_angle). congruence.
  - destruct Hseg as (Hne & Hlt & Hgt & _ & _).
    cbn [openapi_segment after_slug]. rewrite !braces_app.
    rewrite sub_nomatch by (apply angle_needs_angle; discriminate).
    rewrite (sub_text _ "<"%char) by (auto using angle_needs_angle).
    rewrite sub_nomatch by (apply angle_needs_angle; discriminate).
    congruence.
  - destruct Hseg as (Hne & Hlt & Hgt & _ & _).
    change (after_slug (Placeholder None name) +:+ ?r)
      with (String "<" ((name +:+ ">") +:+ r)).
    rewrite (sub_match _ _ _ _ (Re.braces name))
      by (apply angle_at_plain; assumption).
    cbn [openapi_segment]. congruence.
Qed.

Lemma no_angle_in_openapi (segs : list segment) :
  Forall wf_segment segs ->
  Py.char_in "<" (concat_str (map openapi_segment segs)) = false.
Proof.
  induction 1 as [|seg segs Hseg _ IH]; [reflexivity |].
  cbn [map concat_str]. rewrite char_in_app, IH, orb_false_r.
  destruct seg as [text | conv name]; [exact Hseg |].
  destruct Hseg as (_ & Hlt & _). cbn [openapi_segment].
  change (Py.char_in "<" (String "{" (name +:+ "}")) = false).
  simpl. rewrite char_in_app, Hlt. reflexivity.
Qed.

Lemma lstrip_keeps_chars (c : ascii) (chars s : string) :
  Py.char_in c s = false -> Py.char_in c (Py.lstrip chars s) = false.
Proof.
  induction s as [|a s IH]; simpl; [reflexivity |]. intros H.
  destruct (Py.char_in a chars); [| exact H].
  apply orb_false_iff in H as [_ H]. auto.
Qed.

Lemma take_head (n : nat) (c : ascii) (s : string) :
  Py.take (S n) (String c s) = String c (Py.take n s).
Proof. reflexivity. Qed.

Lemma convert_begins_with_slash (p : string) :
  Py.startswith (convert_django_path_to_openapi p) "/" = true.
Proof.
  unfold convert_django_path_to_openapi.
  destruct (Py.nonempty p) eqn:Hp; [| reflexivity]. cbn [negb].
  assert (Hq : exists q, (if Py.startswith p "/" then p else "/" +:+ p) = String "/" q).
  { destruct (Py.startswith p "/") eqn:E; [| eexists; reflexivity].
    destruct p as [|c p]; [discriminate |]. simpl in E.
    apply andb_true_iff in E as [E _]. apply Ascii.eqb_eq in E as <-. eauto. }
  destruct Hq as [q ->].
  rewrite sub_nomatch by reflexivity. rewrite sub_nomatch by reflexivity.
  set (y := Re.sub Re.named_group (Re.sub Re.any_converter q)).
  assert (Hz : exists z,
    (if Py.endswith (String "/" y) "/" && (1 <? String.length (String "/" y))%nat
     then Py.drop_last 1 (String "/" y) else String "/" y) = String "/" z).
  { destruct (Py.endswith _ _ && _) eqn:E; [| eauto].
    apply andb_true_iff in E as [_ E]. apply Nat.ltb_lt in E.
    unfold Py.drop_last. cbn [String.length] in *.
    destruct (String.length y) eqn:L; [lia |].
    replace (S (S n) - 1) with (S n) by lia. rewrite take_head. eauto. }
  destruct Hz as [z ->]. destruct (String.eqb _ _); reflexivity.
Qed.

(** C4, as the code has it.  [_django_to_openapi] always returns a path
    with exactly one leading slash, maps the empty and the root path to
    ["/"], and turns every well-formed angle-bracket placeholder into
    [{name}], leaving no angle bracket.  [convert_django_path_to_openapi]
    returns a path that begins with a slash, maps the empty path to ["/"]
    and the root path to ["/proxy/django"].  Nothing is said of named regex
    groups. *)
Theorem path_translation_shape :
  (forall p, exists t,
      fst (_django_to_openapi p) = String "/" t /\ Py.startswith t "/" = false)
  /\ fst (_django_to_openapi "") = "/"
  /\ fst (_django_to_openapi "/") = "/"
  /\ (forall segs, Forall wf_segment segs ->
        fst (_django_to_openapi (concat_str (map raw_segment segs)))
        = "/" +:+ Py.lstrip "/" (concat_str (map openapi_segment segs))
        /\ Py.char_in "<" (fst (_django_to_openapi (concat_str (map raw_segment segs))))
           = false)
  /\ convert_django_path_to_openapi "" = "/"
  /\ convert_django_path_to_openapi "/" = "/proxy/django"
  /\ (forall p, Py.startswith (convert_django_path_to_openapi p) "/" = true).
Proof.
  split; [| split; [reflexivity | split; [reflexivity | split; [| split;
    [reflexivity | split; [reflexivity | exact convert_begins_with_slash]]]]]].
  - intros p. eexists. split; [reflexivity |]. apply (lstrip_no_leading "/").
  - intros segs Hwf. unfold _django_to_openapi. cbn [fst].
    rewrite slug_sub_segments, angle_sub_segments by exact Hwf.
    split; [reflexivity |].
    change (Py.char_in "<"
              (String "/" (Py.lstrip "/" (concat_str (map openapi_segment segs))))
            = false).
    simpl. apply lstrip_keeps_chars, no_angle_in_openapi, Hwf.
Qed.

Lemma path_translation_shape_witness :
  Forall wf_segment sample_segments
  /\ fst (_django_to_openapi "<int:id>/<slug:tag>/<pk>") = "/{id}/{tag}/{pk}".
Proof.
  assert (Hwf : Forall wf_segment sample_segments).
  { repeat constructor. }
  split; [exact Hwf |].
  destruct path_translation_shape as (_ & _ & _ & H & _).
  exact (proj1 (H sample_segments Hwf)).
Defined.

(** C4 as stated fails: a named regex group survives both translators,
    the second translator sends the root path to ["/proxy/django"] and
    keeps a doubled leading slash. *)
Lemma path_translation_counterexample :
  unresolved_placeholder (fst (_django_to_openapi "items/(?P<id>\d+)/")) = true
  /\ unresolved_placeholder (convert_django_path_to_openapi "items/(?P<id>\d+)/") = true
  /\ convert_django_path_to_openapi "/" <> "/"
  /\ Py.startswith (convert_django_path_to_openapi "//a") "//" = true.
Proof.
  split; [vm_compute; reflexivity |]. split; [vm_compute; reflexivity |].
  split; [vm_compute; discriminate | vm_compute; reflexivity].
Qed.

(** ** The stable sort *)

Section StableSort.

Context {A K : Type} `{EqDecision K} (leb : K -> K -> bool) (key : A -> K).

Hypothesis leb_total : forall a b, leb a b = true \/ leb b a = true.
Hypothesis leb_trans : forall a b c, leb a b = true -> leb b c = true -> leb a c = true.

#[local] Abbreviation le := (key_le leb key).

Lemma leb_refl (k : K) : leb k k = true.
Proof. destruct (leb_total k k); assumption. Qed.

Lemma insert_by_perm (x : A) (l : list A) :
  Permutation (x :: l) (insert_by leb key x l).
Proof.
  induction l as [|y l IH]; simpl; [reflexivity |].
  destruct (leb (key x) (key y)); [reflexivity |].
  rewrite perm_swap. apply perm_skip, IH.
Qed.

Lemma list_sort_perm (l : list A) : Permutation l (list_sort leb key l).
Proof.
  induction l as [|x l IH]; simpl; [reflexivity |].
  rewrite <- insert_by_perm. apply perm_skip, IH.
Qed.

Lemma insert_by_sorted (x : A) (l : list A) :
  StronglySorted le l -> StronglySorted le (insert_by leb key x l).
Proof.
  induction 1 as [|y l Hl IH Hy]; simpl; [repeat constructor |].
  destruct (leb (key x) (key y)) eqn:E.
  - constructor; [constructor; assumption |].
    constructor; [exact E |].
    eapply Forall_impl; [exact Hy |]. intros z Hz. eapply leb_trans; eassumption.
  - constructor; [exact IH |].
    rewrite <- insert_by_perm. constructor; [| exact Hy].
    destruct (leb_total (key x) (key y)) as [H | H]; [congruence | exact H].
Qed.

Lemma list_sort_sorted (l : list A) : StronglySorted le (list_sort leb key l).
Proof.
  induction l as [|x l IH]; simpl; [constructor | apply insert_by_sorted, IH].
Qed.

(** Stability: insertion never moves a record past one with its own key. *)
Lemma insert_by_filter (k : K) (x : A) (l : list A) :
  filter (fun r => key r = k) (insert_by leb key x l)
  = filter (fun r => key r = k) (x :: l).
Proof.
  induction l as [|y l IH]; simpl; [reflexivity |].
  destruct (leb (key x) (key y)) eqn:E; [reflexivity |].
  rewrite (filter_cons _ y), IH, !filter_cons.
  destruct (decide (key y = k)) as [Hy | Hy], (decide (key x = k)) as [Hx | Hx];
    try reflexivity.
  rewrite Hx, Hy, leb_refl in E. discriminate.
Qed.

Lemma list_sort_filter (k : K) (l : list A) :
  filter (fun r => key r = k) (list_sort leb key l) = filter (fun r => key r = k) l.
Proof.
  induction l as [|x l IH]; simpl; [reflexivity |].
  rewrite insert_by_filter, !filter_cons, IH. reflexivity.
Qed.

Lemma list_sort_sorted_id (l : list A) :
  StronglySorted le l -> list_sort leb key l = l.
Proof.
  induction 1 as [|x l Hl IH Hx]; simpl; [reflexivity |].
  rewrite IH. destruct Hx as [|y l Hxy _]; simpl; [reflexivity |].
  unfold key_le in Hxy. rewrite Hxy. reflexivity.
Qed.


End StableSort.

(** The order on [(path, method)] keys is a total preorder. *)
Lemma compare_refl (s : string) : String.compare s s = Eq.
Proof.
  induction s as [|c s IH]; simpl; [reflexivity |].
  unfold Ascii.compare. rewrite N.compare_refl. exact IH.
Qed.

Lemma compare_lt_leb (a b : string) :
  String.compare a b = Lt <-> String.leb a b = true /\ a <> b.
Proof.
  unfold String.leb. split.
  - intros H. rewrite H. split; [reflexivity |].
    intros ->. rewrite compare_refl in H. discriminate.
  - intros [H Hne]. destruct (String.compare a b) eqn:E; [| reflexivity | discriminate].
    apply String.compare_eq_iff in E. contradiction.
Qed.

Lemma string_leb_trans (a b c : string) :
  String.leb a b = true -> String.leb b c = true -> String.leb a c = true.
Proof.
  intros H1 H2. apply Is_true_true.
  apply (transitivity (R := String.le) (y := b)); apply Is_true_true; assumption.
Qed.

Lemma key_leb_spec (a b : string * string) :
  key_leb a b = true
  <-> (String.leb a.1 b.1 = true /\ a.1 <> b.1) \/ (a.1 = b.1 /\ String.leb a.2 b.2 = true).
Proof.
  unfold key_leb. destruct (String.compare a.1 b.1) eqn:E.
  - apply String.compare_eq_iff in E. split; [auto |].
    intros [[_ H] | [_ H]]; [contradiction | exact H].
  - apply compare_lt_leb in E. split; [auto | reflexivity].
  - split; [discriminate |]. intros [H | [H _]].
    + apply compare_lt_leb in H. congruence.
    + rewrite H, compare_refl in E. discriminate.
Qed.

Lemma key_leb_total (a b : string * string) :
  key_leb a b = true \/ key_leb b a = true.
Proof.
  rewrite !key_leb_spec.
  destruct (decide (a.1 = b.1)) as [E | E].
  - destruct (String.leb_total a.2 b.2); [left | right]; right; auto.
  - destruct (String.leb_total a.1 b.1); [left | right]; left; auto.
Qed.

Lemma key_leb_trans (a b c : string * string) :
  key_leb a b = true -> key_leb b c = true -> key_leb a c = true.
Proof.
  rewrite !key_leb_spec.
  intros [[H1 N1] | [E1 H1]] [[H2 N2] | [E2 H2]].
  - left. split; [eapply string_leb_trans; eassumption |].
    intros E. apply N2, String.leb_antisym; [exact H2 | rewrite <- E; exact H1].
  - left. rewrite <- E2. auto.
  - left. rewrite E1. auto.
  - right. split; [congruence | eapply string_leb_trans; eassumption].
Qed.

(** ** The spec assembler *)

(** C10: [_build_spec] leaves the caller's list stably sorted by
    [(path, method)]: a permutation of the original, in key order, with
    the records of every key in their original relative order; the list is
    unchanged exactly when it was already in order, and some lists are
    reordered. *)
Theorem build_spec_sorts_caller_list :
  (forall routes,
     let after := snd (_build_spec routes) in
     Permutation routes after
     /\ StronglySorted (key_le key_leb sort_key) after
     /\ (forall k, filter (fun r => sort_key r = k) after
                   = filter (fun r => sort_key r = k) routes)
     /\ (after = routes <-> StronglySorted (key_le key_leb sort_key) routes))
  /\ exists routes, snd (_build_spec routes) <> routes.
Proof.
  split.
  - intros routes. cbn [_build_spec snd]. split; [| split; [| split]].
    + apply list_sort_perm.
    + apply list_sort_sorted; [exact key_leb_total | exact key_leb_trans].
    + intros k. apply list_sort_filter. exact key_leb_total.
    + split.
      * intros <-. apply list_sort_sorted; [exact key_leb_total | exact key_leb_trans].
      * apply list_sort_sorted_id.
  - exists [ {| path := "/b"; method := "get"; operation_id := None;
                description := ""; parameters := [] |};
             {| path := "/a"; method := "get"; operation_id := None;
                description := ""; parameters := [] |} ].
    vm_compute. discriminate.
Qed.




(** The paths of a document built from a list of records hold, for a
    key, the operation of the last record with that key. *)
Lemma paths_fold_lookup (p m : string) (l : list route) (acc : path_items) :
  foldl (fun acc r => APISpec_path (path r) (method r) (operation_of r) acc) acc l
    !! p ≫= (fun item => item !! m)
  = match last (filter (fun r => sort_key r = (p, m)) l) with
    | Some r => Some (operation_of r)
    | None => acc !! p ≫= (fun item => item !! m)
    end.
Proof.
  revert acc. induction l as [|r l IH]; intros acc; [reflexivity |].
  cbn [foldl]. rewrite IH, filter_cons.
  destruct (decide (sort_key r = (p, m))) as [E | E].
  - rewrite last_cons. destruct (last _); [reflexivity |].
    injection E as <- <-. unfold APISpec_path.
    rewrite lookup_insert_eq. simpl. rewrite lookup_insert_eq. reflexivity.
  - destruct (last _); [reflexivity |]. unfold APISpec_path.
    destruct (decide (path r = p)) as [<- | Hp].
    + rewrite lookup_insert_eq. simpl.
      rewrite lookup_insert_ne by (intros <-; apply E; reflexivity).
      destruct (acc !! path r); reflexivity.
    + rewrite lookup_insert_ne by exact Hp. reflexivity.
Qed.



Example http_verbs_colon_free :
  Forall (fun m => Py.char_in ":" m = false)
    ["get"; "post"; "put"; "patch"; "delete"; "head"; "options"; "trace"].
Proof. repeat constructor. Qed.


(** With a colon in a method name two different pairs share one key, and
    the second pair gets no operation.  This is what [colon_free]
    excludes. *)
Example dedupe_key_collision :
  doc_operation (fst (_build_spec colliding_routes)) "/a:x-y" "get" = None.
Proof. vm_compute. reflexivity. Qed.

(** ** The recursive walk *)

Lemma walk_includes_mono (rec1 rec2 : string -> string -> walk_state -> walk_outcome)
    (h : host) (root : string) (incs : list (string * string)) :
  (forall f p st out, rec1 f p st = Some out -> rec2 f p st = Some out) ->
  forall routes st out,
    walk_includes rec1 h root incs routes st = Some out ->
    walk_includes rec2 h root incs routes st = Some out.
Proof.
  intros Hrec. induction incs as [|[mod_ pref] incs IH]; intros routes st out; simpl;
    [auto |].
  destruct (_file_from_module h mod_ root) as [[[sub|]|] t]; [| apply IH | auto].
  destruct (rec1 sub pref (emit t st)) as [[[rs|] st1]|] eqn:E; [| | discriminate];
    rewrite (Hrec _ _ _ _ E); auto.
Qed.

(** More fuel does not change a result. *)
Lemma walk_fuel_mono (h : host) (root : string) (fuel : nat) :
  forall fuel' f p st out,
    fuel <= fuel' ->
    _walk fuel h f root p st = Some out -> _walk fuel' h f root p st = Some out.
Proof.
  induction fuel as [|fuel IH]; intros fuel' f p st out Hle; [discriminate |].
  destruct fuel' as [|fuel']; [lia |]. simpl.
  destruct (bool_decide _); [auto |].
  destruct (negb _); [auto |].
  destruct (fs h !! _) as [[tree|]|]; [| auto | auto].
  apply walk_includes_mono. intros f' p' st' out'. apply IH. lia.
Qed.

Lemma walk_includes_total (rec : string -> string -> walk_state -> walk_outcome)
    (h : host) (root : string) (incs : list (string * string)) (base : gset string) :
  (forall f p st, base ⊆ seen st ->
     exists r st', rec f p st = Some (r, st') /\ seen st ⊆ seen st') ->
  forall routes st, base ⊆ seen st ->
    exists r st', walk_includes rec h root incs routes st = Some (r, st')
                  /\ seen st ⊆ seen st'.
Proof.
  intros Hrec. induction incs as [|[mod_ pref] incs IH]; intros routes st Hst; simpl;
    [eauto |].
  destruct (_file_from_module h mod_ root) as [[[sub|]|] t].
  - destruct (Hrec sub pref (emit t st) Hst) as (r & st1 & -> & Hsub).
    destruct r as [rs|]; [| eauto].
    destruct (IH (routes ++ rs) st1) as (r' & st2 & -> & Hsub2);
      [set_solver | exists r', st2; split; [reflexivity | set_solver]].
  - destruct (IH routes (emit [EvStdout (CouldNotResolve mod_)] (emit t st)) Hst)
      as (r & st' & -> & Hsub).
    eauto.
  - eauto.
Qed.

Lemma unvisited_mono (h : host) (st st' : walk_state) :
  seen st ⊆ seen st' -> unvisited h st' <= unvisited h st.
Proof. intros H. apply subseteq_size. set_solver. Qed.

Lemma unvisited_visit (h : host) (st : walk_state) (f : string) (t : list event) :
  f ∈ dom (fs h) -> f ∉ seen st ->
  unvisited h {| seen := {[f]} ∪ seen st; trace := t |} < unvisited h st.
Proof.
  intros Hdom Hnew. apply subset_size. unfold unvisited. simpl. set_solver.
Qed.

Lemma walk_total (h : host) (root : string) :
  resolve_idempotent h ->
  forall fuel f p st,
    unvisited h st < fuel ->
    exists r st', _walk fuel h f root p st = Some (r, st') /\ seen st ⊆ seen st'.
Proof.
  intros Hres. induction fuel as [|fuel IH]; intros f p st Hfuel; [lia |].
  simpl. case_bool_decide as Hseen; [eauto |].
  unfold exists_. rewrite Hres. case_bool_decide as Hex; simpl; [| eauto].
  assert (Hlt : unvisited h {| seen := {[resolve h f]} ∪ seen st;
                               trace := trace st ++ [EvExists (resolve h f);
                                                     EvReadText (resolve h f)] |}
                < unvisited h st)
    by (apply unvisited_visit; [apply elem_of_dom; exact Hex | exact Hseen]).
  destruct (fs h !! resolve h f) as [[tree|]|];
    [| eexists _, _; split; [reflexivity | simpl; set_solver] .. ].
  set (st1 := {| seen := {[resolve h f]} ∪ seen st;
                 trace := trace st ++ [EvExists (resolve h f);
                                       EvReadText (resolve h f)] |}) in *.
  assert (Hrec : forall f' p' st', seen st1 ⊆ seen st' ->
            exists r st'', _walk fuel h f' root p' st' = Some (r, st'')
                           /\ seen st' ⊆ seen st'').
  { intros f' p' st' Hst'. apply IH.
    eapply Nat.le_lt_trans; [| eapply Nat.lt_le_trans; [exact Hlt | lia]].
    apply unvisited_mono. exact Hst'. }
  destruct (walk_includes_total _ h root (URLVisitor.includes (visit_file tree p))
              (seen st1) Hrec (URLVisitor.routes (visit_file tree p)) st1)
    as (r & st' & Hw & Hsub); [reflexivity |].
  exists r, st'. split; [exact Hw | subst st1; simpl in Hsub; set_solver].
Qed.

Lemma two_files_size (h : host) (a b : string) (x y : option ast) :
  a <> b -> fs h !! a = Some x -> fs h !! b = Some y -> 2 <= size (fs h).
Proof.
  intros Hne Ha Hb. rewrite <- size_dom.
  transitivity (size ({[a]} ∪ {[b]} : gset string)).
  - rewrite size_union by set_solver. rewrite !size_singleton. lia.
  - apply subseteq_size. intros z [->%elem_of_singleton | ->%elem_of_singleton]%elem_of_union;
      apply elem_of_dom; eauto.
Qed.

Lemma walk_cycle_fuel (h : host) (root a b : string) (treeA treeB : ast) (prefB : string)
    (fuel : nat) :
  include_cycle h root a b treeA treeB prefB ->
  routes_of (_walk (3 + fuel) h a root "" fresh_state)
  = Some (URLVisitor.routes (visit_file treeA "")
          ++ URLVisitor.routes (visit_file treeB prefB)).
Proof.
  intros [Ha Hb Hne HfA HfB (modB & HincA & b0 & Hb0 & Hrb) (modA & prefA & HincB & a0 & Ha0 & Hra)].
  cbn [Nat.add _walk]. rewrite Ha.
  rewrite bool_decide_eq_false_2 by (cbn; set_solver).
  unfold exists_ at 1. rewrite Ha, HfA.
  rewrite bool_decide_eq_true_2 by eauto. cbn [negb].
  rewrite HincA. cbn [walk_includes].
  destruct (_file_from_module h modB root) as [rB tB]. cbn [fst] in Hb0. subst rB.
  rewrite Hrb. rewrite bool_decide_eq_false_2 by (cbn; set_solver).
  unfold exists_ at 1. rewrite Hb, HfB.
  rewrite bool_decide_eq_true_2 by eauto. cbn [negb].
  rewrite HincB. cbn [walk_includes].
  destruct (_file_from_module h modA root) as [rA tA]. cbn [fst] in Ha0. subst rA.
  rewrite Hra. rewrite bool_decide_eq_true_2 by (cbn; set_solver).
  cbn [routes_of]. rewrite app_nil_r. reflexivity.
Qed.

(** C6: the walk returns for every host, start file, prefix and visited
    set (the fuel bound is never the reason to stop once it exceeds the
    number of unvisited files); a file already in the visited set
    contributes nothing; and when A includes B and B includes A, the walk
    of A returns the routes of A followed by those of B, each once. *)
Theorem walk_terminates_on_cycles (h : host) :
  resolve_idempotent h ->
  (forall urls_file root prefix st,
     exists out, forall fuel,
       unvisited h st < fuel -> _walk fuel h urls_file root prefix st = Some out)
  /\ (forall urls_file root, exists routes st,
        walk h urls_file root = Some (routes, st))
  /\ (forall fuel urls_file root prefix st,
        resolve h urls_file ∈ seen st ->
        _walk (S fuel) h urls_file root prefix st = Some (Ok [], st))
  /\ (forall root a b treeA treeB prefB,
        include_cycle h root a b treeA treeB prefB ->
        routes_of (walk h a root)
        = Some (URLVisitor.routes (visit_file treeA "")
                ++ URLVisitor.routes (visit_file treeB prefB))).
Proof.
  intros Hres. split; [| split; [| split]].
  - intros f root p st.
    destruct (walk_total h root Hres (S (unvisited h st)) f p st) as (r & st' & Hw & _);
      [lia |].
    exists (r, st'). intros fuel Hfuel.
    eapply walk_fuel_mono; [| exact Hw]. lia.
  - intros f root. unfold walk, walk_budget.
    destruct (walk_total h root Hres (S (size (fs h))) f "" fresh_state)
      as (r & st' & Hw & _); [| eauto].
    unfold unvisited. rewrite <- size_dom.
    apply Nat.lt_succ_r, subseteq_size. set_solver.
  - intros fuel f root p st Hin. cbn [_walk].
    rewrite bool_decide_eq_true_2 by exact Hin. reflexivity.
  - intros root a b treeA treeB prefB Hcyc.
    pose proof (walk_cycle_fuel h root a b treeA treeB prefB 0 Hcyc) as H3.
    destruct (_walk (3 + 0) h a root "" fresh_state) as [out|] eqn:E; [| discriminate].
    unfold walk, walk_budget.
    assert (Hsz : 3 + 0 <= S (size (fs h))).
    { destruct Hcyc as [_ _ Hne HfA HfB _ _].
      pose proof (two_files_size h a b _ _ Hne HfA HfB). lia. }
    rewrite (walk_fuel_mono h root _ _ _ _ _ _ Hsz E). exact H3.
Qed.

Lemma walk_terminates_on_cycles_witness :
  resolve_idempotent cycle_host
  /\ include_cycle cycle_host "/p" "/p/a.py" "/p/b.py" cycle_a cycle_b "b/"
  /\ map method_and_path
       (default [] (routes_of (walk cycle_host "/p/a.py" "/p")))
     = [("get", "/x/"); ("get", "/b/y/")].
Proof.
  assert (Hres : resolve_idempotent cycle_host) by (intros p; reflexivity).
  assert (Hcyc : include_cycle cycle_host "/p" "/p/a.py" "/p/b.py" cycle_a cycle_b "b/").
  { split; try reflexivity.
    - discriminate.
    - exists "b". split; [vm_compute; reflexivity |].
      exists "/p/b.py". split; vm_compute; reflexivity.
    - exists "a", "b/back/". split; [vm_compute; reflexivity |].
      exists "/p/a.py". split; vm_compute; reflexivity. }
  split; [exact Hres |]. split; [exact Hcyc |].
  destruct (walk_terminates_on_cycles cycle_host Hres) as (_ & _ & _ & H).
  rewrite (H _ _ _ _ _ _ Hcyc). vm_compute. reflexivity.
Defined.

(** *** A file that does not parse *)

Section Unparsable.

Variables (h : host) (bad : string) (content : option ast).
Hypothesis bad_exists : is_Some (fs h !! bad).

Let h' := with_file bad content h.

Lemma with_file_exists (p : string) : exists_ h' p = exists_ h p.
Proof.
  unfold exists_, h', with_file. cbn [fs resolve].
  destruct (decide (resolve h p = bad)) as [-> | Hne].
  - rewrite lookup_insert_eq. rewrite !bool_decide_eq_true_2; eauto.
  - rewrite lookup_insert_ne by congruence. reflexivity.
Qed.

Lemma with_file_first_existing (ps : list string) :
  first_existing h' ps = first_existing h ps.
Proof.
  induction ps as [|p ps IH]; simpl; [reflexivity |].
  rewrite with_file_exists, IH. reflexivity.
Qed.

Lemma with_file_from_module (mod_ root : string) :
  _file_from_module h' mod_ root = _file_from_module h mod_ root.
Proof.
  unfold _file_from_module, _find_urls_in_app_dir.
  destruct (candidate_file mod_ root) as [candidate|]; [| reflexivity].
  rewrite with_file_exists, with_file_first_existing. reflexivity.
Qed.

Lemma walk_includes_same (rec rec' : string -> string -> walk_state -> walk_outcome)
    (root : string) (incs : list (string * string)) :
  (forall f p st st', seen st = seen st' -> same_result (rec f p st) (rec' f p st')) ->
  forall routes st st', seen st = seen st' ->
    same_result (walk_includes rec h root incs routes st)
                (walk_includes rec' h' root incs routes st').
Proof.
  intros Hrec. induction incs as [|[mod_ pref] incs IH]; intros routes st st' Hst;
    cbn [walk_includes]; [split; [reflexivity | exact Hst] |].
  rewrite with_file_from_module.
  destruct (_file_from_module h mod_ root) as [[[sub|]|] t].
  - specialize (Hrec sub pref (emit t st) (emit t st') Hst).
    destruct (rec sub pref (emit t st)) as [[[rs|] s1]|],
             (rec' sub pref (emit t st')) as [[[rs'|] s1']|];
      try contradiction; try (destruct Hrec; discriminate).
    + destruct Hrec as [[= <-] Hs]. apply IH, Hs.
    + exact Hrec.
    + exact I.
  - apply IH. exact Hst.
  - split; [reflexivity | exact Hst].
Qed.

End Unparsable.

Lemma visit_empty_module (prefix : string) :
  visit_file (Module_ []) prefix = URLVisitor.init prefix.
Proof. unfold visit_file. simpl. rewrite map_fold_empty. reflexivity. Qed.

(** An unparsable file and an empty module give every walk the same
    routes and the same visited set. *)
Lemma walk_unparsable_as_empty (h : host) (bad root : string) (fuel : nat) :
  fs h !! bad = Some None ->
  forall f p st st', seen st = seen st' ->
    same_result (_walk fuel h f root p st)
                (_walk fuel (with_file bad (Some (Module_ [])) h) f root p st').
Proof.
  intros Hbad. induction fuel as [|fuel IH]; intros f p st st' Hst; [exact I |].
  cbn [_walk]. rewrite with_file_exists by eauto.
  cbn [with_file resolve fs]. rewrite <- Hst.
  destruct (bool_decide (resolve h f ∈ seen st)); [split; [reflexivity | exact Hst] |].
  destruct (exists_ h (resolve h f)); cbn [negb];
    [| split; [reflexivity | exact Hst]].
  destruct (decide (resolve h (resolve h f) = bad)) as [-> | Hne].
  - rewrite lookup_insert_eq, Hbad, visit_empty_module. cbn.
    split; [reflexivity | rewrite Hst; reflexivity].
  - rewrite lookup_insert_ne by congruence.
    destruct (fs h !! resolve h (resolve h f)) as [[tree|]|];
      try (split; [reflexivity | cbn; rewrite Hst; reflexivity]).
    apply (walk_includes_same h bad (Some (Module_ []))); [eauto | exact IH |].
    cbn. rewrite Hst. reflexivity.
Qed.

(** C9: walking a file that exists but cannot be read or parsed reports
    the failure on the diagnostic stream, returns normally with no route
    and marks the file visited; and in every walk such a file counts as an
    empty module: the walk of any start file returns the same routes as
    if the file declared nothing, so the other files and includes are
    processed as usual. *)
Theorem unparsable_file_contributes_nothing (h : host) (bad : string) :
  resolve h bad = bad ->
  fs h !! bad = Some None ->
  (forall fuel root prefix st,
     bad ∉ seen st ->
     _walk (S fuel) h bad root prefix st
     = Some (Ok [],
             {| seen := {[bad]} ∪ seen st;
                trace := trace st ++ [EvExists bad; EvReadText bad;
                                      EvStderr (CouldNotParse bad)] |}))
  /\ (forall urls_file root,
        routes_of (walk h urls_file root)
        = routes_of (walk (with_file bad (Some (Module_ [])) h) urls_file root)).
Proof.
  intros Hres Hbad. split.
  - intros fuel root prefix st Hnew. cbn [_walk]. rewrite Hres.
    rewrite bool_decide_eq_false_2 by exact Hnew.
    unfold exists_. rewrite Hres, Hbad.
    rewrite bool_decide_eq_true_2 by eauto. unfold emit. cbn [negb seen trace].
    rewrite <- app_assoc. reflexivity.
  - intros f root. unfold walk, walk_budget.
    replace (size (fs (with_file bad (Some (Module_ [])) h))) with (size (fs h))
      by (symmetry; apply map_size_insert_Some; eauto).
    pose proof (walk_unparsable_as_empty h bad root (S (size (fs h))) Hbad
                  f "" fresh_state fresh_state eq_refl) as H.
    destruct (_walk _ h f root "" fresh_state) as [[r s]|],
             (_walk _ (with_file _ _ h) f root "" fresh_state) as [[r' s']|];
      try contradiction; [| reflexivity].
    destruct H as [<- _]. reflexivity.
Qed.

Lemma unparsable_file_contributes_nothing_witness :
  resolve broken_host "/p/bad.py" = "/p/bad.py"
  /\ fs broken_host !! "/p/bad.py" = Some None
  /\ map method_and_path
       (default [] (routes_of (walk broken_host "/p/urls.py" "/p")))
     = [("get", "/"); ("get", "/good/items/")].
Proof.
  split; [reflexivity |]. split; [reflexivity |].
  rewrite (proj2 (unparsable_file_contributes_nothing broken_host "/p/bad.py"
                    eq_refl eq_refl)).
  vm_compute. reflexivity.
Defined.

(** ** The URL visitor *)

(** C1, on the code: the prefix of [include(router.urls)] is recorded but
    never applied to a registration made earlier.  With the registration
    before the include the six operations are at [/tasks/], not at
    [/api/tasks/]; with the include first, the registration is expanded
    once for the default base and once for [api/], twelve operations. *)
Theorem router_prefix_not_applied :
  map method_and_path (walked register_then_include)
  = [("get", "/tasks/"); ("post", "/tasks/"); ("get", "/tasks/{id}/");
     ("put", "/tasks/{id}/"); ("patch", "/tasks/{id}/"); ("delete", "/tasks/{id}/")]
  /\ map method_and_path (walked include_then_register)
     = [("get", "/tasks/"); ("post", "/tasks/"); ("get", "/tasks/{id}/");
        ("put", "/tasks/{id}/"); ("patch", "/tasks/{id}/"); ("delete", "/tasks/{id}/");
        ("get", "/api/tasks/"); ("post", "/api/tasks/"); ("get", "/api/tasks/{id}/");
        ("put", "/api/tasks/{id}/"); ("patch", "/api/tasks/{id}/");
        ("delete", "/api/tasks/{id}/")].
Proof. split; vm_compute; reflexivity. Qed.

(** ** Operation identifiers *)

(** C8 as stated fails: two routes to the same view get the same
    [operationId] in the assembled document. *)
Lemma operation_ids_collide :
  exists op1 op2,
    doc_operation (fst (_build_spec (walked same_view_twice))) "/a/" "get" = Some op1
    /\ doc_operation (fst (_build_spec (walked same_view_twice))) "/b/" "get" = Some op2
    /\ operationId op1 = operationId op2.
Proof. do 2 eexists. split; [| split]; vm_compute; reflexivity. Qed.

Lemma take_length (n : nat) (s : string) : String.length (Py.take n s) <= n.
Proof.
  revert s. induction n as [|n IH]; intros [|c s]; simpl; try lia.
  specialize (IH s). lia.
Qed.

Lemma add_route_operation_id (raw_path : string) (methods : list string)
    (op_id desc : option string) (v : URLVisitor.t) :
  fst (_django_to_openapi raw_path) +:+ ":"
    +:+ Py.join "," (list_sort String.leb id methods) ∉ URLVisitor.route_patterns v ->
  map (fun r => (method r, operation_id r))
    (URLVisitor.routes (URLVisitor._add_route raw_path methods op_id desc v))
  = map (fun r => (method r, operation_id r)) (URLVisitor.routes v)
    ++ map (fun m => (m, if String.eqb m "get" then op_id
                         else Some (URLVisitor.fmt op_id +:+ "_" +:+ m))) methods.
Proof.
  intros Hfresh. unfold URLVisitor._add_route.
  destruct (_django_to_openapi raw_path) as [op params]. cbn [fst] in Hfresh.
  rewrite bool_decide_eq_false_2 by exact Hfresh.
  cbn [URLVisitor.routes URLVisitor.set_routes].
  rewrite map_app, map_map. reflexivity.
Qed.

(** The identifier that [generate_operation_id] returns does not say which
    placeholders a path has: a collection and its items get the same one. *)
Lemma generate_operation_id_erases_placeholders (md5_hexdigest : string -> string)
    (method view_name : string) :
  OperationId.generate_operation_id md5_hexdigest method "/tasks/" view_name
  = OperationId.generate_operation_id md5_hexdigest method "/tasks/{pk}/" view_name.
Proof.
  unfold OperationId.generate_operation_id, OperationId.full_id, OperationId.short_id,
    OperationId.parts_of.
  replace (OperationId.clean_parts_of "/tasks/{pk}/") with (OperationId.clean_parts_of "/tasks/")
    by (vm_compute; reflexivity).
  reflexivity.
Qed.

(** C8, as the code has it.  [djang.py] and [flask_creator.py] take the
    identifier of a record from its handler and do not look at the
    identifiers in use: every record that [URLVisitor._add_route] adds
    carries the handler's [op_id] for GET and [op_id_method] for any other
    verb; every record of one Flask registration carries the endpoint
    name.  So two routes to one handler share an identifier.
    [generate_operation_id] bounds the length: an identifier of at most 64
    characters is returned as it is; a longer one is replaced by the form
    built from the hash of the path part when that form has at most 64
    characters, and is otherwise cut to its first 64 characters; the
    result never exceeds 64. *)
Theorem operation_id_length_bound (md5_hexdigest : string -> string)
    (verb url_path view_name : string) :
  let full := OperationId.full_id verb url_path view_name in
  let short := OperationId.short_id md5_hexdigest verb url_path view_name in
  let oid := OperationId.generate_operation_id md5_hexdigest verb url_path view_name in
  String.length oid <= 64
  /\ (String.length full <= 64 -> oid = full)
  /\ (64 < String.length full -> String.length short <= 64 -> oid = short)
  /\ (64 < String.length full -> 64 < String.length short -> oid = Py.take 64 full)
  /\ (forall raw_path methods op_id desc v,
        fst (_django_to_openapi raw_path) +:+ ":"
          +:+ Py.join "," (list_sort String.leb id methods)
          ∉ URLVisitor.route_patterns v ->
        map (fun r => (method r, operation_id r))
          (URLVisitor.routes (URLVisitor._add_route raw_path methods op_id desc v))
        = map (fun r => (method r, operation_id r)) (URLVisitor.routes v)
          ++ map (fun m => (m, if String.eqb m "get" then op_id
                               else Some (URLVisitor.fmt op_id +:+ "_" +:+ m))) methods)
  /\ (forall raw_path methods endpoint v,
        Py.nonempty endpoint = true ->
        map (fun r => (method r, operation_id r))
          (Flask.routes (Flask._add_route raw_path methods (Some endpoint) v))
        = map (fun r => (method r, operation_id r)) (Flask.routes v)
          ++ map (fun m => (m, Some endpoint)) methods).
Proof.
  intros full short oid. subst oid. unfold OperationId.generate_operation_id.
  fold full. fold short.
  split; [| split; [| split; [| split; [| split]]]].
  - destruct (64 <? String.length full)%nat eqn:Hfull;
      [| apply Nat.ltb_ge in Hfull; exact Hfull].
    destruct (String.length short <=? 64)%nat eqn:Hshort;
      [apply Nat.leb_le in Hshort; exact Hshort | apply take_length].
  - intros H. apply Nat.ltb_ge in H. rewrite H. reflexivity.
  - intros H1 H2. apply Nat.ltb_lt in H1. apply Nat.leb_le in H2.
    rewrite H1, H2. reflexivity.
  - intros H1 H2. apply Nat.ltb_lt in H1. apply Nat.leb_gt in H2.
    rewrite H1, H2. reflexivity.
  - intros raw_path methods op_id desc v. apply add_route_operation_id.
  - intros raw_path methods endpoint v Hne. unfold Flask._add_route. rewrite Hne.
    cbn [Flask.routes]. rewrite map_app, map_map. reflexivity.
Qed.

Lemma operation_id_length_bound_witness :
  64 < String.length (OperationId.full_id "GET" long_path "TaskViewSet")
  /\ String.length (OperationId.short_id sample_digest "GET" long_path "TaskViewSet") <= 64
  /\ OperationId.generate_operation_id sample_digest "GET" long_path "TaskViewSet"
     = "get_task_api_01234567"
  /\ map (fun r => (method r, operation_id r))
       (URLVisitor.routes
          (URLVisitor._add_route "x/" ["get"; "post"] (Some "v") None (URLVisitor.init "")))
     = [("get", Some "v"); ("post", Some "v_post")].
Proof.
  assert (H1 : 64 < String.length (OperationId.full_id "GET" long_path "TaskViewSet"))
    by (vm_compute; lia).
  assert (H2 : String.length
                 (OperationId.short_id sample_digest "GET" long_path "TaskViewSet") <= 64)
    by (vm_compute; lia).
  split; [exact H1 |]. split; [exact H2 |].
  destruct (operation_id_length_bound sample_digest "GET" long_path "TaskViewSet")
    as (_ & _ & H & _ & Hadd & _).
  split; [rewrite (H H1 H2); reflexivity |].
  rewrite Hadd; [reflexivity |]. cbn. apply not_elem_of_empty.
Defined.

(** ** Execution of target code *)

Lemma first_existing_checks_only (h : host) (ps : list string) :
  Forall (fun e => is_import e = false) (snd (first_existing h ps)).
Proof.
  induction ps as [|p ps IH]; simpl; [constructor |].
  destruct (exists_ h p); [repeat constructor |].
  destruct (first_existing h ps) as [r t]. constructor; [reflexivity | exact IH].
Qed.

(** A reference found on the file system is resolved by existence checks
    alone. *)
Lemma file_from_module_on_disk (h : host) (mod_ root candidate : string) :
  candidate_file mod_ root = Some candidate ->
  exists_ h candidate = true \/ is_Some (fst (_find_urls_in_app_dir h mod_ root)) ->
  Forall (fun e => is_import e = false) (snd (_file_from_module h mod_ root)).
Proof.
  intros Hc Hfound. unfold _file_from_module. rewrite Hc.
  destruct (exists_ h candidate); [repeat constructor |].
  destruct Hfound as [? | Hfound]; [discriminate |].
  unfold _find_urls_in_app_dir in *.
  match goal with |- context [first_existing h ?ps] =>
    pose proof (first_existing_checks_only h ps) as Hfe;
    destruct (first_existing h ps) as [[app_urls|] t] end; cbn [fst snd] in *.
  - constructor; [reflexivity | exact Hfe].
  - destruct Hfound as [? ?]. discriminate.
Qed.

(** The run-time variant [openapi_spec_creator.py] is no static analyser:
    its loader executes the target module. *)
Lemma flask_loader_executes_target :
  existsb is_exec
    (snd (load_flask_app (fun p => p) (fun _ => true)
            (fun _ => Members (Some tt)) "/app/main.py")) = true.
Proof. reflexivity. Qed.


(** * Further properties of the sources *)

(** ** Induction on syntax trees *)

Lemma ast_induction (P : ast -> Prop) :
  (forall body, Forall P body -> P (Module_ body)) ->
  (forall value, P value -> P (Expr value)) ->
  (forall targets value, Forall P targets -> P value -> P (Assign targets value)) ->
  (forall target value, P target -> P value -> P (AugAssign target value)) ->
  (forall name args body decorator_list returns,
     P args -> Forall P body -> Forall P decorator_list ->
     match returns with Some r => P r | None => True end ->
     P (FunctionDef name args body decorator_list returns)) ->
  (forall name bases keywords body decorator_list,
     Forall P bases -> Forall (fun kw => P (snd kw)) keywords ->
     Forall P body -> Forall P decorator_list ->
     P (ClassDef name bases keywords body decorator_list)) ->
  (forall func args keywords parent_func,
     P func -> Forall P args -> Forall (fun kw => P (snd kw)) keywords ->
     P (Call func args keywords parent_func)) ->
  (forall id, P (Name id)) ->
  (forall value attr, P value -> P (Attribute value attr)) ->
  (forall c, P (Constant c)) ->
  (forall elts, Forall P elts -> P (List_ elts)) ->
  (forall elts, Forall P elts -> P (Tuple elts)) ->
  (forall keys values,
     Forall (fun k => match k with Some n => P n | None => True end) keys ->
     Forall P values -> P (Dict keys values)) ->
  (forall children, Forall P children -> P (Other children)) ->
  forall node, P node.
Proof.
  intros HM HE HA HU HF HC HCall HN HAt HK HL HT HD HO.
  fix IH 1. intros node.
  assert (Hlist : forall l : list ast, Forall P l).
  { fix IHl 1. intros [|x l]; [constructor | constructor; [apply IH | apply IHl]]. }
  assert (Hkws : forall l : list (option string * ast), Forall (fun kw => P (snd kw)) l).
  { fix IHl 1. intros [|[a x] l]; [constructor | constructor; [apply IH | apply IHl]]. }
  assert (Hkeys : forall l : list (option ast),
            Forall (fun k => match k with Some n => P n | None => True end) l).
  { fix IHl 1. intros [|[x|] l]; [constructor | constructor; [apply IH | apply IHl]
                                  | constructor; [exact I | apply IHl]]. }
  destruct node as [body | value | targets value | target value
                   | name args body decos returns | name bases kws body decos
                   | func args kws pf | id | value attr | c | elts | elts
                   | keys values | children].
  - apply HM, Hlist.
  - apply HE, IH.
  - apply HA; [apply Hlist | apply IH].
  - apply HU; apply IH.
  - apply HF; [apply IH | apply Hlist | apply Hlist |].
    destruct returns; [apply IH | exact I].
  - apply HC; [apply Hlist | apply Hkws | apply Hlist | apply Hlist].
  - apply HCall; [apply IH | apply Hlist | apply Hkws].
  - apply HN.
  - apply HAt, IH.
  - apply HK.
  - apply HL, Hlist.
  - apply HT, Hlist.
  - apply HD; [apply Hkeys | apply Hlist].
  - apply HO, Hlist.
Qed.

Lemma foldl_preserves {A S : Type} (P : S -> Prop) (f : S -> A -> S) (l : list A) :
  Forall (fun x => forall s, P s -> P (f s x)) l ->
  forall s, P s -> P (foldl f s l).
Proof. induction 1 as [|x l Hx _ IH]; simpl; auto. Qed.

(** ** Invariants of the URL visitor *)

(** Whatever the three handlers of the visitor preserve, the traversal of
    a whole tree preserves. *)
Lemma visit_preserves (P : URLVisitor.t -> Prop) :
  (forall targets value v, P v -> P (URLVisitor.visit_Assign_own targets value v)) ->
  (forall target value v, P v -> P (URLVisitor.visit_AugAssign_own target value v)) ->
  (forall func args keywords pf v,
     P v -> P (URLVisitor.visit_Call_own func args keywords pf v)) ->
  forall node v, P v -> P (URLVisitor.visit node v).
Proof.
  intros HA HU HC.
  induction node using ast_induction; intros v Hv; cbn [URLVisitor.visit];
    try (apply (foldl_preserves P); assumption); auto.
  - apply IHnode. apply (foldl_preserves P); auto.
  - destruct returns as [r|].
    + apply H1. repeat (apply (foldl_preserves P); [assumption |]). auto.
    + repeat (apply (foldl_preserves P); [assumption |]). auto.
  - repeat (apply (foldl_preserves P); [assumption |]). exact Hv.
  - repeat (apply (foldl_preserves P); [assumption |]). auto.
  - apply (foldl_preserves P); [assumption |].
    apply (foldl_preserves P); [| exact Hv].
    eapply Forall_impl; [exact H |]. intros [n|] Hn s Hs; auto.
Qed.

Lemma add_route_prefix (raw : string) (methods : list string) (op_id desc : option string)
    (v : URLVisitor.t) :
  URLVisitor.prefix (URLVisitor._add_route raw methods op_id desc v) = URLVisitor.prefix v.
Proof.
  unfold URLVisitor._add_route. destruct (_django_to_openapi raw).
  destruct (bool_decide _); reflexivity.
Qed.

(** Case analysis on the scrutinee at the head of the argument of [Q]. *)
Ltac split_head Q :=
  repeat (cbv zeta;
          lazymatch goal with
          | |- Q (match ?x with _ => _ end) => destruct x
          end).

Section VisitorInvariant.

(** The handlers change a visitor state in four ways only; [P] is any
    property that these four keep, for a visitor with prefix [pre]. *)
Variables (pre : string) (P : URLVisitor.t -> Prop).

Hypothesis P_add_route : forall raw methods op_id desc v,
  URLVisitor.prefix v = pre -> P v ->
  P (URLVisitor._add_route (pre +:+ raw) methods op_id desc v).
Hypothesis P_add_include : forall mod_ raw v,
  Py.nonempty mod_ = true -> URLVisitor.prefix v = pre -> P v ->
  P (URLVisitor.add_include v (mod_, pre +:+ raw)).
Hypothesis P_set_routers : forall rs rb v,
  URLVisitor.routers v ⊆ rs -> URLVisitor.prefix v = pre -> P v ->
  P (URLVisitor.set_routers v rs rb).
Hypothesis P_store : forall func_name methods v,
  URLVisitor.prefix v = pre -> P v ->
  P (URLVisitor._store_api_view_methods func_name methods v).

Let Q (v : URLVisitor.t) : Prop := URLVisitor.prefix v = pre /\ P v.

Lemma Q_add_route raw methods op_id desc v :
  Q v -> Q (URLVisitor._add_route (URLVisitor.prefix v +:+ raw) methods op_id desc v).
Proof.
  intros [Hp Hv]. split; [rewrite add_route_prefix; exact Hp |].
  rewrite Hp. apply P_add_route; assumption.
Qed.

Lemma Q_add_include mod_ raw v :
  Py.nonempty mod_ = true ->
  Q v -> Q (URLVisitor.add_include v (mod_, URLVisitor.prefix v +:+ raw)).
Proof.
  intros Hm [Hp Hv]. split; [exact Hp |]. rewrite Hp. apply P_add_include; assumption.
Qed.

Lemma Q_set_routers rs rb v :
  URLVisitor.routers v ⊆ rs -> Q v -> Q (URLVisitor.set_routers v rs rb).
Proof. intros Hs [Hp Hv]. split; [exact Hp | apply P_set_routers; assumption]. Qed.

Lemma Q_store func_name methods v :
  Q v -> Q (URLVisitor._store_api_view_methods func_name methods v).
Proof. intros [Hp Hv]. split; [exact Hp | apply P_store; assumption]. Qed.

Ltac leaf :=
  first [ assumption
        | apply Q_add_route; assumption
        | apply Q_add_include; [reflexivity | assumption]
        | apply Q_set_routers; [reflexivity | assumption] ].

Lemma Q_handle_pattern_call (node : ast) (v : URLVisitor.t) :
  Q v -> Q (URLVisitor._handle_pattern_call node v).
Proof.
  intros Hv. unfold URLVisitor._handle_pattern_call.
  split_head Q; leaf.
Qed.

Lemma Q_consume_iterable (node : ast) (v : URLVisitor.t) :
  Q v -> Q (URLVisitor._consume_iterable node v).
Proof.
  intros Hv. unfold URLVisitor._consume_iterable.
  destruct node; try exact Hv;
    (apply (foldl_preserves Q); [| exact Hv]);
    apply Forall_forall; intros; apply Q_handle_pattern_call; assumption.
Qed.

Lemma Q_add_routes (m : string -> list string) (o d : string -> option string)
    (raw : string) (actions : list string) (v : URLVisitor.t) :
  Q v ->
  Q (foldl (fun v action => URLVisitor._add_route (pre +:+ raw) (m action) (o action)
                                                  (d action) v) v actions).
Proof.
  intros Hv. apply (foldl_preserves Q); [| exact Hv].
  apply Forall_forall. intros action _ s Hs.
  destruct Hs as [Hp Hs]. rewrite <- Hp at 1. apply Q_add_route. split; assumption.
Qed.

Lemma Q_register_routes (router_var : string) (args : list ast)
    (keywords : list (option string * ast)) (v : URLVisitor.t) :
  Q v -> Q (URLVisitor.register_routes router_var args keywords v).
Proof.
  intros Hv. unfold URLVisitor.register_routes.
  destruct args as [|arg0 [|arg1 args]]; try exact Hv.
  cbv zeta. destruct (_str arg0) as [res|]; [| exact Hv].
  apply (foldl_preserves Q); [| exact Hv].
  apply Forall_forall. intros base _ s Hs.
  pose proof Hs as [Hp _]. rewrite Hp.
  rewrite (append_assoc pre).
  apply Q_add_routes, Q_add_routes, Hs.
Qed.

Lemma Q_visit_Call_own func args keywords pf (v : URLVisitor.t) :
  Q v -> Q (URLVisitor.visit_Call_own func args keywords pf v).
Proof.
  intros Hv. unfold URLVisitor.visit_Call_own.
  set (v1 := match func, args with
             | Attribute (Name "urlpatterns") "extend", arg0 :: _ =>
                 URLVisitor._consume_iterable arg0 v
             | _, _ => v
             end).
  assert (H1 : Q v1).
  { subst v1. split_head Q; first [exact Hv | apply Q_consume_iterable; exact Hv]. }
  clearbody v1.
  set (v2 := match func with
             | Attribute (Name router_var) "register" =>
                 if bool_decide (router_var ∈ URLVisitor.routers v1)
                 then URLVisitor.register_routes router_var args keywords v1 else v1
             | _ => v1
             end).
  assert (H2 : Q v2).
  { subst v2. split_head Q; first [exact H1 | apply Q_register_routes; exact H1]. }
  clearbody v2.
  split_head Q; first [exact H2 | apply Q_store; exact H2].
Qed.

(** The same, with a condition on the one call that stores verbs instead
    of the fourth hypothesis. *)
Lemma Q_visit_Call_own_cases func args keywords pf (v : URLVisitor.t) :
  (forall arg0 rest func_name w,
     func = Name "api_view" -> args = arg0 :: rest -> pf = Some func_name ->
     Q w -> Q (URLVisitor._store_api_view_methods func_name (_str_list arg0) w)) ->
  Q v -> Q (URLVisitor.visit_Call_own func args keywords pf v).
Proof.
  intros Hstore Hv. unfold URLVisitor.visit_Call_own.
  set (v1 := match func, args with
             | Attribute (Name "urlpatterns") "extend", arg0 :: _ =>
                 URLVisitor._consume_iterable arg0 v
             | _, _ => v
             end).
  assert (H1 : Q v1).
  { subst v1. clear Hstore.
    split_head Q; first [exact Hv | apply Q_consume_iterable; exact Hv]. }
  clearbody v1.
  set (v2 := match func with
             | Attribute (Name router_var) "register" =>
                 if bool_decide (router_var ∈ URLVisitor.routers v1)
                 then URLVisitor.register_routes router_var args keywords v1 else v1
             | _ => v1
             end).
  assert (H2 : Q v2).
  { subst v2. clear Hstore.
    split_head Q; first [exact H1 | apply Q_register_routes; exact H1]. }
  clearbody v2.
  split_head Q;
    first [exact H2 | apply (Hstore _ _ _ _ eq_refl eq_refl eq_refl); exact H2].
Qed.

Lemma Q_visit_Assign_own targets value (v : URLVisitor.t) :
  Q v -> Q (URLVisitor.visit_Assign_own targets value v).
Proof.
  intros Hv. unfold URLVisitor.visit_Assign_own.
  set (v1 := match value with
             | Call (Name ctor) _ _ _ => _
             | _ => v
             end).
  assert (H1 : Q v1).
  { subst v1. destruct value; try exact Hv. destruct value; try exact Hv.
    destruct (Py.endswith _ _); [| exact Hv].
    apply (foldl_preserves Q); [| exact Hv].
    apply Forall_forall. intros target _ s Hs.
    destruct target; try exact Hs.
    apply Q_set_routers; [apply union_subseteq_r | exact Hs]. }
  clearbody v1.
  destruct (existsb _ _); [apply Q_consume_iterable; exact H1 | exact H1].
Qed.

Lemma Q_visit_AugAssign_own target value (v : URLVisitor.t) :
  Q v -> Q (URLVisitor.visit_AugAssign_own target value v).
Proof.
  intros Hv. unfold URLVisitor.visit_AugAssign_own.
  split_head Q; first [exact Hv | apply Q_consume_iterable; exact Hv].
Qed.

(** A property kept by the four changes is kept by the visit of any tree. *)
Lemma visitor_invariant (node : ast) (v : URLVisitor.t) :
  URLVisitor.prefix v = pre -> P v ->
  URLVisitor.prefix (URLVisitor.visit node v) = pre /\ P (URLVisitor.visit node v).
Proof.
  intros Hp Hv. apply (visit_preserves Q).
  - intros. apply Q_visit_Assign_own. assumption.
  - intros. apply Q_visit_AugAssign_own. assumption.
  - intros. apply Q_visit_Call_own. assumption.
  - split; assumption.
Qed.

(** ... and holds of the state in which [_walk] leaves the visitor of a
    file, when it holds of a new visitor. *)
Lemma visit_file_invariant (tree : ast) :
  P (URLVisitor.init pre) -> P (visit_file tree pre).
Proof.
  intros Hinit. unfold visit_file.
  apply visitor_invariant.
  - apply (map_fold_weak_ind (fun v _ => URLVisitor.prefix v = pre)); [reflexivity | auto].
  - apply (map_fold_weak_ind (fun v _ => Q v)); [split; [reflexivity | exact Hinit] |].
    intros i x m r _ Hr. apply Q_store. exact Hr.
Qed.

End VisitorInvariant.

Lemma add_route_extends (raw : string) (methods : list string) (op_id desc : option string)
    (v : URLVisitor.t) :
  extends v (URLVisitor._add_route raw methods op_id desc v).
Proof.
  unfold extends, URLVisitor._add_route. destruct (_django_to_openapi raw).
  destruct (bool_decide _); cbn; repeat split; try reflexivity.
  - apply prefix_app_r. reflexivity.
  - apply union_subseteq_r.
Qed.

Lemma extends_trans (v1 v2 v3 : URLVisitor.t) :
  extends v1 v2 -> extends v2 v3 -> extends v1 v3.
Proof.
  intros (Hp & Hr & Hi & Hs & Hrs) (Hp' & Hr' & Hi' & Hs' & Hrs').
  repeat split; try congruence; etrans; eassumption.
Qed.

Lemma extends_refl (v : URLVisitor.t) : extends v v.
Proof. repeat split; reflexivity. Qed.

Lemma extends_add_include (v0 v : URLVisitor.t) (inc : string * string) :
  extends v0 v -> extends v0 (URLVisitor.add_include v inc).
Proof.
  intros Hv. eapply extends_trans; [exact Hv |].
  repeat split; try reflexivity. cbn. apply prefix_app_r. reflexivity.
Qed.

Lemma extends_set_routers (v0 v : URLVisitor.t) (rs : gset string)
    (rb : gmap string (list string)) :
  URLVisitor.routers v ⊆ rs -> extends v0 v -> extends v0 (URLVisitor.set_routers v rs rb).
Proof.
  intros Hsub Hv. eapply extends_trans; [exact Hv |].
  repeat split; try reflexivity. exact Hsub.
Qed.

Lemma visit_extends (node : ast) (v : URLVisitor.t) :
  extends v (URLVisitor.visit node v).
Proof.
  destruct (visitor_invariant (URLVisitor.prefix v) (extends v)) with (node := node) (v := v)
    as [_ H]; try exact H; try reflexivity.
  - intros raw methods op_id desc v' _ Hv'.
    eapply extends_trans; [exact Hv' | apply add_route_extends].
  - intros mod_ raw v' _ _ Hv'. apply extends_add_include, Hv'.
  - intros rs rb v' Hsub _ Hv'. apply extends_set_routers; assumption.
  - intros func_name methods v' _ Hv'. eapply extends_trans; [exact Hv' |].
    repeat split; reflexivity.
  - apply extends_refl.
Qed.

Lemma handle_pattern_call_extends (node : ast) (v : URLVisitor.t) :
  extends v (URLVisitor._handle_pattern_call node v).
Proof.
  apply (Q_handle_pattern_call (URLVisitor.prefix v) (extends v)).
  - intros raw methods op_id desc v' _ Hv'.
    eapply extends_trans; [exact Hv' | apply add_route_extends].
  - intros mod_ raw v' _ _ Hv'. apply extends_add_include, Hv'.
  - intros rs rb v' Hsub _ Hv'. apply extends_set_routers; assumption.
  - split; [reflexivity | apply extends_refl].
Qed.

Lemma foldl_extends {A : Type} (step : URLVisitor.t -> A -> URLVisitor.t) (l : list A) :
  (forall v x, extends v (step v x)) -> forall v, extends v (foldl step v l).
Proof.
  intros Hstep. induction l as [|x l IH]; intros v; cbn [foldl]; [apply extends_refl |].
  eapply extends_trans; [apply Hstep | apply IH].
Qed.

(** X1: The visit of a tree only adds to the visitor: the prefix stays, the
    routes and include references recorded before stay at the front of the
    lists, and the sets of route keys and of router names grow. *)
Theorem visit_only_adds (node : ast) (v : URLVisitor.t) :
  extends v (URLVisitor.visit node v).
Proof. apply visit_extends. Qed.

Lemma findall_nomatch (m : Re.matcher) (c : ascii) (s : string) :
  m (String c s) = None -> Re.findall m (String c s) = Re.findall m s.
Proof. intros H. unfold Re.findall. simpl. rewrite H. reflexivity. Qed.

Lemma findall_lstrip_slash (s : string) :
  Re.findall Re.brace_group (Py.lstrip "/" s) = Re.findall Re.brace_group s.
Proof.
  induction s as [|c s IH]; [reflexivity |]. simpl.
  destruct (Ascii.eqb_spec c "/") as [-> | Hc]; simpl; [| reflexivity].
  rewrite IH. symmetry. apply findall_nomatch. reflexivity.
Qed.

Lemma translated_route_ok (raw : string) :
  one_leading_slash (fst (_django_to_openapi raw))
  /\ snd (_django_to_openapi raw)
     = map path_param (Re.findall Re.brace_group (fst (_django_to_openapi raw))).
Proof.
  unfold _django_to_openapi. cbn [fst snd]. split.
  - eexists. split; [reflexivity | apply (lstrip_no_leading "/")].
  - change ("/" +:+ ?x) with (String "/" x).
    rewrite findall_nomatch by reflexivity.
    rewrite findall_lstrip_slash. reflexivity.
Qed.

Lemma add_route_ok (raw : string) (methods : list string) (op_id desc : option string)
    (v : URLVisitor.t) :
  Forall route_ok (URLVisitor.routes v) ->
  Forall route_ok (URLVisitor.routes (URLVisitor._add_route raw methods op_id desc v)).
Proof.
  intros Hv. unfold URLVisitor._add_route.
  pose proof (translated_route_ok raw) as [Hslash Hparams].
  destruct (_django_to_openapi raw) as [p params]. cbn [fst snd] in *.
  destruct (bool_decide _); [exact Hv |]. cbn.
  apply Forall_app. split; [exact Hv |].
  apply Forall_forall. intros r [m [-> _]]%list_elem_of_fmap. split; assumption.
Qed.

Lemma visit_file_routes_ok (tree : ast) (prefix : string) :
  Forall route_ok (URLVisitor.routes (visit_file tree prefix)).
Proof.
  apply (visit_file_invariant prefix (fun v => Forall route_ok (URLVisitor.routes v)));
    try (intros; assumption); [| constructor].
  intros. apply add_route_ok. assumption.
Qed.

(** What holds of the routes of every visited file holds of the routes of
    a walk. *)
Lemma walk_includes_routes_all (R : route -> Prop)
    (rec : string -> string -> walk_state -> walk_outcome)
    (h : host) (root : string) (incs : list (string * string)) :
  (forall f p st rs st', rec f p st = Some (Ok rs, st') -> Forall R rs) ->
  forall routes st rs st',
    Forall R routes ->
    walk_includes rec h root incs routes st = Some (Ok rs, st') -> Forall R rs.
Proof.
  intros Hrec. induction incs as [|[mod_ pref] incs IH]; intros routes st rs st' Hroutes;
    cbn [walk_includes]; [intros [= <- <-]; exact Hroutes |].
  destruct (_file_from_module h mod_ root) as [[[sub|]|] t]; [| apply IH; exact Hroutes
                                                               | discriminate].
  destruct (rec sub pref (emit t st)) as [[[rs1|] s1]|] eqn:E; [| discriminate ..].
  apply IH. apply Forall_app. split; [exact Hroutes | eapply Hrec; exact E].
Qed.

Lemma walk_routes_all (R : route -> Prop) (h : host) (root : string) (fuel : nat) :
  (forall tree prefix, Forall R (URLVisitor.routes (visit_file tree prefix))) ->
  forall f p st rs st',
    _walk fuel h f root p st = Some (Ok rs, st') -> Forall R rs.
Proof.
  intros Hfile. induction fuel as [|fuel IH]; intros f p st rs st'; [discriminate |].
  cbn [_walk].
  destruct (bool_decide _); [intros [= <- <-]; constructor |].
  destruct (negb _); [intros [= <- <-]; constructor |].
  destruct (fs h !! _) as [[tree|]|]; try (intros [= <- <-]; constructor).
  apply (walk_includes_routes_all R); [exact IH | apply Hfile].
Qed.

(** X2: Every route that a walk returns has a path with exactly one leading
    slash and a parameter list that names the placeholders of the path,
    in their order. *)
Theorem walk_routes_well_formed (h : host) (urls_file root : string) :
  Forall route_ok (default [] (routes_of (walk h urls_file root))).
Proof.
  unfold walk. destruct (_walk _ h urls_file root "" fresh_state) as [[[rs|] st]|] eqn:E;
    cbn; try constructor.
  eapply (walk_routes_all route_ok); [apply visit_file_routes_ok | exact E].
Qed.

Lemma visit_file_keeps_prefix (tree : ast) (prefix : string) :
  URLVisitor.prefix (visit_file tree prefix) = prefix
  /\ under_prefix (visit_file tree prefix).
Proof.
  pose proof (visit_file_invariant prefix
    (fun v => URLVisitor.prefix v = prefix /\ under_prefix v)) as H.
  apply H; clear H.
  - intros raw methods op_id desc v Hp [_ [Hinc Hroutes]].
    split; [rewrite add_route_prefix; exact Hp |]. unfold under_prefix.
    rewrite add_route_prefix. unfold URLVisitor._add_route.
    destruct (_django_to_openapi (prefix +:+ raw)) as [op params] eqn:E.
    destruct (bool_decide _); [split; assumption |]. cbn. split; [exact Hinc |].
    apply Forall_app. split; [exact Hroutes |].
    apply Forall_forall. intros r [m [-> _]]%list_elem_of_fmap.
    exists raw. change (op = fst (_django_to_openapi (URLVisitor.prefix v +:+ raw))).
    rewrite Hp, E. reflexivity.
  - intros mod_ raw v Hm Hp [_ [Hinc Hroutes]]. split; [exact Hp |].
    split; [| exact Hroutes]. cbn. apply Forall_app. split; [exact Hinc |].
    repeat constructor; [exact Hm |]. cbn. rewrite Hp. apply startswith_app.
  - intros rs rb v _ Hp [_ Hv]. split; [exact Hp | exact Hv].
  - intros func_name methods v Hp [_ Hv]. split; [exact Hp | exact Hv].
  - split; [reflexivity |]. split; constructor.
Qed.

(** X3: Everything that the visitor of a file records lies under the prefix
    of the file: the prefix of an include reference extends it, the module
    of an include reference is named, and every route path is the
    translation of a raw path that extends it. *)
Theorem visit_file_under_prefix (tree : ast) (prefix : string) :
  URLVisitor.prefix (visit_file tree prefix) = prefix
  /\ under_prefix (visit_file tree prefix).
Proof. apply visit_file_keeps_prefix. Qed.


(** ** Sorting and permutations *)

Lemma sorted_perm_unique {A : Type} (R : A -> A -> Prop) (l1 l2 : list A) :
  (forall x y, x ∈ l1 -> y ∈ l1 -> R x y -> R y x -> x = y) ->
  StronglySorted R l1 -> StronglySorted R l2 -> Permutation l1 l2 -> l1 = l2.
Proof.
  revert l2. induction l1 as [|x l1 IH]; intros l2 Hanti H1 H2 Hperm.
  - apply Permutation_nil in Hperm. congruence.
  - destruct l2 as [|y l2]; [apply Permutation_sym, Permutation_nil in Hperm; discriminate |].
    apply StronglySorted_inv in H1 as [H1 Hx]. apply StronglySorted_inv in H2 as [H2 Hy].
    assert (Hxy : x = y).
    { assert (Hin1 : x ∈ y :: l2) by (rewrite <- Hperm; apply list_elem_of_here).
      assert (Hin2 : y ∈ x :: l1) by (rewrite Hperm; apply list_elem_of_here).
      apply elem_of_cons in Hin1 as [? | Hin1]; [assumption |].
      apply elem_of_cons in Hin2 as [? | Hin2]; [congruence |].
      apply Hanti.
      - apply list_elem_of_here.
      - apply list_elem_of_further. exact Hin2.
      - rewrite Forall_forall in Hx. apply Hx. exact Hin2.
      - rewrite Forall_forall in Hy. apply Hy. exact Hin1. }
    subst y. f_equal. apply IH; try assumption.
    + intros a b Ha Hb. apply Hanti; apply list_elem_of_further; assumption.
    + eapply Permutation_cons_inv. exact Hperm.
Qed.

Lemma sort_strings_perm (l l' : list string) :
  Permutation l l' -> list_sort String.leb id l = list_sort String.leb id l'.
Proof.
  intros Hperm. apply (sorted_perm_unique (key_le String.leb id)).
  - intros x y _ _. apply String.leb_antisym.
  - apply list_sort_sorted; [apply String.leb_total | apply string_leb_trans].
  - apply list_sort_sorted; [apply String.leb_total | apply string_leb_trans].
  - rewrite <- !list_sort_perm. exact Hperm.
Qed.

(** X4: [_add_route] ignores a second registration of a path with the same
    set of methods, in any order and whatever its identifier and
    description are. *)
Theorem add_route_twice (raw : string) (methods methods' : list string)
    (op_id desc op_id' desc' : option string) (v : URLVisitor.t) :
  Permutation methods methods' ->
  URLVisitor._add_route raw methods' op_id' desc'
    (URLVisitor._add_route raw methods op_id desc v)
  = URLVisitor._add_route raw methods op_id desc v.
Proof.
  intros Hperm. unfold URLVisitor._add_route.
  destruct (_django_to_openapi raw) as [p params].
  rewrite <- (sort_strings_perm _ _ Hperm).
  set (key := p +:+ ":" +:+ Py.join "," (list_sort String.leb id methods)).
  destruct (bool_decide (key ∈ URLVisitor.route_patterns v)) eqn:Hin.
  - rewrite Hin. reflexivity.
  - cbn. rewrite bool_decide_eq_true_2; [reflexivity |].
    apply elem_of_union_l, elem_of_singleton. reflexivity.
Qed.

Lemma add_route_twice_witness :
  Permutation ["get"; "post"] ["post"; "get"]
  /\ URLVisitor.routes
       (URLVisitor._add_route "x/" ["post"; "get"] (Some "w") None
          (URLVisitor._add_route "x/" ["get"; "post"] (Some "v") None (URLVisitor.init "")))
     = URLVisitor.routes
         (URLVisitor._add_route "x/" ["get"; "post"] (Some "v") None (URLVisitor.init "")).
Proof.
  assert (H : Permutation ["get"; "post"] ["post"; "get"]) by apply perm_swap.
  split; [exact H |].
  rewrite (add_route_twice "x/" _ _ (Some "v") None (Some "w") None (URLVisitor.init "") H).
  reflexivity.
Defined.

(** ** The spec assembler, continued *)

Lemma unique_from_elem (r : route) (l : list route) (seen_routes : gset string) :
  r ∈ unique_from seen_routes l -> r ∈ l /\ dedupe_key r ∉ seen_routes.
Proof.
  revert seen_routes. induction l as [|x l IH]; intros seen_routes; cbn [unique_from].
  - intros H. apply elem_of_nil in H. destruct H.
  - case_bool_decide as Hin.
    + intros [H1 H2]%IH. split; [apply list_elem_of_further | ]; assumption.
    + intros [-> | H]%elem_of_cons.
      * split; [apply list_elem_of_here | exact Hin].
      * apply IH in H as [H1 H2]. split; [apply list_elem_of_further; exact H1 |].
        intros H3. apply H2, elem_of_union_r, H3.
Qed.

Lemma unique_from_nodup (l : list route) (seen_routes : gset string) :
  NoDup (map dedupe_key (unique_from seen_routes l)).
Proof.
  revert seen_routes. induction l as [|x l IH]; intros seen_routes; cbn [unique_from].
  - constructor.
  - case_bool_decide as Hin; [apply IH |]. cbn. constructor; [| apply IH].
    intros [r [Hr Hin']]%list_elem_of_fmap. apply unique_from_elem in Hin' as [_ Hnot].
    apply Hnot, elem_of_union_l, elem_of_singleton. congruence.
Qed.

Lemma unique_from_id (l : list route) (seen_routes : gset string) :
  NoDup (map dedupe_key l) ->
  (forall r, r ∈ l -> dedupe_key r ∉ seen_routes) ->
  unique_from seen_routes l = l.
Proof.
  revert seen_routes. induction l as [|x l IH]; intros seen_routes Hnd Hnew; [reflexivity |].
  cbn [unique_from]. apply NoDup_cons in Hnd as [Hx Hnd].
  rewrite bool_decide_eq_false_2 by (apply Hnew, list_elem_of_here).
  f_equal. apply IH; [exact Hnd |].
  intros r Hr [Heq%elem_of_singleton | Hs]%elem_of_union.
  - apply Hx. apply list_elem_of_fmap. exists r. split; [symmetry; exact Heq | exact Hr].
  - apply (Hnew r); [apply list_elem_of_further; exact Hr | exact Hs].
Qed.

(** X5: The deduplication loop of [_build_spec] returns records of the list
    with pairwise different keys, changes nothing in a list whose keys are
    pairwise different, and so does nothing when it is run again on its
    own result. *)
Theorem dedupe_loop_idempotent (routes : list route) :
  NoDup (map dedupe_key (unique_from ∅ routes))
  /\ (forall r, r ∈ unique_from ∅ routes -> r ∈ routes)
  /\ (unique_from ∅ routes = routes <-> NoDup (map dedupe_key routes))
  /\ unique_from ∅ (unique_from ∅ routes) = unique_from ∅ routes.
Proof.
  split; [apply unique_from_nodup |]. split; [| split].
  - intros r Hr. apply unique_from_elem in Hr. tauto.
  - split.
    + intros <-. apply unique_from_nodup.
    + intros Hnd. apply unique_from_id; [exact Hnd |]. intros. apply not_elem_of_empty.
  - apply unique_from_id; [apply unique_from_nodup |]. intros. apply not_elem_of_empty.
Qed.

(** X6: Every operation of the assembled document is the operation of a
    record of the route list with that path and that method. *)
Theorem build_spec_operations_come_from_routes (routes : list route) (p m : string)
    (op : operation) :
  doc_operation (fst (_build_spec routes)) p m = Some op ->
  exists r, r ∈ routes /\ path r = p /\ method r = m /\ op = operation_of r.
Proof.
  unfold doc_operation, _build_spec. cbn [fst paths]. rewrite paths_fold_lookup.
  destruct (last _) as [r|] eqn:E; [| rewrite lookup_empty; discriminate].
  intros [= <-]. apply last_Some_elem_of in E.
  apply list_elem_of_filter in E as [Hk Hr].
  apply unique_from_elem in Hr as [Hr _].
  exists r. injection Hk as <- <-. repeat split.
  rewrite (list_sort_perm key_leb sort_key routes). exact Hr.
Qed.

Lemma build_spec_operations_come_from_routes_witness :
  doc_operation (fst (_build_spec duplicate_routes)) "/" "post"
    = Some (operation_of post_root)
  /\ exists r, r ∈ duplicate_routes /\ path r = "/" /\ method r = "post"
               /\ operation_of post_root = operation_of r.
Proof.
  assert (H : doc_operation (fst (_build_spec duplicate_routes)) "/" "post"
              = Some (operation_of post_root)) by (vm_compute; reflexivity).
  split; [exact H |].
  exact (build_spec_operations_come_from_routes duplicate_routes "/" "post" _ H).
Defined.

(** X7: For a route list without two records of the same path and method, the
    order of the list does not matter: every permutation of it is
    assembled into the same document. *)
Theorem build_spec_order_independent (routes routes' : list route) :
  NoDup (map sort_key routes) ->
  Permutation routes routes' ->
  fst (_build_spec routes) = fst (_build_spec routes').
Proof.
  intros Hnd Hperm. unfold _build_spec. cbn [fst].
  assert (Hsort : list_sort key_leb sort_key routes = list_sort key_leb sort_key routes').
  { apply (sorted_perm_unique (key_le key_leb sort_key)).
    - intros x y Hx Hy Hxy Hyx.
      assert (Hk : sort_key x = sort_key y).
      { unfold key_le in *. apply key_leb_spec in Hxy, Hyx.
        destruct (sort_key x) as [p1 m1], (sort_key y) as [p2 m2]. cbn in *.
        destruct Hxy as [[H1 N1] | [E1 H1]], Hyx as [[H2 N2] | [E2 H2]];
          try congruence.
        - exfalso. apply N1, String.leb_antisym; assumption.
        - f_equal; [exact E1 | apply String.leb_antisym; assumption]. }
      rewrite <- (list_sort_perm key_leb sort_key routes) in Hx, Hy.
      apply list_elem_of_lookup in Hx as [i Hi]. apply list_elem_of_lookup in Hy as [j Hj].
      assert (i = j).
      { eapply NoDup_lookup; [exact Hnd | ..]; rewrite list_lookup_fmap.
        - rewrite Hi. reflexivity.
        - rewrite Hj, Hk. reflexivity. }
      congruence.
    - apply list_sort_sorted; [exact key_leb_total | exact key_leb_trans].
    - apply list_sort_sorted; [exact key_leb_total | exact key_leb_trans].
    - rewrite <- !list_sort_perm. exact Hperm. }
  rewrite Hsort. reflexivity.
Qed.

Lemma build_spec_order_independent_witness :
  NoDup (map sort_key [first_get_a; post_root])
  /\ Permutation [first_get_a; post_root] [post_root; first_get_a]
  /\ fst (_build_spec [first_get_a; post_root]) = fst (_build_spec [post_root; first_get_a]).
Proof.
  assert (H1 : NoDup (map sort_key [first_get_a; post_root])).
  { apply NoDup_cons. split; [| apply NoDup_singleton].
    intros H%list_elem_of_singleton. discriminate. }
  assert (H2 : Permutation [first_get_a; post_root] [post_root; first_get_a])
    by apply perm_swap.
  split; [exact H1 |]. split; [exact H2 |].
  exact (build_spec_order_independent _ _ H1 H2).
Defined.

(** ** Path translation, continued *)

Lemma findall_from_skip (m : Re.matcher) (u s : string) :
  Re.findall_from m (u +:+ s) (String.length u) = Re.findall_from m s 0.
Proof.
  induction u as [|c u IH]; str_simpl; [destruct s; reflexivity | exact IH].
Qed.

Lemma findall_match (m : Re.matcher) (c : ascii) (u s g : string) :
  m (String c (u +:+ s)) = Some (g, S (String.length u)) ->
  Re.findall m (String c (u +:+ s)) = g :: Re.findall m s.
Proof.
  intros H. unfold Re.findall. simpl. rewrite H. simpl.
  rewrite Nat.sub_0_r, findall_from_skip. reflexivity.
Qed.

Lemma findall_text (m : Re.matcher) (open : ascii) (t s : string) :
  (forall c s', c <> open -> m (String c s') = None) ->
  Py.char_in open t = false ->
  Re.findall m (t +:+ s) = Re.findall m s.
Proof.
  intros Hm. induction t as [|c t IH]; str_simpl; intros Ht; [reflexivity |].
  apply orb_false_iff in Ht as [Hc Ht].
  rewrite findall_nomatch; [apply IH; exact Ht |].
  apply Hm. intros ->. rewrite Ascii.eqb_refl in Hc. discriminate.
Qed.

Lemma brace_group_needs_brace (c : ascii) (s : string) :
  c <> "{"%char -> Re.brace_group (String c s) = None.
Proof.
  intros Hc. unfold Re.brace_group.
  destruct c as [[] [] [] [] [] [] [] []]; try reflexivity. congruence.
Qed.

Lemma brace_group_at (n s : string) :
  Py.nonempty n = true -> Py.char_in "}" n = false ->
  Re.brace_group (String "{" ((n +:+ "}") +:+ s))
  = Some (n, S (String.length (n +:+ "}"))).
Proof.
  intros Hne Hn. unfold Re.brace_group. rewrite append_assoc. str_simpl.
  rewrite run_then_run by assumption.
  rewrite append_length. simpl. do 2 f_equal. lia.
Qed.

Lemma findall_openapi_segments (segs : list segment) :
  Forall wf_segment segs -> Forall braceless segs ->
  Re.findall Re.brace_group (concat_str (map openapi_segment segs))
  = placeholder_names segs.
Proof.
  intros Hwf Hbr. induction Hwf as [|seg segs Hseg _ IH]; [reflexivity |].
  apply Forall_cons in Hbr as [Hb Hbr]. specialize (IH Hbr).
  cbn [map concat_str]. destruct seg as [text | conv name].
  - cbn [openapi_segment]. cbn in Hb.
    rewrite (findall_text _ "{"%char) by (auto using brace_group_needs_brace).
    exact IH.
  - destruct Hseg as (Hne & _). destruct Hb as [_ Hb].
    change (openapi_segment (Placeholder conv name) +:+ ?r)
      with (String "{" ((name +:+ "}") +:+ r)).
    rewrite (findall_match _ _ _ _ name) by (apply brace_group_at; assumption).
    cbn. rewrite IH. reflexivity.
Qed.

(** X8: The parameter list that [_django_to_openapi] returns for a route of
    literal text and well-formed placeholders, none holding a brace, names
    the placeholders of the route, each once and in their order. *)
Theorem translation_recovers_parameters (segs : list segment) :
  Forall wf_segment segs -> Forall braceless segs ->
  snd (_django_to_openapi (concat_str (map raw_segment segs)))
  = map path_param (placeholder_names segs).
Proof.
  intros Hwf Hbr. unfold _django_to_openapi. cbn [snd].
  rewrite slug_sub_segments, angle_sub_segments by exact Hwf.
  rewrite findall_openapi_segments by assumption. reflexivity.
Qed.

Lemma translation_recovers_parameters_witness :
  Forall wf_segment sample_segments /\ Forall braceless sample_segments
  /\ map p_name (snd (_django_to_openapi "<int:id>/<slug:tag>/<pk>")) = ["id"; "tag"; "pk"].
Proof.
  assert (Hwf : Forall wf_segment sample_segments) by (repeat constructor).
  assert (Hbr : Forall braceless sample_segments) by (repeat constructor).
  split; [exact Hwf |]. split; [exact Hbr |].
  change "<int:id>/<slug:tag>/<pk>" with (concat_str (map raw_segment sample_segments)).
  rewrite (translation_recovers_parameters sample_segments Hwf Hbr). reflexivity.
Defined.

(** ** The module resolver *)

Lemma first_existing_sound (h : host) (ps : list string) (p : string) :
  fst (first_existing h ps) = Some p -> p ∈ ps /\ exists_ h p = true.
Proof.
  induction ps as [|q ps IH]; cbn [first_existing]; [discriminate |].
  destruct (exists_ h q) eqn:E.
  - intros [= <-]. split; [apply list_elem_of_here | exact E].
  - destruct (first_existing h ps) as [r t]. cbn [fst] in *.
    intros H. apply IH in H as [H1 H2]. split; [apply list_elem_of_further; exact H1 | exact H2].
Qed.

(** X9: A file that [_file_from_module] returns exists, unless it is the
    origin of a module spec ending in [.py]; the direct translation of the
    dotted path wins when this file exists; and when the direct
    translation has no file name, as for [include("/")], the [ValueError]
    of [with_suffix] escapes. *)
Theorem file_from_module_sound (h : host) (mod_ root : string) :
  (forall p, fst (_file_from_module h mod_ root) = Ok (Some p) ->
     exists_ h p = true
     \/ (find_spec h mod_ = SpecOrigin (Some p) /\ Py.endswith p ".py" = true))
  /\ (forall candidate,
        candidate_file mod_ root = Some candidate -> exists_ h candidate = true ->
        fst (_file_from_module h mod_ root) = Ok (Some candidate))
  /\ (candidate_file mod_ root = None -> fst (_file_from_module h mod_ root) = Raised).
Proof.
  unfold _file_from_module.
  destruct (candidate_file mod_ root) as [c|];
    [| split; [discriminate | split; [discriminate | reflexivity]]].
  destruct (exists_ h c) eqn:Hc.
  - split; [| split]; [| intros ? [= <-] _; reflexivity | discriminate].
    intros p [= <-]. left. exact Hc.
  - pose proof (first_existing_sound h) as Hfe.
    unfold _find_urls_in_app_dir.
    match goal with |- context [first_existing h ?ps] =>
      specialize (Hfe ps); destruct (first_existing h ps) as [[app_urls|] t] end;
      cbn [fst] in *.
    + split; [| split]; [| intros ? [= <-]; congruence | discriminate].
      intros p [= <-]. left. apply (Hfe app_urls eq_refl).
    + split; [| split]; [| intros ? [= <-]; congruence | discriminate].
      unfold importlib_find_spec.
      destruct (Py.startswith mod_ "."); [discriminate |].
      destruct (find_spec h mod_) as [[origin|]| |]; cbn [fst]; try discriminate.
      destruct (Py.endswith origin ".py") eqn:E; cbn [fst]; [| discriminate].
      intros p [= <-]. right. split; [reflexivity | exact E].
Qed.

Lemma file_from_module_sound_witness :
  fst (_file_from_module cycle_host "b" "/p") = Ok (Some "/p/b.py")
  /\ exists_ cycle_host "/p/b.py" = true
  /\ candidate_file "/" "/p" = None
  /\ fst (_file_from_module cycle_host "/" "/p") = Raised.
Proof.
  assert (H : fst (_file_from_module cycle_host "b" "/p") = Ok (Some "/p/b.py"))
    by (vm_compute; reflexivity).
  split; [exact H |]. split.
  - destruct (proj1 (file_from_module_sound cycle_host "b" "/p") _ H) as [He | [Hs _]];
      [exact He | discriminate Hs].
  - split; [reflexivity |].
    apply (proj2 (proj2 (file_from_module_sound cycle_host "/" "/p"))). reflexivity.
Defined.

(** ** The recursive walk, continued *)

Lemma reads_app (t1 t2 : list event) : reads (t1 ++ t2) = reads t1 ++ reads t2.
Proof. apply omap_app. Qed.

Lemma first_existing_reads (h : host) (ps : list string) :
  reads (snd (first_existing h ps)) = [].
Proof.
  induction ps as [|p ps IH]; cbn [first_existing]; [reflexivity |].
  destruct (exists_ h p); [reflexivity |].
  destruct (first_existing h ps) as [r t]. exact IH.
Qed.

Lemma find_spec_reads (h : host) (name : string) :
  reads (snd (importlib_find_spec h name)) = [].
Proof.
  unfold importlib_find_spec. destruct (Py.startswith name "."); [reflexivity |].
  cbn [snd]. destruct (bool_decide _); [reflexivity |].
  destruct (Py.nonempty _); reflexivity.
Qed.

Lemma file_from_module_reads (h : host) (mod_ root : string) :
  reads (snd (_file_from_module h mod_ root)) = [].
Proof.
  unfold _file_from_module.
  destruct (candidate_file mod_ root) as [candidate|]; [| reflexivity].
  destruct (exists_ h _); [reflexivity |].
  unfold _find_urls_in_app_dir.
  match goal with |- context [first_existing h ?ps] =>
    pose proof (first_existing_reads h ps) as Hfe;
    destruct (first_existing h ps) as [[app_urls|] t] end; cbn [snd] in *.
  - exact Hfe.
  - pose proof (find_spec_reads h mod_) as Hfs.
    destruct (importlib_find_spec h mod_) as [spec lookup]. cbn [snd] in Hfs.
    assert (Ht : reads (EvExists candidate :: t ++ lookup) = []).
    { change (reads (t ++ lookup) = []). rewrite reads_app, Hfe, Hfs. reflexivity. }
    destruct spec as [[origin|]| |]; try exact Ht.
    destruct (Py.endswith origin ".py"); exact Ht.
Qed.

Section WalkStateInvariant.

Variables (h : host) (root : string) (I : walk_state -> Prop).
Hypothesis I_emit : forall st t, reads t = [] -> I st -> I (emit t st).
Hypothesis I_read : forall st f,
  I st -> f ∉ seen st -> exists_ h f = true ->
  I {| seen := {[f]} ∪ seen st; trace := trace st ++ [EvExists f; EvReadText f] |}.

Lemma walk_includes_state_invariant
    (rec : string -> string -> walk_state -> walk_outcome)
    (incs : list (string * string)) :
  (forall f p st r st', I st -> rec f p st = Some (r, st') -> I st') ->
  forall routes st r st',
    I st -> walk_includes rec h root incs routes st = Some (r, st') -> I st'.
Proof.
  intros Hrec. induction incs as [|[mod_ pref] incs IH]; intros routes st r st' Hst;
    cbn [walk_includes]; [intros [= <- <-]; exact Hst |].
  pose proof (file_from_module_reads h mod_ root) as Hres.
  destruct (_file_from_module h mod_ root) as [[[sub|]|] t]; cbn [snd] in Hres.
  - destruct (rec sub pref (emit t st)) as [[[rs|] s1]|] eqn:E; [| | discriminate].
    + apply IH. eapply Hrec; [| exact E]. apply I_emit; assumption.
    + intros [= <- <-]. eapply Hrec; [| exact E]. apply I_emit; assumption.
  - apply IH. apply I_emit; [reflexivity |]. apply I_emit; assumption.
  - intros [= <- <-]. apply I_emit; assumption.
Qed.

Lemma walk_state_invariant (fuel : nat) :
  forall f p st r st', I st -> _walk fuel h f root p st = Some (r, st') -> I st'.
Proof.
  induction fuel as [|fuel IH]; intros f p st r st' Hst; [discriminate |].
  cbn [_walk].
  destruct (bool_decide _) eqn:Hseen; [intros [= <- <-]; exact Hst |].
  apply bool_decide_eq_false in Hseen.
  destruct (exists_ h (resolve h f)) eqn:Hex; cbn [negb];
    [| intros [= <- <-]; apply I_emit; [reflexivity | exact Hst]].
  pose proof (I_read st (resolve h f) Hst Hseen Hex) as Hst1.
  destruct (fs h !! _) as [[tree|]|].
  - apply walk_includes_state_invariant; [exact IH | exact Hst1].
  - intros [= <- <-]. apply (I_emit _ [_]); [reflexivity | exact Hst1].
  - intros [= <- <-]. apply (I_emit _ [_]); [reflexivity | exact Hst1].
Qed.

End WalkStateInvariant.

(** X10: The walk parses no URLconf twice: when it returns, with a route
    list or with an exception, its [read_text] calls were on pairwise
    distinct files, these files are exactly the members of its visited set,
    and each of them exists.  (What the import system reads when the
    resolver falls back on a spec lookup is not a [read_text] of the walk
    and is not counted.) *)
Theorem walk_reads_each_file_once (h : host) (urls_file root : string)
    (r : result (list route)) (st : walk_state) :
  walk h urls_file root = Some (r, st) -> reads_once h st.
Proof.
  apply (walk_state_invariant h root (reads_once h)).
  - intros st0 t Ht (Hnd & Hseen & Hex). unfold reads_once. cbn [emit trace seen].
    rewrite reads_app, Ht, app_nil_r. auto.
  - intros st0 f (Hnd & Hseen & Hex) Hnew Hf. unfold reads_once. cbn [trace seen].
    rewrite reads_app. change (reads [EvExists f; EvReadText f]) with [f].
    split; [| split].
    + apply NoDup_app. split; [exact Hnd |]. split; [| apply NoDup_singleton].
      intros p Hp ->%list_elem_of_singleton. apply Hnew, Hseen, Hp.
    + intros p. rewrite elem_of_app, list_elem_of_singleton, elem_of_union,
        elem_of_singleton, Hseen. tauto.
    + intros p [->%elem_of_singleton | Hp]%elem_of_union; auto.
  - split; [constructor |]. split; [| intros p Hp; cbn in Hp; set_solver].
    intros p. cbn. set_solver.
Qed.

Lemma walk_reads_each_file_once_witness :
  reads (trace (default fresh_state (snd <$> walk cycle_host "/p/a.py" "/p")))
  = ["/p/a.py"; "/p/b.py"]
  /\ reads_once cycle_host
       (default fresh_state (snd <$> walk cycle_host "/p/a.py" "/p")).
Proof.
  split; [vm_compute; reflexivity |].
  destruct (walk cycle_host "/p/a.py" "/p") as [[r st]|] eqn:E; [| vm_compute in E; discriminate].
  exact (walk_reads_each_file_once cycle_host "/p/a.py" "/p" r st E).
Defined.


Lemma walk_diamond_fuel (h : host) (root a b : string) (treeA treeB : ast)
    (pref1 : string) (fuel : nat) :
  include_diamond h root a b treeA treeB pref1 ->
  exists st,
    _walk (2 + fuel) h a root "" fresh_state
    = Some (Ok (URLVisitor.routes (visit_file treeA "")
                ++ URLVisitor.routes (visit_file treeB pref1)), st)
    /\ reads (trace st) = [a; b].
Proof.
  intros [Ha Hb Hne HfA HfB (mod1 & mod2 & pref2 & HincA & (b1 & Hb1 & Hrb1) & (b2 & Hb2 & Hrb2))
            HincB].
  cbn [Nat.add _walk]. rewrite Ha.
  rewrite bool_decide_eq_false_2 by (cbn; set_solver).
  unfold exists_ at 1. rewrite Ha, HfA.
  rewrite bool_decide_eq_true_2 by eauto. cbn [negb].
  rewrite HincA. cbn [walk_includes].
  pose proof (file_from_module_reads h mod1 root) as Hr1.
  pose proof (file_from_module_reads h mod2 root) as Hr2.
  destruct (_file_from_module h mod1 root) as [r1 t1]. cbn [fst snd] in Hb1, Hr1. subst r1.
  rewrite Hrb1. rewrite bool_decide_eq_false_2 by (cbn; set_solver).
  unfold exists_ at 1. rewrite Hb, HfB.
  rewrite bool_decide_eq_true_2 by eauto. cbn [negb].
  rewrite HincB. cbn [walk_includes].
  destruct (_file_from_module h mod2 root) as [r2 t2]. cbn [fst snd] in Hb2, Hr2. subst r2.
  (* The second reference is resolved and then found among the visited. *)
  rewrite Hrb2. rewrite bool_decide_eq_true_2 by (cbn; set_solver).
  eexists. split; [rewrite app_nil_r; reflexivity |].
  cbn [emit trace]. rewrite !reads_app, Hr1, Hr2. reflexivity.
Qed.

(** X12: A file mounted twice is scanned once.  When the root file includes
    the same file under two prefixes, the walk reads the root and the
    included file once each and returns the routes of the root followed by
    those of the included file under the first prefix only: no route is
    produced under the second prefix. *)
Theorem second_mount_contributes_nothing (h : host) (root a b : string)
    (treeA treeB : ast) (pref1 : string) :
  include_diamond h root a b treeA treeB pref1 ->
  exists st,
    walk h a root
    = Some (Ok (URLVisitor.routes (visit_file treeA "")
                ++ URLVisitor.routes (visit_file treeB pref1)), st)
    /\ reads (trace st) = [a; b].
Proof.
  intros Hdia.
  destruct (walk_diamond_fuel h root a b treeA treeB pref1 0 Hdia) as (st & Hw & Hreads).
  exists st. split; [| exact Hreads].
  unfold walk, walk_budget. eapply walk_fuel_mono; [| exact Hw].
  destruct Hdia as [_ _ Hne HfA HfB _ _].
  pose proof (two_files_size h a b _ _ Hne HfA HfB). lia.
Qed.

Lemma second_mount_contributes_nothing_witness :
  include_diamond diamond_host "/p" "/p/a.py" "/p/b.py" diamond_a good_file "v1/"
  /\ map method_and_path
       (default [] (routes_of (walk diamond_host "/p/a.py" "/p")))
     = [("get", "/v1/items/")].
Proof.
  assert (Hdia : include_diamond diamond_host "/p" "/p/a.py" "/p/b.py"
                   diamond_a good_file "v1/").
  { split; try reflexivity.
    - discriminate.
    - exists "b", "b", "v2/". split; [vm_compute; reflexivity |].
      split; exists "/p/b.py"; split; vm_compute; reflexivity. }
  split; [exact Hdia |].
  destruct (second_mount_contributes_nothing diamond_host "/p" "/p/a.py" "/p/b.py"
              diamond_a good_file "v1/" Hdia) as (st & -> & _).
  vm_compute. reflexivity.
Defined.

(** ** The helpers of [django_creator.py] *)

Lemma get_in_range (s : string) (n : nat) :
  n < String.length s -> is_Some (String.get n s).
Proof.
  revert n. induction s as [|c s IH]; intros n; cbn [String.length]; [lia |].
  destruct n as [|n]; cbn [String.get]; [eauto |]. intros H. apply IH. lia.
Qed.

Lemma ends_consonant_then_raises (c : ascii) (word : string) :
  ends_consonant_then (String c "") word = None -> word = String c "".
Proof.
  unfold ends_consonant_then.
  destruct (Py.endswith word (String c "")) eqn:E; [| discriminate].
  unfold Py.index_from_end.
  destruct (2 <=? String.length word)%nat eqn:L.
  - apply Nat.leb_le in L.
    destruct (get_in_range word (String.length word - 2)) as [d Hd]; [lia |].
    rewrite Hd. discriminate.
  - intros _. apply Nat.leb_gt in L.
    destruct word as [|a [|b w]]; [cbn in E; discriminate | | cbn in L; lia].
    unfold Py.endswith in E. cbn in E. apply String.eqb_eq, E.
Qed.

(** X13: [pluralize] raises exactly on the one-letter words [y] and [o], in
    either case: the rules for a final [y] or [o] look at the letter before
    it.  On every other word it returns a plural. *)
Theorem pluralize_raises_iff (word : string) :
  pluralize word = None <-> Py.lower word = "y" \/ Py.lower word = "o".
Proof.
  split.
  - unfold pluralize. destruct (negb (Py.nonempty word)); [discriminate |].
    cbv zeta. destruct (Py.dict_get irregulars (Py.lower word)); [discriminate |].
    repeat (match goal with
            | |- (if Py.endswith ?w ?s then _ else _) = None -> _ =>
                destruct (Py.endswith w s); [discriminate |]
            end).
    destruct (ends_consonant_then "y" (Py.lower word)) as [[]|] eqn:Ey;
      cbn [mbind option_bind]; [discriminate | | left; apply ends_consonant_then_raises, Ey].
    destruct (ends_consonant_then "o" (Py.lower word)) as [[]|] eqn:Eo;
      cbn [mbind option_bind]; [| | right; apply ends_consonant_then_raises, Eo].
    + destruct (Py.str_in _ _); discriminate.
    + destruct (_ || _); [discriminate |]. destruct (existsb _ _); discriminate.
  - assert (Hne : Py.lower word <> "" -> negb (Py.nonempty word) = false)
      by (destruct word; [intros []; reflexivity | reflexivity]).
    unfold pluralize. intros [H | H]; rewrite Hne, H by (rewrite H; discriminate);
      reflexivity.
Qed.

Lemma all_in_lstrip (chars s : string) :
  all_in chars s = true -> Py.lstrip chars s = "".
Proof.
  induction s as [|c s IH]; cbn [all_in Py.lstrip]; [reflexivity |].
  intros [Hc Hs]%andb_true_iff. rewrite Hc. auto.
Qed.

Lemma all_in_rstrip (chars s : string) :
  all_in chars s = true -> Py.rstrip chars s = "".
Proof.
  induction s as [|c s IH]; cbn [all_in Py.rstrip]; [reflexivity |].
  intros [Hc Hs]%andb_true_iff. rewrite IH, Hc by exact Hs. reflexivity.
Qed.

Lemma rstrip_cons (chars : string) (c : ascii) (s : string) :
  Py.rstrip chars (String c s)
  = if all_in chars (String c s) then "" else String c (Py.rstrip chars s).
Proof.
  cbn [Py.rstrip all_in].
  destruct (all_in chars s) eqn:Hs.
  - rewrite all_in_rstrip by exact Hs. rewrite andb_true_r.
    destruct (Py.char_in c chars); reflexivity.
  - rewrite andb_false_r.
    destruct (Py.rstrip chars s) eqn:Hr; [| reflexivity].
    exfalso. clear c. induction s as [|d s IH]; [discriminate |].
    cbn [Py.rstrip all_in] in *.
    destruct (Py.rstrip chars s); [| discriminate].
    destruct (Py.char_in d chars); [| discriminate].
    apply IH; [exact Hs | reflexivity].
Qed.

Lemma lstrip_app (chars y w : string) :
  Py.lstrip chars (y +:+ w)
  = if all_in chars y then Py.lstrip chars w else Py.lstrip chars y +:+ w.
Proof.
  induction y as [|c y IH]; str_simpl; [reflexivity |].
  cbn [Py.lstrip all_in]. destruct (Py.char_in c chars); [exact IH | reflexivity].
Qed.

Lemma all_in_app (chars u x : string) :
  all_in chars (u +:+ x) = all_in chars u && all_in chars x.
Proof.
  induction u as [|c u IH]; str_simpl; [reflexivity |].
  cbn [all_in]. rewrite IH. apply andb_assoc.
Qed.

Lemma rstrip_app (chars u x : string) :
  Py.rstrip chars (u +:+ x)
  = if all_in chars x then Py.rstrip chars u else u +:+ Py.rstrip chars x.
Proof.
  induction u as [|c u IH]; rewrite ?append_nil, ?append_cons.
  - destruct (all_in chars x) eqn:Hx; [apply all_in_rstrip, Hx | reflexivity].
  - rewrite !rstrip_cons. change (all_in chars (String c (u +:+ x)))
      with (Py.char_in c chars && all_in chars (u +:+ x)).
    rewrite all_in_app, IH. cbn [all_in].
    destruct (all_in chars x); [rewrite andb_true_r; reflexivity |].
    rewrite !andb_false_r. reflexivity.
Qed.

Lemma all_in_lstrip_same (chars s : string) :
  all_in chars (Py.lstrip chars s) = all_in chars s.
Proof.
  induction s as [|c s IH]; [reflexivity |]. cbn [Py.lstrip].
  destruct (Py.char_in c chars) eqn:Hc; [| reflexivity].
  cbn [all_in]. rewrite Hc. exact IH.
Qed.

Lemma all_in_rstrip_same (chars s : string) :
  all_in chars (Py.rstrip chars s) = all_in chars s.
Proof.
  induction s as [|c s IH]; [reflexivity |]. rewrite rstrip_cons.
  destruct (all_in chars (String c s)) eqn:H; [reflexivity |].
  cbn [all_in] in *. rewrite IH. exact H.
Qed.

Lemma rstrip_idempotent (chars s : string) :
  Py.rstrip chars (Py.rstrip chars s) = Py.rstrip chars s.
Proof.
  pose proof (rstrip_app chars (Py.rstrip chars s) "") as H.
  induction s as [|c s IH]; [reflexivity |]. rewrite rstrip_cons.
  destruct (all_in chars (String c s)) eqn:Hall; [reflexivity |].
  rewrite rstrip_cons. cbn [all_in] in *. rewrite all_in_rstrip_same, Hall.
  rewrite IH; [reflexivity |]. apply rstrip_app.
Qed.

Lemma lstrip_idempotent (chars s : string) :
  Py.lstrip chars (Py.lstrip chars s) = Py.lstrip chars s.
Proof.
  induction s as [|c s IH]; [reflexivity |]. cbn [Py.lstrip].
  destruct (Py.char_in c chars) eqn:Hc; [exact IH |].
  cbn [Py.lstrip]. rewrite Hc. reflexivity.
Qed.

(** Stripping both ends does not depend on the end that is stripped
    first. *)
Lemma rstrip_lstrip (chars s : string) :
  Py.rstrip chars (Py.lstrip chars s) = Py.lstrip chars (Py.rstrip chars s).
Proof.
  induction s as [|c s IH]; [reflexivity |].
  rewrite rstrip_cons. cbn [Py.lstrip all_in].
  destruct (Py.char_in c chars) eqn:Hc; cbn [andb].
  - destruct (all_in chars s) eqn:Hs.
    + rewrite all_in_lstrip by exact Hs. reflexivity.
    + cbn [Py.lstrip]. rewrite Hc. exact IH.
  - rewrite rstrip_cons. cbn [all_in Py.lstrip]. rewrite Hc. reflexivity.
Qed.

Lemma rstrip_not_root (s : string) : Py.rstrip "/" s <> "/".
Proof.
  intros H. pose proof (all_in_rstrip_same "/" s) as Hall. rewrite H in Hall.
  symmetry in Hall. apply all_in_rstrip in Hall. rewrite Hall in H. discriminate.
Qed.

Lemma join_paths_normal (base_path sub_path : string) :
  join_paths base_path sub_path
  = Py.rstrip "/" base_path +:+ "/" +:+ Py.lstrip "/" sub_path.
Proof.
  unfold join_paths. destruct (String.eqb_spec base_path "/") as [-> | Hne]; cbn [negb].
  - reflexivity.
  - destruct (String.eqb_spec (Py.rstrip "/" base_path) "/") as [H | _]; [| reflexivity].
    destruct (rstrip_not_root _ H).
Qed.

(** X14: The special case of [join_paths] for the root changes nothing: the
    result is always the base without its trailing slashes, one slash, and
    the sub-path without its leading slashes; so the joint holds exactly
    one slash, whatever the arguments. *)
Theorem join_paths_single_slash (base_path sub_path : string) :
  join_paths base_path sub_path
  = Py.rstrip "/" base_path +:+ "/" +:+ Py.lstrip "/" sub_path
  /\ Py.endswith (Py.rstrip "/" base_path) "/" = false
  /\ Py.startswith (Py.lstrip "/" sub_path) "/" = false.
Proof.
  split; [apply join_paths_normal |]. split.
  - induction base_path as [|c s IH]; [reflexivity |]. rewrite rstrip_cons.
    destruct (all_in "/" (String c s)) eqn:Hall; [reflexivity |].
    destruct (Py.rstrip "/" s) as [|d r] eqn:Hr.
    + pose proof (all_in_rstrip_same "/" s) as Hs. rewrite Hr in Hs.
      cbn [all_in] in Hall, Hs. rewrite <- Hs, andb_true_r in Hall.
      unfold Py.endswith. cbn [String.length Nat.leb Nat.sub Py.drop andb].
      destruct (String.eqb_spec (String c "") "/") as [[= ->] |]; [discriminate | reflexivity].
    + unfold Py.endswith in *. cbn [String.length Nat.leb Nat.sub Py.drop] in *.
      rewrite Nat.sub_0_r in *. exact IH.
  - induction sub_path as [|c s IH]; [reflexivity |]. cbn [Py.lstrip].
    destruct (Py.char_in c "/") eqn:Hc; [exact IH |].
    cbn [Py.startswith]. cbn [Py.char_in] in Hc. rewrite orb_false_r in Hc.
    rewrite Ascii.eqb_sym, Hc. reflexivity.
Qed.

(** X15: Joining is associative: mounting [c] under [b] and the result under
    [a] gives the path of mounting [b] under [a] and [c] under that. *)
Theorem join_paths_assoc (a b c : string) :
  join_paths (join_paths a b) c = join_paths a (join_paths b c).
Proof.
  rewrite !join_paths_normal.
  rewrite <- (append_assoc (Py.rstrip "/" a) "/" (Py.lstrip "/" b)).
  rewrite rstrip_app, lstrip_app.
  rewrite all_in_lstrip_same, all_in_rstrip_same.
  destruct (all_in "/" b) eqn:Hb.
  - rewrite (rstrip_app "/" _ "/"). cbn [all_in Py.char_in Ascii.eqb orb andb].
    change (all_in "/" "/") with true. cbv iota.
    rewrite rstrip_idempotent.
    change ("/" +:+ Py.lstrip "/" c) with (String "/" (Py.lstrip "/" c)).
    cbn [Py.lstrip Py.char_in]. change (Ascii.eqb "/" "/") with true. cbn [orb].
    rewrite lstrip_idempotent. reflexivity.
  - rewrite rstrip_lstrip. rewrite !append_assoc. reflexivity.
Qed.

Lemma dict_get_app {V} (d1 d2 : list (string * V)) (k : string) :
  Py.dict_get (d1 ++ d2) k
  = match Py.dict_get d1 k with Some v => Some v | None => Py.dict_get d2 k end.
Proof.
  induction d1 as [|[k' v] d1 IH]; [reflexivity |]. cbn [app Py.dict_get].
  destruct (String.eqb k k'); [reflexivity | exact IH].
Qed.

Lemma dict_get_item {V} (d : list (string * V)) (k : string) (v : V) :
  Py.dict_get d k = Some v -> (k, v) ∈ d.
Proof.
  induction d as [|[k' v'] d IH]; cbn [Py.dict_get]; [discriminate |].
  destruct (String.eqb_spec k k') as [-> | _].
  - intros [= ->]. apply list_elem_of_here.
  - intros H. apply list_elem_of_further, IH, H.
Qed.

Lemma dict_get_absent {V} (d : list (string * V)) (k : string) :
  k ∉ map fst d -> Py.dict_get d k = None.
Proof.
  intros Hk. destruct (Py.dict_get d k) as [v|] eqn:E; [| reflexivity].
  destruct Hk. apply dict_get_item in E.
  apply (list_elem_of_fmap_2 fst) in E. exact E.
Qed.

Lemma convert_type_cases (t : string) :
  convert_django_type_to_openapi t
  = if bool_decide (t ∈ openapi_types) then t
    else map_django_field_type_to_openapi t.
Proof.
  unfold convert_django_type_to_openapi, map_django_field_type_to_openapi.
  change type_map with (field_type_mapping ++ map (fun x => (x, x)) openapi_types).
  rewrite dict_get_app.
  case_bool_decide as Ht.
  - assert (Hall : Forall (fun x =>
        default "string"
          match Py.dict_get field_type_mapping x with
          | Some v => Some v
          | None => Py.dict_get (map (fun x => (x, x)) openapi_types) x
          end = x) openapi_types) by (repeat constructor).
    rewrite Forall_forall in Hall. apply Hall, Ht.
  - destruct (Py.dict_get field_type_mapping t); [reflexivity |].
    rewrite dict_get_absent; [reflexivity |].
    rewrite map_map. cbn [fst]. rewrite map_id. exact Ht.
Qed.

Lemma dict_get_range (d : list (string * string)) (t : string) :
  Forall (fun kv => snd kv ∈ openapi_types) d ->
  default "string" (Py.dict_get d t) ∈ openapi_types.
Proof.
  intros Hd. destruct (Py.dict_get d t) as [v|] eqn:E; [| apply list_elem_of_here].
  apply dict_get_item in E. rewrite Forall_forall in Hd. apply (Hd _ E).
Qed.

(** X16: The two field-type tables agree.  [convert_django_type_to_openapi] is
    the identity on the OpenAPI type names and
    [map_django_field_type_to_openapi] everywhere else. *)
Theorem convert_type_extends_field_mapping (t : string) :
  convert_django_type_to_openapi t
  = if bool_decide (t ∈ openapi_types) then t
    else map_django_field_type_to_openapi t.
Proof. apply convert_type_cases. Qed.

(** X17: [convert_django_type_to_openapi] always returns an OpenAPI type name
    and is idempotent; [map_django_field_type_to_openapi] returns an
    OpenAPI type name too, but is not idempotent: it maps every type name
    other than [string] that it returns back to [string]. *)
Theorem convert_type_idempotent (t : string) :
  convert_django_type_to_openapi t ∈ openapi_types
  /\ map_django_field_type_to_openapi t ∈ openapi_types
  /\ convert_django_type_to_openapi (convert_django_type_to_openapi t)
     = convert_django_type_to_openapi t
  /\ (map_django_field_type_to_openapi t <> "string" ->
      map_django_field_type_to_openapi (map_django_field_type_to_openapi t) = "string").
Proof.
  assert (Hc : convert_django_type_to_openapi t ∈ openapi_types).
  { apply dict_get_range. apply (bool_decide_unpack _). vm_compute. reflexivity. }
  assert (Hm : map_django_field_type_to_openapi t ∈ openapi_types).
  { apply dict_get_range. apply (bool_decide_unpack _). vm_compute. reflexivity. }
  split; [exact Hc |]. split; [exact Hm |]. split.
  - rewrite (convert_type_cases (convert_django_type_to_openapi t)).
    rewrite bool_decide_eq_true_2 by exact Hc. reflexivity.
  - intros Hne. revert Hm Hne. generalize (map_django_field_type_to_openapi t).
    intros x Hx Hne.
    repeat (apply elem_of_cons in Hx as [-> | Hx];
            [first [destruct Hne; reflexivity | reflexivity] |]).
    apply elem_of_nil in Hx as [].
Qed.

Lemma convert_type_idempotent_witness :
  map_django_field_type_to_openapi "IntegerField" = "integer"
  /\ map_django_field_type_to_openapi "integer" = "string"
  /\ convert_django_type_to_openapi "integer" = "integer".
Proof.
  split; [reflexivity |]. split; [| reflexivity].
  apply (proj2 (proj2 (proj2 (convert_type_idempotent "IntegerField")))).
  discriminate.
Defined.


Lemma dedupe_loop_idempotent_witness :
  map method_and_path (unique_from ∅ duplicate_routes) = [("get", "/a"); ("post", "/")]
  /\ unique_from ∅ (unique_from ∅ duplicate_routes) = unique_from ∅ duplicate_routes.
Proof.
  split; [vm_compute; reflexivity |].
  exact (proj2 (proj2 (proj2 (dedupe_loop_idempotent duplicate_routes)))).
Defined.

Lemma pluralize_raises_iff_witness :
  pluralize "Y" = None /\ pluralize "by" = Some "bies".
Proof.
  split; [| reflexivity].
  apply (proj2 (pluralize_raises_iff "Y")). left. reflexivity.
Defined.

(** ** The Flask visitor and assembler *)

Lemma typed_name_at_converter (c n s : string) :
  c ∈ Flask.converters ->
  Py.nonempty n = true -> Py.char_in ">" n = false ->
  Flask.typed_name ((c +:+ ":" +:+ n +:+ ">") +:+ s)
  = Some (n, S (String.length (c +:+ ":" +:+ n +:+ ">"))).
Proof.
  intros Hc Hne Hn. unfold Flask.converters in Hc.
  assert (Hrun : Re.run_then ">" (n +:+ String ">" s) = Some (n, s))
    by (apply run_then_run; assumption).
  repeat (apply elem_of_cons in Hc as [-> | Hc]);
    [ .. | apply elem_of_nil in Hc; destruct Hc ];
    unfold Flask.typed_name, Flask.converters; rewrite !append_assoc; str_simpl;
    rewrite Hrun; rewrite !append_length; simpl; do 2 f_equal; lia.
Qed.

Lemma typed_name_at_plain (n s : string) :
  Py.char_in ":" n = false ->
  Flask.typed_name (n +:+ String ">" s) = None.
Proof.
  intros Hn. unfold Flask.typed_name, Flask.converters. cbn [Re.first_some].
  rewrite !no_converter_prefix by (exact Hn || reflexivity). reflexivity.
Qed.

Lemma flask_typed_needs_angle (c : ascii) (s : string) :
  c <> "<"%char -> Flask.typed (String c s) = None.
Proof.
  intros Hc. unfold Flask.typed.
  destruct c as [[] [] [] [] [] [] [] []]; try reflexivity. congruence.
Qed.

Lemma flask_placeholder_needs_angle (c : ascii) (s : string) :
  c <> "<"%char -> Flask.placeholder (String c s) = None.
Proof.
  intros Hc. unfold Flask.placeholder.
  destruct c as [[] [] [] [] [] [] [] []]; try reflexivity. congruence.
Qed.

Lemma flask_typed_sub_segments (segs : list segment) :
  Forall flask_segment segs ->
  Re.sub Flask.typed (concat_str (map raw_segment segs))
  = concat_str (map after_slug segs).
Proof.
  induction 1 as [|seg segs Hseg _ IH]; [reflexivity |].
  cbn [map concat_str]. destruct seg as [text | [conv|] name].
  - cbn [raw_segment after_slug]. simpl in Hseg.
    rewrite (sub_text _ "<"%char) by (auto using flask_typed_needs_angle). congruence.
  - destruct Hseg as (Hne & _ & Hgt & _ & Hconv).
    rewrite raw_converter.
    rewrite (sub_match _ _ _ _ (Re.braces name)).
    + cbn [after_slug]. congruence.
    + unfold Flask.typed. rewrite typed_name_at_converter by assumption. reflexivity.
  - destruct Hseg as (Hne & Hlt & Hgt & Hcolon & _).
    rewrite raw_plain, sub_nomatch
      by (unfold Flask.typed; rewrite typed_name_at_plain by exact Hcolon; reflexivity).
    rewrite (sub_text _ "<"%char) by (auto using flask_typed_needs_angle).
    rewrite sub_nomatch by (apply flask_typed_needs_angle; discriminate).
    rewrite IH. symmetry. apply (raw_plain name).
Qed.

Lemma flask_findall_segments (segs : list segment) :
  Forall flask_segment segs ->
  Re.findall Flask.placeholder (concat_str (map raw_segment segs))
  = placeholder_names segs.
Proof.
  induction 1 as [|seg segs Hseg _ IH]; [reflexivity |].
  cbn [map concat_str]. destruct seg as [text | [conv|] name].
  - cbn [raw_segment]. simpl in Hseg.
    rewrite (findall_text _ "<"%char) by (auto using flask_placeholder_needs_angle).
    exact IH.
  - destruct Hseg as (Hne & _ & Hgt & _ & Hconv).
    rewrite raw_converter.
    rewrite (findall_match _ _ _ _ name).
    + cbn. rewrite IH. reflexivity.
    + unfold Flask.placeholder. rewrite typed_name_at_converter by assumption. reflexivity.
  - destruct Hseg as (Hne & Hlt & Hgt & Hcolon & _).
    change (raw_segment (Placeholder None name) +:+ ?r)
      with (String "<" ((name +:+ ">") +:+ r)).
    rewrite (findall_match _ _ _ _ name).
    + cbn. rewrite IH. reflexivity.
    + unfold Flask.placeholder. rewrite append_assoc. str_simpl.
      rewrite typed_name_at_plain by exact Hcolon.
      rewrite run_then_run by assumption.
      rewrite append_length. simpl. do 2 f_equal. lia.
Qed.

(** The second substitution does not look at the converter that the first
    one resolved. *)
Lemma flask_angle_sub_segments (segs : list segment) :
  Forall flask_segment segs ->
  Re.sub Re._angle (concat_str (map after_slug segs))
  = concat_str (map openapi_segment segs).
Proof.
  intros Hsegs.
  pose (retype := fun seg =>
          match seg with
          | Placeholder (Some _) name => Placeholder (Some "int") name
          | seg => seg
          end).
  assert (Hwf : Forall wf_segment (map retype segs)).
  { apply Forall_map. eapply Forall_impl; [exact Hsegs |].
    intros [text | [conv|] name]; cbn; [tauto | | tauto].
    intros (? & ? & ? & ? & _). repeat split; try assumption. apply list_elem_of_here. }
  pose proof (angle_sub_segments _ Hwf) as H.
  rewrite !map_map in H.
  rewrite (map_ext (fun x => after_slug (retype x)) after_slug) in H
    by (intros [text | [conv|] name]; reflexivity).
  rewrite (map_ext (fun x => openapi_segment (retype x)) openapi_segment) in H
    by (intros [text | [conv|] name]; reflexivity).
  exact H.
Qed.

(** X18: For a Flask route of literal text and well-formed placeholders,
    [FlaskRouteVisitor._add_route] computes a path and a parameter list
    that agree: the path holds [{name}] at every placeholder and nothing
    else changes, and the parameters, which are read from the route and not
    from the translated path, are the names of the placeholders, each once
    and in their order. *)
Theorem flask_path_and_parameters_agree (segs : list segment) :
  Forall flask_segment segs ->
  Flask.openapi_path (concat_str (map raw_segment segs))
  = concat_str (map openapi_segment segs)
  /\ Flask.path_params (concat_str (map raw_segment segs))
     = map path_param (placeholder_names segs).
Proof.
  intros Hsegs. unfold Flask.openapi_path, Flask.path_params.
  rewrite flask_typed_sub_segments, flask_angle_sub_segments by exact Hsegs.
  rewrite flask_findall_segments by exact Hsegs. split; reflexivity.
Qed.

Lemma flask_path_and_parameters_agree_witness :
  Forall flask_segment flask_sample_segments
  /\ Flask.openapi_path "/users/<int:user_id>/posts/<slug>" = "/users/{user_id}/posts/{slug}"
  /\ map p_name (Flask.path_params "/users/<int:user_id>/posts/<slug>")
     = ["user_id"; "slug"].
Proof.
  assert (Hsegs : Forall flask_segment flask_sample_segments).
  { repeat constructor. }
  split; [exact Hsegs |].
  change "/users/<int:user_id>/posts/<slug>"
    with (concat_str (map raw_segment flask_sample_segments)).
  destruct (flask_path_and_parameters_agree flask_sample_segments Hsegs) as [-> ->].
  split; reflexivity.
Defined.

(** X19: The Flask assembler keeps the last declaration: the document holds,
    for a path and a method, the operation of the last route record with
    that path and method, and no operation where the list has no such
    record.  (The Django assembler keeps the first.) *)
Theorem flask_spec_last_wins (app_name : string) (routes : list route) (p m : string) :
  doc_operation (Flask.generate_openapi_spec app_name routes) p m
  = operation_of <$> last (filter (fun r => sort_key r = (p, m)) routes).
Proof.
  unfold doc_operation, Flask.generate_openapi_spec. cbn [paths].
  rewrite paths_fold_lookup. destruct (last _); [reflexivity |].
  rewrite lookup_empty. reflexivity.
Qed.


Lemma route_keywords_endpoint (keywords : list (option string * ast)) :
  snd (Flask.route_keywords keywords) = Flask.endpoint_keyword keywords.
Proof.
  unfold Flask.route_keywords, Flask.endpoint_keyword.
  change (@None string) with (snd (["get"], @None string)) at 2.
  generalize (["get"], @None string).
  induction keywords as [|kw kws IH]; intros acc; [reflexivity |].
  cbn [foldl]. rewrite IH. f_equal.
  destruct (decide (fst kw = Some "methods")) as [Hm | Hm].
  - rewrite bool_decide_eq_true_2 by exact Hm.
    rewrite bool_decide_eq_false_2 by (rewrite Hm; discriminate). reflexivity.
  - rewrite bool_decide_eq_false_2 by exact Hm.
    destruct (bool_decide (fst kw = Some "endpoint")); reflexivity.
Qed.

Lemma http_method_attr_cases (attr : string) :
  Py.str_in attr ["get"; "post"; "put"; "delete"; "patch"] = true ->
  attr ∈ ["get"; "post"; "put"; "delete"; "patch"].
Proof.
  unfold Py.str_in. intros H. apply existsb_exists in H as (x & Hx & Heq).
  apply String.eqb_eq in Heq as ->. apply list_elem_of_In. exact Hx.
Qed.

(** X20: The shorthand decorators are recorded as the route decorator with
    that method: [@app.post(path, ...)] leaves the visitor as
    [@app.route(path, ..., methods=['POST'])] does, whatever the arguments
    and the other keywords are. *)
Theorem method_decorator_is_route_decorator (app attr : string) (args : list ast)
    (keywords : list (option string * ast)) (v : Flask.t) :
  Py.str_in attr ["get"; "post"; "put"; "delete"; "patch"] = true ->
  Flask.visit_Call_own (Attribute (Name app) attr) args keywords v
  = Flask.visit_Call_own (Attribute (Name app) "route") args
      (keywords ++ [(Some "methods", List_ [Constant (CStr (Py.upper attr))])]) v.
Proof.
  intros Hattr. unfold Flask.visit_Call_own. rewrite Hattr.
  assert (Hcases := http_method_attr_cases attr Hattr).
  assert (Hroute : String.eqb attr "route" = false).
  { repeat (apply elem_of_cons in Hcases as [-> | Hcases]; [reflexivity |]).
    apply elem_of_nil in Hcases as []. }
  assert (Hlower : Py.lower (Py.upper attr) = Py.lower attr).
  { repeat (apply elem_of_cons in Hcases as [-> | Hcases]; [reflexivity |]).
    apply elem_of_nil in Hcases as []. }
  rewrite Hroute. change (String.eqb "route" "route") with true. cbv iota.
  destruct (bool_decide (app ∈ Flask.possible_app_vars v)); [| reflexivity].
  unfold Flask._process_http_method_decorator, Flask._process_route_decorator.
  pose proof (route_keywords_endpoint keywords) as Hend.
  unfold Flask.route_keywords in *. rewrite foldl_app. cbn [foldl fst snd].
  rewrite bool_decide_eq_true_2 by reflexivity.
  change (Flask._extract_list_of_strings (List_ [Constant (CStr (Py.upper attr))]))
    with [Py.lower (Py.upper attr)].
  rewrite Hlower, Hend.
  reflexivity.
Qed.

Lemma method_decorator_is_route_decorator_witness :
  Flask.extract_routes (flask_module (app_call "app" "post" [str "/x/<int:id>"] []))
  = Flask.extract_routes
      (flask_module (app_call "app" "route" [str "/x/<int:id>"]
                       [(Some "methods", List_ [str "POST"])]))
  /\ map method_and_path
       (snd (Flask.extract_routes
               (flask_module (app_call "app" "post" [str "/x/<int:id>"] []))))
     = [("post", "/x/{id}")].
Proof.
  split; [| vm_compute; reflexivity].
  unfold Flask.extract_routes, flask_module, app_call.
  cbn [Flask.visit foldl].
  rewrite (method_decorator_is_route_decorator "app" "post" [str "/x/<int:id>"] [])
    by reflexivity.
  reflexivity.
Defined.


Lemma flask_visit_preserves (P : Flask.t -> Prop) :
  (forall targets value v, P v -> P (Flask.visit_Assign_own targets value v)) ->
  (forall func args keywords v, P v -> P (Flask.visit_Call_own func args keywords v)) ->
  forall node v, P v -> P (Flask.visit node v).
Proof.
  intros HA HC.
  induction node using ast_induction; intros v Hv; cbn [Flask.visit];
    try (apply (foldl_preserves P); assumption); auto.
  - apply IHnode. apply (foldl_preserves P); auto.
  - destruct returns as [r|].
    + apply H1. repeat (apply (foldl_preserves P); [assumption |]). auto.
    + repeat (apply (foldl_preserves P); [assumption |]). auto.
  - repeat (apply (foldl_preserves P); [assumption |]). exact Hv.
  - repeat (apply (foldl_preserves P); [assumption |]). auto.
  - apply (foldl_preserves P); [assumption |].
    apply (foldl_preserves P); [| exact Hv].
    eapply Forall_impl; [exact H |]. intros [n|] Hn s Hs; auto.
Qed.

Lemma lower_char_idempotent (c : ascii) :
  Py.lower_char (Py.lower_char c) = Py.lower_char c.
Proof. destruct c as [[] [] [] [] [] [] [] []]; reflexivity. Qed.

Lemma lower_idempotent (s : string) : Py.lower (Py.lower s) = Py.lower s.
Proof.
  induction s as [|c s IH]; [reflexivity |].
  unfold Py.lower in *. cbn [Py.map_chars]. rewrite lower_char_idempotent, IH. reflexivity.
Qed.

Lemma flask_add_route_consistent (raw : string) (methods : list string)
    (endpoint : option string) (id : string) (v : Flask.t) :
  Forall (fun m => Py.lower m = m) methods ->
  id ∈ Flask.possible_app_vars v ->
  flask_consistent v ->
  flask_consistent (Flask._add_route raw methods endpoint (Flask.set_current_app_var id v)).
Proof.
  intros Hm Hid (Hroutes & Hnone & Hname). unfold flask_consistent, Flask._add_route.
  cbn [Flask.routes Flask.possible_app_vars Flask.app_name Flask.set_current_app_var].
  split; [| split; [| exact Hname]].
  - apply Forall_app. split; [exact Hroutes |]. apply Forall_map.
    eapply Forall_impl; [exact Hm |]. intros m Hl. split; [exact Hl |].
    cbn [operation_id]. eexists. split; [reflexivity |].
    destruct endpoint as [e|]; [destruct (Py.nonempty e) eqn:E; [exact E |] |]; reflexivity.
  - intros Hempty. rewrite Hempty in Hid. apply elem_of_empty in Hid as [].
Qed.

Lemma flask_lists_lower (node : ast) :
  Forall (fun m => Py.lower m = m) (Flask._extract_list_of_strings node).
Proof.
  destruct node; try (repeat constructor).
  cbn [Flask._extract_list_of_strings]. apply Forall_map, Forall_forall.
  intros m _. apply lower_idempotent.
Qed.

Lemma flask_route_keywords_lower (keywords : list (option string * ast)) :
  Forall (fun m => Py.lower m = m) (fst (Flask.route_keywords keywords)).
Proof.
  unfold Flask.route_keywords.
  apply (foldl_preserves (fun acc => Forall (fun m => Py.lower m = m) (fst acc)));
    [| repeat constructor].
  apply Forall_forall. intros kw _ acc Hacc.
  destruct (bool_decide _); [apply flask_lists_lower |].
  destruct (bool_decide _); exact Hacc.
Qed.

Lemma flask_set_current_consistent (id : string) (v : Flask.t) :
  flask_consistent v -> flask_consistent (Flask.set_current_app_var id v).
Proof. intros H. exact H. Qed.

Lemma flask_consistent_visit (node : ast) (v : Flask.t) :
  flask_consistent v -> flask_consistent (Flask.visit node v).
Proof.
  apply flask_visit_preserves; clear node v.
  - intros targets value v Hv. unfold Flask.visit_Assign_own.
    destruct value; try exact Hv. destruct value; try exact Hv.
    destruct (String.eqb _ _); [| exact Hv].
    apply (foldl_preserves flask_consistent); [| exact Hv].
    apply Forall_forall. intros target _ s (Hroutes & Hnone & Hname).
    destruct target as [| | | | | | | name | | | | | |]; try (repeat split; assumption).
    unfold flask_consistent.
    cbn [Flask.routes Flask.possible_app_vars Flask.app_name].
    split; [exact Hroutes |]. split.
    + intros Hempty. exfalso. apply (not_elem_of_empty (C := gset string) name).
      rewrite <- Hempty. apply elem_of_union_l, elem_of_singleton. reflexivity.
    + destruct (Flask.app_name s) as [a|]; [destruct (Py.nonempty a) |]; discriminate.
  - intros func args keywords v Hv. unfold Flask.visit_Call_own.
    destruct func; try exact Hv.
    destruct (String.eqb _ _).
    + destruct func; try exact Hv.
      case_bool_decide as Hid; [| exact Hv].
      unfold Flask._process_route_decorator.
      pose proof (flask_route_keywords_lower keywords) as Hlow.
      destruct (Flask.route_keywords keywords) as [methods endpoint]. cbn [fst] in Hlow.
      destruct (Flask.path_arg args) as [p|]; [| exact Hv].
      destruct (Py.nonempty p); [| exact Hv].
      apply flask_add_route_consistent; assumption.
    + destruct (Py.str_in _ _); [| exact Hv].
      destruct func; try exact Hv.
      case_bool_decide as Hid; [| exact Hv].
      unfold Flask._process_http_method_decorator.
      destruct (Flask.path_arg args) as [p|]; [| exact Hv].
      destruct (Py.nonempty p); [| exact Hv].
      apply flask_add_route_consistent; [| assumption ..].
      constructor; [apply lower_idempotent | constructor].
Qed.

(** X21: The Flask visitor records a route only for an application variable
    that was assigned before: a file where it finds no [Flask(...)]
    assignment yields no route.  Every record it makes has a lower-case
    method and a non-empty operation identifier. *)
Theorem flask_routes_need_an_application (tree : ast) :
  Forall flask_route_ok (Flask.routes (Flask.visit tree Flask.init))
  /\ (Flask.app_name (Flask.visit tree Flask.init) = None ->
      Flask.routes (Flask.visit tree Flask.init) = []).
Proof.
  destruct (flask_consistent_visit tree Flask.init) as (Hroutes & Hnone & Hname).
  { split; [constructor |]. split; reflexivity. }
  split; [exact Hroutes |]. intros H. apply Hnone, Hname, H.
Qed.

Lemma flask_routes_need_an_application_witness :
  Flask.extract_routes
    (Module_ [FunctionDef "view" (Other []) [] [app_call "app" "get" [str "/x"] []] None])
  = ("FlaskApp", []).
Proof.
  unfold Flask.extract_routes.
  rewrite (proj2 (flask_routes_need_an_application
                    (Module_ [FunctionDef "view" (Other []) [] [app_call "app" "get" [str "/x"] []] None])))
    by reflexivity.
  reflexivity.
Defined.

(** ** The path part of an operation identifier *)

Lemma squeeze_head (s : string) :
  Py.startswith (OperationId.squeeze_underscores s) "_" = Py.startswith s "_".
Proof.
  induction s as [|c s IH]; [reflexivity |]. cbn [OperationId.squeeze_underscores].
  destruct (Ascii.eqb c "_") eqn:Ec; cbn [andb]; [| reflexivity].
  destruct (Py.startswith s "_") eqn:Es; [| reflexivity].
  rewrite IH. cbn [Py.startswith]. rewrite Ascii.eqb_sym, Ec. reflexivity.
Qed.

Lemma squeeze_no_double (s : string) :
  Py.contains (OperationId.squeeze_underscores s) "__" = false.
Proof.
  induction s as [|c s IH]; [reflexivity |]. cbn [OperationId.squeeze_underscores].
  destruct (Ascii.eqb c "_" && Py.startswith s "_") eqn:E; [exact IH |].
  cbn [Py.contains]. rewrite IH, orb_false_r.
  change (Ascii.eqb "_" c && Py.startswith (OperationId.squeeze_underscores s) "_" = false).
  rewrite squeeze_head, Ascii.eqb_sym. exact E.
Qed.

Lemma forall_chars_squeeze (P : ascii -> bool) (s : string) :
  forall_chars P s = true -> forall_chars P (OperationId.squeeze_underscores s) = true.
Proof.
  induction s as [|c s IH]; [reflexivity |].
  cbn [OperationId.squeeze_underscores forall_chars].
  intros [Hc Hs]%andb_true_iff. destruct (_ && _); [auto |].
  cbn [forall_chars]. rewrite Hc. auto.
Qed.

Lemma forall_chars_special (s : string) :
  forall_chars id_char (OperationId.special_to_underscore s) = true.
Proof.
  induction s as [|c s IH]; [reflexivity |].
  unfold OperationId.special_to_underscore in *. cbn [Py.map_chars forall_chars].
  rewrite IH, andb_true_r.
  destruct (Py.is_lower c || Py.is_digit c || Ascii.eqb c "_") eqn:E; [exact E | reflexivity].
Qed.

Lemma forall_chars_lstrip (P : ascii -> bool) (chars s : string) :
  forall_chars P s = true -> forall_chars P (Py.lstrip chars s) = true.
Proof.
  induction s as [|c s IH]; [reflexivity |]. cbn [Py.lstrip].
  destruct (Py.char_in c chars); [| auto].
  cbn [forall_chars]. intros [_ Hs]%andb_true_iff. auto.
Qed.

Lemma forall_chars_rstrip (P : ascii -> bool) (chars s : string) :
  forall_chars P s = true -> forall_chars P (Py.rstrip chars s) = true.
Proof.
  induction s as [|c s IH]; [reflexivity |]. rewrite rstrip_cons.
  destruct (all_in chars (String c s)); [reflexivity |].
  cbn [forall_chars]. intros [Hc Hs]%andb_true_iff. rewrite Hc. auto.
Qed.

Lemma contains_lstrip (chars s sub : string) :
  Py.contains s sub = false -> Py.contains (Py.lstrip chars s) sub = false.
Proof.
  induction s as [|c s IH]; [auto |]. cbn [Py.lstrip].
  destruct (Py.char_in c chars); [| auto].
  cbn [Py.contains]. intros [_ Hs]%orb_false_iff. auto.
Qed.

Lemma rstrip_head (chars : string) (c : ascii) (s : string) :
  Py.startswith (Py.rstrip chars s) (String c "") = true ->
  Py.startswith s (String c "") = true.
Proof.
  destruct s as [|d s]; [discriminate |]. rewrite rstrip_cons.
  destruct (all_in chars (String d s)); [discriminate | auto].
Qed.

Lemma no_double_rstrip (chars s : string) :
  Py.contains s "__" = false -> Py.contains (Py.rstrip chars s) "__" = false.
Proof.
  induction s as [|c s IH]; [auto |]. rewrite rstrip_cons.
  destruct (all_in chars (String c s)); [reflexivity |].
  cbn [Py.contains]. intros [Hh Hs]%orb_false_iff. rewrite IH, orb_false_r by exact Hs.
  change (Ascii.eqb "_" c && Py.startswith s "_" = false) in Hh.
  change (Ascii.eqb "_" c && Py.startswith (Py.rstrip chars s) "_" = false).
  destruct (Ascii.eqb "_" c); [| reflexivity]. cbn [andb] in *.
  destruct (Py.startswith (Py.rstrip chars s) "_") eqn:E; [| reflexivity].
  apply rstrip_head in E. congruence.
Qed.

Lemma rstrip_no_trailing (c : ascii) (s : string) :
  Py.endswith (Py.rstrip (String c "") s) (String c "") = false.
Proof.
  induction s as [|d s IH]; [reflexivity |]. rewrite rstrip_cons.
  destruct (all_in (String c "") (String d s)) eqn:Hall; [reflexivity |].
  destruct (Py.rstrip (String c "") s) as [|e r] eqn:Hr.
  - pose proof (all_in_rstrip_same (String c "") s) as Hs. rewrite Hr in Hs.
    cbn [all_in] in Hall, Hs. rewrite <- Hs, andb_true_r in Hall.
    cbn [Py.char_in] in Hall. rewrite orb_false_r in Hall.
    unfold Py.endswith. cbn [String.length Nat.leb Nat.sub Py.drop andb].
    destruct (String.eqb_spec (String d "") (String c "")) as [[= ->] |]; [| reflexivity].
    rewrite Ascii.eqb_refl in Hall. discriminate.
  - unfold Py.endswith in *. cbn [String.length Nat.leb Nat.sub Py.drop] in *.
    rewrite Nat.sub_0_r in *. exact IH.
Qed.

Lemma clean_part_clean (part : string) :
  Py.nonempty (OperationId.clean_part part) = true ->
  clean_word (OperationId.clean_part part).
Proof.
  intros Hne. split; [exact Hne |]. unfold OperationId.clean_part, Py.strip.
  set (w := OperationId.squeeze_underscores _).
  assert (Hchars : forall_chars id_char w = true)
    by apply forall_chars_squeeze, forall_chars_special.
  assert (Hdouble : Py.contains w "__" = false) by apply squeeze_no_double.
  split; [| split; [| split]].
  - apply forall_chars_rstrip, forall_chars_lstrip, Hchars.
  - destruct (Py.startswith (Py.rstrip "_" (Py.lstrip "_" w)) "_") eqn:E; [| reflexivity].
    apply rstrip_head in E. rewrite lstrip_no_leading in E. discriminate.
  - apply rstrip_no_trailing.
  - apply no_double_rstrip, contains_lstrip, Hdouble.
Qed.

Lemma forall_chars_app (P : ascii -> bool) (a b : string) :
  forall_chars P (a +:+ b) = forall_chars P a && forall_chars P b.
Proof.
  induction a as [|c a IH]; [reflexivity |]. rewrite append_cons.
  cbn [forall_chars]. rewrite IH. apply andb_assoc.
Qed.

Lemma endswith_cons (c d : ascii) (r : string) :
  Py.nonempty r = true ->
  Py.endswith (String c r) (String d "") = Py.endswith r (String d "").
Proof.
  destruct r as [|e r]; [discriminate |]. intros _.
  unfold Py.endswith. cbn [String.length Nat.leb Nat.sub Py.drop].
  rewrite Nat.sub_0_r. reflexivity.
Qed.

Lemma nonempty_app_r (a b : string) :
  Py.nonempty b = true -> Py.nonempty (a +:+ b) = true.
Proof. destruct a; [rewrite append_nil; auto | reflexivity]. Qed.

Lemma endswith_app (d : ascii) (a b : string) :
  Py.nonempty b = true ->
  Py.endswith (a +:+ b) (String d "") = Py.endswith b (String d "").
Proof.
  intros Hb. induction a as [|c a IH]; [reflexivity |]. rewrite append_cons.
  rewrite endswith_cons by (apply nonempty_app_r, Hb). exact IH.
Qed.

Lemma no_double_app (a b : string) :
  Py.contains a "__" = false -> Py.endswith a "_" = false ->
  Py.startswith b "_" = false -> Py.contains b "__" = false ->
  Py.contains (a +:+ "_" +:+ b) "__" = false.
Proof.
  intros Ha He Hs Hb. induction a as [|c a IH].
  - rewrite append_nil. change ("_" +:+ b) with (String "_" b).
    cbn [Py.contains]. rewrite Hb, orb_false_r.
    change (Ascii.eqb "_" "_" && (Py.startswith b "_") = false).
    rewrite Hs. reflexivity.
  - rewrite append_cons. cbn [Py.contains] in *.
    apply orb_false_iff in Ha as [Hh Ha].
    change (Ascii.eqb "_" c && Py.startswith a "_" = false) in Hh.
    destruct a as [|d a].
    + rewrite IH by (reflexivity || exact Ha). rewrite orb_false_r.
      rewrite append_nil. change ("_" +:+ b) with (String "_" b).
      change (Ascii.eqb "_" c && (Ascii.eqb "_" "_" && true) = false).
      unfold Py.endswith in He. cbn in He.
      destruct (Ascii.eqb_spec "_" c) as [<- |]; [discriminate He | reflexivity].
    + rewrite endswith_cons in He by reflexivity.
      rewrite IH by assumption. rewrite orb_false_r.
      rewrite append_cons.
      change (Ascii.eqb "_" c && (Ascii.eqb "_" d && true) = false).
      cbn [Py.startswith] in Hh. exact Hh.
Qed.

Lemma clean_word_app (a b : string) :
  clean_word a -> clean_word b -> clean_word (a +:+ "_" +:+ b).
Proof.
  intros (Hne & Hch & Hst & Hen & Hdb) (Hne' & Hch' & Hst' & Hen' & Hdb').
  split; [| split; [| split; [| split]]].
  - destruct a; [discriminate | reflexivity].
  - rewrite !forall_chars_app, Hch, Hch'. reflexivity.
  - destruct a as [|c a]; [discriminate |]. exact Hst.
  - rewrite endswith_app by (apply nonempty_app_r, Hne').
    rewrite (endswith_app _ "_" b) by exact Hne'. exact Hen'.
  - apply no_double_app; assumption.
Qed.

Lemma clean_word_join (l : list string) :
  Forall clean_word l -> l <> [] -> clean_word (Py.join "_" l).
Proof.
  induction 1 as [|x l Hx Hl IH]; intros Hnil; [destruct Hnil; reflexivity |].
  destruct l as [|y l]; [exact Hx |].
  change (clean_word (x +:+ "_" +:+ Py.join "_" (y :: l))).
  apply clean_word_app; [exact Hx | apply IH; discriminate].
Qed.

(** X22: Every path part that [generate_operation_id] keeps is a clean word:
    non-empty, made of lower-case letters, digits and single underscores,
    with no underscore at either end, whatever the path is; and so is the
    path part of the identifier, which joins them by underscores, unless it
    is empty. *)
Theorem operation_id_path_parts_clean (path : string) :
  Forall clean_word (OperationId.clean_parts_of path)
  /\ (OperationId.clean_parts_of path <> [] ->
      clean_word (Py.join "_" (OperationId.clean_parts_of path))).
Proof.
  assert (H : Forall clean_word (OperationId.clean_parts_of path)).
  { unfold OperationId.clean_parts_of. apply Forall_forall. intros w Hw.
    apply list_elem_of_filter in Hw as [Hne Hw].
    apply list_elem_of_fmap in Hw as (part & -> & _).
    apply clean_part_clean, Hne. }
  split; [exact H | apply clean_word_join, H].
Qed.

Lemma operation_id_path_parts_clean_witness :
  OperationId.clean_parts_of "/api/userProfile/{id}/__x--y__/" = ["api"; "user_profile"; "x_y"]
  /\ clean_word (Py.join "_" (OperationId.clean_parts_of "/api/userProfile/{id}/__x--y__/")).
Proof.
  split; [vm_compute; reflexivity |].
  apply (proj2 (operation_id_path_parts_clean "/api/userProfile/{id}/__x--y__/")).
  vm_compute. discriminate.
Defined.

(** ** Mount points *)

Lemma startswith_split (s p : string) :
  Py.startswith s p = true -> exists q, s = p +:+ q.
Proof.
  revert s. induction p as [|a p IH]; intros s; [exists s; reflexivity |].
  destruct s as [|b s]; [discriminate |]. cbn [Py.startswith].
  intros [Hab Hs]%andb_true_iff. apply Ascii.eqb_eq in Hab as ->.
  destruct (IH s Hs) as [q ->]. exists q. reflexivity.
Qed.

Lemma mounted_under_mono (pref pref' : string) (r : route) :
  Py.startswith pref' pref = true -> mounted_under pref' r -> mounted_under pref r.
Proof.
  intros [q ->]%startswith_split [raw Hraw]. exists (q +:+ raw).
  rewrite <- append_assoc. exact Hraw.
Qed.

Lemma walk_includes_mounted (rec : string -> string -> walk_state -> walk_outcome)
    (h : host) (root pref : string) (incs : list (string * string)) :
  (forall f p st rs st', rec f p st = Some (Ok rs, st') -> Forall (mounted_under p) rs) ->
  Forall (fun inc => Py.startswith (snd inc) pref = true) incs ->
  forall routes st rs st',
    Forall (mounted_under pref) routes ->
    walk_includes rec h root incs routes st = Some (Ok rs, st') ->
    Forall (mounted_under pref) rs.
Proof.
  intros Hrec Hincs. induction Hincs as [|[mod_ new_pref] incs Hinc _ IH];
    intros routes st rs st' Hroutes; cbn [walk_includes];
    [intros [= <- <-]; exact Hroutes |].
  destruct (_file_from_module h mod_ root) as [[[sub|]|] t];
    [| apply IH; exact Hroutes | discriminate].
  destruct (rec sub new_pref (emit t st)) as [[[rs1|] s1]|] eqn:E; [| discriminate ..].
  apply IH. apply Forall_app. split; [exact Hroutes |].
  eapply Forall_impl; [eapply Hrec; exact E |].
  intros r. apply mounted_under_mono. exact Hinc.
Qed.

(** X23: A mount point is respected at every depth.  Whatever a walk that
    starts under a prefix returns, from the file itself or from files it
    includes, directly or through further includes, has a path that is the
    translation of a raw path starting with that prefix. *)
Theorem walk_routes_under_mount_point (h : host) (root urls_file prefix : string)
    (fuel : nat) (st st' : walk_state) (rs : list route) :
  _walk fuel h urls_file root prefix st = Some (Ok rs, st') ->
  Forall (mounted_under prefix) rs.
Proof.
  revert urls_file prefix st st' rs.
  induction fuel as [|fuel IH]; intros f p st st' rs; [discriminate |].
  cbn [_walk].
  destruct (bool_decide _); [intros [= <- <-]; constructor |].
  destruct (negb _); [intros [= <- <-]; constructor |].
  destruct (fs h !! _) as [[tree|]|]; try (intros [= <- <-]; constructor).
  destruct (visit_file_keeps_prefix tree p) as [Hp [Hincs Hroutes]]. rewrite Hp in *.
  apply walk_includes_mounted; [| | exact Hroutes].
  - intros f' p' s rs' s' H. exact (IH f' p' s s' rs' H).
  - eapply Forall_impl; [exact Hincs |]. intros inc [_ H]. exact H.
Qed.

Lemma walk_routes_under_mount_point_witness :
  map path (default [] (routes_of (_walk 3 cycle_host "/p/b.py" "/p" "api/" fresh_state)))
  = ["/api/y/"; "/api/back/x/"]
  /\ Forall (mounted_under "api/")
       (default [] (routes_of (_walk 3 cycle_host "/p/b.py" "/p" "api/" fresh_state))).
Proof.
  split; [vm_compute; reflexivity |].
  destruct (_walk 3 cycle_host "/p/b.py" "/p" "api/" fresh_state) as [[[rs|] st']|] eqn:E;
    [| constructor ..].
  exact (walk_routes_under_mount_point cycle_host "/p" "/p/b.py" "api/" 3 fresh_state st' rs E).
Defined.


(** ** Imports made by the resolver *)

Lemma import_event_kept (h : host) (root : string) (e : event) (fuel : nat) :
  forall f p st r st',
    e ∈ trace st -> _walk fuel h f root p st = Some (r, st') -> e ∈ trace st'.
Proof.
  apply (walk_state_invariant h root (fun s => e ∈ trace s)).
  - intros st t _ H. cbn. apply elem_of_app. left. exact H.
  - intros st f H _ _. cbn. apply elem_of_app. left. exact H.
Qed.

Lemma import_event_kept_includes (h : host) (root : string) (e : event) (fuel : nat)
    (incs : list (string * string)) :
  forall routes st r st',
    e ∈ trace st ->
    walk_includes (fun f p s => _walk fuel h f root p s) h root incs routes st
    = Some (r, st') ->
    e ∈ trace st'.
Proof.
  apply (walk_includes_state_invariant h root (fun s => e ∈ trace s)).
  - intros st t _ H. cbn. apply elem_of_app. left. exact H.
  - intros f p st r st'. apply import_event_kept.
Qed.

(** C2, on the code.  A reference that is found on the file system is
    resolved by existence checks alone.  But for a dotted reference that is
    not found there, [_file_from_module] falls back on
    [importlib.util.find_spec], which imports the parent package of the
    name when the module is not loaded: the import system runs the
    [__init__.py] of that package and of its parents.  So a walk whose
    root file includes such a reference imports project code. *)
Theorem dotted_include_imports_parent_package (h : host) (root : string) :
  (forall mod_ candidate,
     candidate_file mod_ root = Some candidate ->
     exists_ h candidate = true \/ is_Some (fst (_find_urls_in_app_dir h mod_ root)) ->
     Forall (fun e => is_import e = false) (snd (_file_from_module h mod_ root)))
  /\ (forall mod_ candidate,
        candidate_file mod_ root = Some candidate ->
        exists_ h candidate = false ->
        fst (_find_urls_in_app_dir h mod_ root) = None ->
        Py.startswith mod_ "." = false ->
        mod_ ∉ sys_modules h ->
        Py.nonempty (parent_name mod_) = true ->
        EvImportModule (parent_name mod_) ∈ snd (_file_from_module h mod_ root))
  /\ (forall urls_file tree mod_ pref rest,
        resolve_idempotent h ->
        fs h !! resolve h urls_file = Some (Some tree) ->
        URLVisitor.includes (visit_file tree "") = (mod_, pref) :: rest ->
        EvImportModule (parent_name mod_) ∈ snd (_file_from_module h mod_ root) ->
        exists r st, walk h urls_file root = Some (r, st)
                     /\ EvImportModule (parent_name mod_) ∈ trace st).
Proof.
  split; [| split].
  - intros mod_ candidate. apply file_from_module_on_disk.
  - intros mod_ candidate Hc Hex Hdir Hrel Hload Hpar.
    unfold _file_from_module. rewrite Hc, Hex.
    destruct (_find_urls_in_app_dir h mod_ root) as [[app_urls|] t]; [discriminate |].
    unfold importlib_find_spec. rewrite Hrel, Hpar.
    rewrite bool_decide_eq_false_2 by exact Hload.
    assert (Hin : EvImportModule (parent_name mod_)
                  ∈ EvExists candidate
                    :: t ++ [EvFindSpec mod_; EvImportModule (parent_name mod_)]).
    { apply list_elem_of_further, elem_of_app. right.
      apply list_elem_of_further, list_elem_of_here. }
    destruct (find_spec h mod_) as [[origin|]| |]; try exact Hin.
    destruct (Py.endswith origin ".py"); exact Hin.
  - intros f tree mod_ pref rest Hres Hfile Hinc Hev.
    assert (Htotal : exists r st, walk h f root = Some (r, st)).
    { unfold walk, walk_budget.
      destruct (walk_total h root Hres (S (size (fs h))) f "" fresh_state)
        as (r & st & Hw & _); [| eauto].
      unfold unvisited. rewrite <- size_dom. apply Nat.lt_succ_r, subseteq_size.
      set_solver. }
    destruct Htotal as (r & st & Hw). exists r, st. split; [exact Hw |].
    revert Hw. unfold walk, walk_budget. cbn [_walk].
    rewrite bool_decide_eq_false_2 by (cbn; apply not_elem_of_empty).
    unfold exists_. rewrite !Hres, Hfile.
    rewrite bool_decide_eq_true_2 by eauto. cbn [negb].
    rewrite Hinc. cbn [walk_includes].
    destruct (_file_from_module h mod_ root) as [[[sub|]|] t]; cbn [snd] in Hev.
    + set (st1 := emit t _).
      assert (H1 : EvImportModule (parent_name mod_) ∈ trace st1)
        by (unfold st1; cbn [emit trace]; apply elem_of_app; right; exact Hev).
      destruct (_walk (size (fs h)) h sub root pref st1) as [[[rs|] s1]|] eqn:E;
        [| | discriminate].
      * apply import_event_kept_includes. eapply import_event_kept; eassumption.
      * intros [= <- <-]. eapply import_event_kept; eassumption.
    + apply import_event_kept_includes. cbn [emit trace].
      apply elem_of_app. left. apply elem_of_app. right. exact Hev.
    + intros [= <- <-]. cbn [emit trace]. apply elem_of_app. right. exact Hev.
Qed.

Lemma dotted_include_imports_parent_package_witness :
  candidate_file "shop.missing" "/p" = Some "/p/shop/missing.py"
  /\ exists st,
       walk package_host "/p/urls.py" "/p" = Some (Ok [], st)
       /\ trace st
          = [ EvExists "/p/urls.py"; EvReadText "/p/urls.py";
              EvExists "/p/shop/missing.py";
              EvExists "shop/missing/urls.py"; EvExists "shop/missing/urls.py";
              EvExists "apps/shop/missing/urls.py";
              EvExists "/p/shop/missing/urls.py";
              EvExists "/p/apps/shop/missing/urls.py";
              EvExists "/p/shop/missing/urls.py";
              EvFindSpec "shop.missing"; EvImportModule "shop";
              EvStdout (CouldNotResolve "shop.missing") ]
       /\ EvImportModule "shop" ∈ trace st.
Proof.
  split; [reflexivity |].
  destruct (walk package_host "/p/urls.py" "/p") as [[[rs|] st]|] eqn:E;
    [| vm_compute in E; discriminate ..].
  assert (Hst : Some (Ok rs, st) = walk package_host "/p/urls.py" "/p")
    by (symmetry; exact E).
  vm_compute in Hst. injection Hst as -> ->.
  eexists. split; [reflexivity |]. split; [reflexivity |].
  destruct (proj2 (proj2 (dotted_include_imports_parent_package package_host "/p"))
              "/p/urls.py" dotted_include_root "shop.missing" "shop/" [])
    as (r & st & Hw & Hin).
  - intros p. reflexivity.
  - reflexivity.
  - vm_compute. reflexivity.
  - vm_compute. apply list_elem_of_In. cbn. tauto.
  - rewrite E in Hw. injection Hw as <- <-. exact Hin.
Defined.

(** ** Verbs of decorated handlers *)

Lemma str_annotate (node : ast) : _str (DecoratorVisitor.annotate node) = _str node.
Proof. destruct node; reflexivity. Qed.

Lemma str_list_annotate (node : ast) :
  _str_list (DecoratorVisitor.annotate node) = _str_list node.
Proof.
  assert (H : forall elts, omap _str (map DecoratorVisitor.annotate elts) = omap _str elts).
  { induction elts as [|x elts IH]; [reflexivity |].
    cbn [map omap list_omap]. rewrite str_annotate, IH. reflexivity. }
  destruct node; try reflexivity; cbn [DecoratorVisitor.annotate _str_list];
    rewrite H; reflexivity.
Qed.

Lemma map_lower_idempotent (l : list string) :
  map Py.lower (map Py.lower l) = map Py.lower l.
Proof. rewrite map_map. apply map_ext. intros s. apply lower_idempotent. Qed.

Lemma foldl_map {A B S : Type} (step : S -> B -> S) (g : A -> B) (l : list A) (s : S) :
  foldl step s (map g l) = foldl (fun s x => step s (g x)) s l.
Proof. revert s. induction l as [|x l IH]; intros s; cbn; [reflexivity | apply IH]. Qed.

(** Case analysis on the characters of a name that is matched against a
    literal. *)
Ltac chars g :=
  repeat (destruct g as [|[[] [] [] [] [] [] [] []] g]; try reflexivity).

(** The decorator loop of the scan, one decorator at a time. *)
Lemma visit_FunctionDef_own_cons (name : string) (d : ast) (ds : list ast)
    (acc : gmap string (list string)) :
  DecoratorVisitor.visit_FunctionDef_own name (d :: ds) acc
  = DecoratorVisitor.visit_FunctionDef_own name ds
      (match api_view_arg d with
       | Some arg0 =>
           match _str_list arg0 with
           | [] => acc
           | methods => <[name := map Py.lower methods]> acc
           end
       | None => acc
       end).
Proof.
  unfold DecoratorVisitor.visit_FunctionDef_own. cbn [foldl]. f_equal.
  destruct d as [| | | | | | func args kws pf | | | | | | |]; try reflexivity.
  destruct func as [| | | | | | | g | | | | | |]; try reflexivity.
  destruct args as [|arg0 args]; [chars g |].
  cbn [api_view_arg].
  destruct (String.eqb_spec g "api_view") as [-> | Hne]; [reflexivity |].
  chars g. contradiction.
Qed.

(** The call handler of the URL visitor on a call of a plain name. *)
Lemma visit_Call_own_name (g : string) (args : list ast)
    (keywords : list (option string * ast)) (pf : option string) (v : URLVisitor.t) :
  URLVisitor.visit_Call_own (Name g) args keywords pf v
  = match api_view_arg (Call (Name g) args keywords pf), pf with
    | Some arg0, Some func_name =>
        URLVisitor._store_api_view_methods func_name (_str_list arg0) v
    | _, _ => v
    end.
Proof.
  unfold URLVisitor.visit_Call_own. cbv zeta.
  destruct args as [|arg0 args]; [chars g |].
  cbn [api_view_arg].
  destruct (String.eqb_spec g "api_view") as [-> | Hne]; [reflexivity |].
  destruct pf; chars g; contradiction.
Qed.

Lemma Forall_forallb {A : Type} (p : A -> bool) (R : A -> Prop) (l : list A) :
  Forall (fun x => p x = true -> R x) l -> forallb p l = true -> Forall R l.
Proof.
  induction 1 as [|x l Hx _ IH]; cbn [forallb]; [constructor |].
  intros [Hp Hl]%andb_true_iff. constructor; auto.
Qed.

(** A call of a plain name that the scan has marked is visited as the
    unmarked call, after the verbs of an [api_view] call are stored. *)
Lemma visit_marked (name : string) (d : ast) (v : URLVisitor.t) :
  fresh d = true ->
  URLVisitor.visit (DecoratorVisitor.mark name (DecoratorVisitor.annotate d)) v
  = URLVisitor.visit (DecoratorVisitor.annotate d)
      (match api_view_arg d with
       | Some arg0 => URLVisitor._store_api_view_methods name (_str_list arg0) v
       | None => v
       end).
Proof.
  intros Hfresh.
  destruct d as [| | | | | | func args kws pf | | | | | | |]; try reflexivity.
  destruct func as [| | | | | | | g | | | | | |]; try reflexivity.
  cbn [fresh] in Hfresh. destruct pf as [pf|]; [discriminate |].
  cbn [DecoratorVisitor.annotate DecoratorVisitor.mark URLVisitor.visit].
  rewrite !visit_Call_own_name. cbn [api_view_arg].
  destruct args as [|arg0 args]; [reflexivity |]. cbn [map].
  destruct (String.eqb g "api_view"); [| reflexivity].
  rewrite str_list_annotate. reflexivity.
Qed.

Section DecoratedHandler.

(** The handler [f] and the verbs [ms] that every [api_view] decoration of
    a function of this name lists. *)
Variables (f : string) (ms : list string).
Hypothesis ms_nonempty : ms <> [].

Let agree (arg : ast) : Prop := verbs_of arg = ms.

(** [F] leaves the verbs [ms] under [f] in the dictionary of the scan, when
    they were there before or one of the decorations [args] is met. *)
Let finds (args : list ast)
    (F : gmap string (list string) -> gmap string (list string)) : Prop :=
  Forall agree args ->
  forall acc, acc !! f = Some ms \/ args <> [] -> F acc !! f = Some ms.

Lemma finds_nil : finds [] (fun acc => acc).
Proof. intros _ acc [H | H]; [exact H | contradiction]. Qed.

Lemma finds_seq (a b : list ast) (F G : gmap string (list string) -> gmap string (list string)) :
  finds a F -> finds b G -> finds (a ++ b) (fun acc => G (F acc)).
Proof.
  intros Ha Hb [Halla Hallb]%Forall_app acc Hor. apply Hb; [exact Hallb |].
  destruct a as [|x a].
  - destruct Hor as [H | H]; [left; apply Ha; [exact Halla | left; exact H] | right; exact H].
  - left. apply Ha; [exact Halla | right; discriminate].
Qed.

Lemma finds_fold {A : Type} (g : A -> list ast)
    (step : A -> gmap string (list string) -> gmap string (list string)) (l : list A) :
  Forall (fun x => finds (g x) (step x)) l ->
  finds (flat_map g l) (fun acc => foldl (fun acc x => step x acc) acc l).
Proof.
  induction 1 as [|x l Hx _ IH]; [exact finds_nil |].
  exact (finds_seq (g x) (flat_map g l) (step x)
           (fun acc => foldl (fun acc x => step x acc) acc l) Hx IH).
Qed.

Lemma visit_FunctionDef_own_other (name : string) (decos : list ast) :
  name <> f ->
  forall acc, DecoratorVisitor.visit_FunctionDef_own name decos acc !! f = acc !! f.
Proof.
  intros Hne. induction decos as [|d decos IH]; intros acc; [reflexivity |].
  rewrite visit_FunctionDef_own_cons, IH.
  destruct (api_view_arg d) as [arg0|]; [| reflexivity].
  destruct (_str_list arg0); [reflexivity |].
  apply lookup_insert_ne. exact Hne.
Qed.

Lemma visit_FunctionDef_own_finds (name : string) (decos : list ast) :
  finds (if String.eqb name f then omap api_view_arg decos else [])
        (DecoratorVisitor.visit_FunctionDef_own name decos).
Proof.
  destruct (String.eqb_spec name f) as [-> | Hne].
  - induction decos as [|d decos IH]; [exact finds_nil |].
    intros Hall acc Hor. rewrite visit_FunctionDef_own_cons.
    cbn [omap list_omap] in Hall, Hor.
    destruct (api_view_arg d) as [arg0|]; [| apply IH; assumption].
    apply Forall_cons in Hall as [Harg Hall]. apply IH; [exact Hall | left].
    unfold agree, verbs_of in Harg.
    destruct (_str_list arg0) as [|m l]; [symmetry in Harg; contradiction |].
    rewrite Harg. apply lookup_insert_eq.
  - intros _ acc [H | H]; [| contradiction].
    rewrite visit_FunctionDef_own_other by exact Hne. exact H.
Qed.

(** The scan of a tree finds the verbs of [f]. *)
Lemma scan_finds (node : ast) :
  finds (api_view_args f node) (DecoratorVisitor.visit node).
Proof.
  induction node as [body IH | value IH | targets value IHt IHv | target value IHt IHv
                    | name args body decos returns IHa IHb IHd IHr
                    | name bases kws body decos IHbs IHk IHb IHd
                    | func args kws pf IHf IHa IHk | id | value attr IH | c
                    | elts IH | elts IH | keys values IHk IHv | children IH]
    using ast_induction; cbn [api_view_args].
  - exact (finds_fold _ _ _ IH).
  - exact IH.
  - exact (finds_seq _ _ _ _ (finds_fold _ _ _ IHt) IHv).
  - exact (finds_seq _ _ _ _ IHt IHv).
  - assert (Hr : finds (match returns with Some r => api_view_args f r | None => [] end)
                   (fun acc => match returns with
                               | Some r => DecoratorVisitor.visit r acc
                               | None => acc
                               end)).
    { destruct returns; [exact IHr | exact finds_nil]. }
    exact (finds_seq _ _ _ _ (visit_FunctionDef_own_finds name decos)
             (finds_seq _ _ _ _ IHa
                (finds_seq _ _ _ _ (finds_fold _ _ _ IHb)
                   (finds_seq _ _ _ _ (finds_fold _ _ _ IHd) Hr)))).
  - exact (finds_seq _ _ _ _ (finds_fold _ _ _ IHbs)
             (finds_seq _ _ _ _
                (finds_fold (fun kw => api_view_args f (snd kw))
                   (fun kw => DecoratorVisitor.visit (snd kw)) _ IHk)
                (finds_seq _ _ _ _ (finds_fold _ _ _ IHb) (finds_fold _ _ _ IHd)))).
  - exact (finds_seq _ _ _ _ IHf
             (finds_seq _ _ _ _ (finds_fold _ _ _ IHa)
                (finds_fold (fun kw => api_view_args f (snd kw))
                   (fun kw => DecoratorVisitor.visit (snd kw)) _ IHk))).
  - exact finds_nil.
  - exact IH.
  - exact finds_nil.
  - exact (finds_fold _ _ _ IH).
  - exact (finds_fold _ _ _ IH).
  - refine (finds_seq _ _ _ _
              (finds_fold
                 (fun k => match k with Some n => api_view_args f n | None => [] end)
                 (fun k acc => match k with
                               | Some n => DecoratorVisitor.visit n acc
                               | None => acc
                               end) keys _)
              (finds_fold _ _ _ IHv)).
    eapply Forall_impl; [exact IHk |]. intros [n|] Hn; [exact Hn | exact finds_nil].
  - exact (finds_fold _ _ _ IH).
Qed.

Lemma prepared_visitor_info (tree : ast) (prefix : string) :
  URLVisitor.prefix (prepared_visitor tree prefix) = prefix
  /\ URLVisitor.viewset_info (prepared_visitor tree prefix)
     = (map Py.lower <$> DecoratorVisitor.visit tree ∅).
Proof.
  unfold prepared_visitor.
  apply (map_fold_weak_ind
           (fun (r : URLVisitor.t) (m : gmap string (list string)) =>
              URLVisitor.prefix r = prefix
              /\ URLVisitor.viewset_info r = (map Py.lower <$> m))).
  - split; [reflexivity |]. cbn. rewrite fmap_empty. reflexivity.
  - intros i x m r _ [Hp Hv]. split; [exact Hp |].
    cbn [URLVisitor._store_api_view_methods URLVisitor.viewset_info].
    rewrite Hv, fmap_insert. reflexivity.
Qed.

(** The visitor of a file starts with the verbs of [f]. *)
Lemma prepared_visitor_verbs (tree : ast) (prefix : string) :
  decorated_with f ms tree ->
  URLVisitor.prefix (prepared_visitor tree prefix) = prefix
  /\ URLVisitor.viewset_info (prepared_visitor tree prefix) !! f = Some ms.
Proof.
  intros [Hne Hall]. destruct (prepared_visitor_info tree prefix) as [Hp Hv].
  split; [exact Hp |].
  rewrite Hv, lookup_fmap, (scan_finds tree Hall ∅ (or_intror Hne)). cbn.
  destruct (api_view_args f tree) as [|a l]; [contradiction |].
  apply Forall_cons in Hall as [Ha _]. rewrite <- Ha. unfold verbs_of.
  rewrite map_lower_idempotent. reflexivity.
Qed.

(** The visitor of a file mounted under [pref] keeps the verbs of [f]. *)
Variable pref : string.

Let P (v : URLVisitor.t) : Prop := URLVisitor.viewset_info v !! f = Some ms.
Let Q (v : URLVisitor.t) : Prop := URLVisitor.prefix v = pref /\ P v.

Lemma verbs_add_route (raw : string) (methods : list string) (op_id desc : option string)
    (v : URLVisitor.t) :
  URLVisitor.prefix v = pref -> P v ->
  P (URLVisitor._add_route (pref +:+ raw) methods op_id desc v).
Proof.
  intros _ Hv. unfold P, URLVisitor._add_route.
  destruct (_django_to_openapi _). destruct (bool_decide _); exact Hv.
Qed.

Lemma verbs_add_include (mod_ raw : string) (v : URLVisitor.t) :
  Py.nonempty mod_ = true -> URLVisitor.prefix v = pref -> P v ->
  P (URLVisitor.add_include v (mod_, pref +:+ raw)).
Proof. intros _ _ Hv. exact Hv. Qed.

Lemma verbs_set_routers (rs : gset string) (rb : gmap string (list string))
    (v : URLVisitor.t) :
  URLVisitor.routers v ⊆ rs -> URLVisitor.prefix v = pref -> P v ->
  P (URLVisitor.set_routers v rs rb).
Proof. intros _ _ Hv. exact Hv. Qed.

Lemma verbs_handle_pattern_call (node : ast) (v : URLVisitor.t) :
  Q v -> Q (URLVisitor._handle_pattern_call node v).
Proof.
  apply (Q_handle_pattern_call pref P verbs_add_route verbs_add_include verbs_set_routers).
Qed.

Let keeps (n : ast) : Prop :=
  fresh n = true -> Forall agree (api_view_args f n) ->
  forall v, Q v -> Q (URLVisitor.visit (DecoratorVisitor.annotate n) v).

Lemma keeps_list (l : list ast) :
  Forall keeps l -> forallb fresh l = true ->
  Forall agree (flat_map (api_view_args f) l) ->
  forall v, Q v ->
  Q (foldl (fun v n => URLVisitor.visit n v) v (map DecoratorVisitor.annotate l)).
Proof.
  induction 1 as [|n l Hn _ IH]; intros Hfresh Hall v Hv; [exact Hv |].
  cbn [forallb] in Hfresh. apply andb_true_iff in Hfresh as [Hf Hfl].
  cbn [flat_map] in Hall. apply Forall_app in Hall as [Ha Hal].
  cbn [map foldl]. apply IH; [exact Hfl | exact Hal |]. apply Hn; assumption.
Qed.

Lemma keeps_keywords (l : list (option string * ast)) :
  Forall (fun kw => keeps (snd kw)) l ->
  forallb (fun kw => fresh (snd kw)) l = true ->
  Forall agree (flat_map (fun kw => api_view_args f (snd kw)) l) ->
  forall v, Q v ->
  Q (foldl (fun v kw => URLVisitor.visit (snd kw) v) v
       (map (fun kw => (fst kw, DecoratorVisitor.annotate (snd kw))) l)).
Proof.
  induction 1 as [|n l Hn _ IH]; intros Hfresh Hall v Hv; [exact Hv |].
  cbn [forallb] in Hfresh. apply andb_true_iff in Hfresh as [Hf Hfl].
  cbn [flat_map] in Hall. apply Forall_app in Hall as [Ha Hal].
  cbn [map foldl snd]. apply IH; [exact Hfl | exact Hal |]. apply Hn; assumption.
Qed.

Lemma keeps_keys (l : list (option ast)) :
  Forall (fun k => match k with Some n => keeps n | None => True end) l ->
  forallb (fun k => match k with Some n => fresh n | None => true end) l = true ->
  Forall agree (flat_map (fun k => match k with
                                   | Some n => api_view_args f n
                                   | None => []
                                   end) l) ->
  forall v, Q v ->
  Q (foldl (fun v k => match k with Some n => URLVisitor.visit n v | None => v end) v
       (map (fun k => match k with
                      | Some n => Some (DecoratorVisitor.annotate n)
                      | None => None
                      end) l)).
Proof.
  induction 1 as [|k l Hk _ IH]; intros Hfresh Hall v Hv; [exact Hv |].
  cbn [forallb] in Hfresh. apply andb_true_iff in Hfresh as [Hf Hfl].
  cbn [flat_map] in Hall. apply Forall_app in Hall as [Ha Hal].
  cbn [map foldl]. apply IH; [exact Hfl | exact Hal |].
  destruct k as [n|]; [apply Hk; assumption | exact Hv].
Qed.

Lemma keeps_decorators (name : string) (decos : list ast) :
  Forall keeps decos -> forallb fresh decos = true ->
  Forall agree (if String.eqb name f then omap api_view_arg decos else []) ->
  Forall agree (flat_map (api_view_args f) decos) ->
  forall v, Q v ->
  Q (foldl (fun v n => URLVisitor.visit n v) v
       (map (fun d => DecoratorVisitor.mark name (DecoratorVisitor.annotate d)) decos)).
Proof.
  induction 1 as [|d decos Hd _ IH]; intros Hfresh Hown Hall v Hv; [exact Hv |].
  cbn [forallb] in Hfresh. apply andb_true_iff in Hfresh as [Hf Hfl].
  cbn [flat_map] in Hall. apply Forall_app in Hall as [Ha Hal].
  cbn [map foldl]. rewrite visit_marked by exact Hf.
  assert (Hhead : forall arg0, api_view_arg d = Some arg0 ->
                    Q (URLVisitor._store_api_view_methods name (_str_list arg0) v)
                    /\ Forall agree (if String.eqb name f
                                     then omap api_view_arg decos else [])).
  { intros arg0 E. destruct Hv as [Hp Hv]. revert Hown.
    destruct (String.eqb_spec name f) as [-> | Hne]; intros Hown.
    - cbn [omap list_omap] in Hown. rewrite E in Hown.
      apply Forall_cons in Hown as [Harg Hown].
      split; [| exact Hown]. split; [exact Hp |].
      unfold P. cbn [URLVisitor._store_api_view_methods URLVisitor.viewset_info].
      unfold agree, verbs_of in Harg. rewrite Harg. apply lookup_insert_eq.
    - split; [| constructor]. split; [exact Hp |].
      unfold P. cbn [URLVisitor._store_api_view_methods URLVisitor.viewset_info].
      rewrite lookup_insert_ne by exact Hne. exact Hv. }
  destruct (api_view_arg d) as [arg0|] eqn:E.
  - destruct (Hhead arg0 eq_refl) as [Hst Hown'].
    apply IH; [exact Hfl | exact Hown' | exact Hal |]. apply Hd; assumption.
  - apply IH; [exact Hfl | | exact Hal | apply Hd; assumption].
    revert Hown. destruct (String.eqb name f); [| intros; constructor].
    cbn [omap list_omap]. rewrite E. intros H. exact H.
Qed.

(** The visit of a freshly parsed tree, as the scan leaves it, keeps the
    verbs of [f]. *)
Lemma visit_keeps_verbs (node : ast) : keeps node.
Proof.
  induction node as [body IH | value IH | targets value IHt IHv | target value IHt IHv
                    | name args body decos returns IHa IHb IHd IHr
                    | name bases kws body decos IHbs IHk IHb IHd
                    | func args kws pf IHf IHa IHk | id | value attr IH | c
                    | elts IH | elts IH | keys values IHk IHv | children IH]
    using ast_induction; intros Hfresh Hall v Hv;
    cbn [fresh] in Hfresh; cbn [api_view_args] in Hall;
    repeat (apply andb_true_iff in Hfresh as [Hfresh ?]);
    repeat (apply Forall_app in Hall as [? Hall]);
    cbn [DecoratorVisitor.annotate URLVisitor.visit].
  - apply keeps_list; assumption.
  - apply IH; assumption.
  - apply IHv; [assumption .. |]. apply keeps_list; [assumption .. |].
    apply (Q_visit_Assign_own pref P verbs_add_route verbs_add_include verbs_set_routers).
    exact Hv.
  - apply IHv; [assumption .. |]. apply IHt; [assumption .. |].
    apply (Q_visit_AugAssign_own pref P verbs_add_route verbs_add_include verbs_set_routers).
    exact Hv.
  - assert (Hd : Q (foldl (fun v n => URLVisitor.visit n v)
                      (foldl (fun v n => URLVisitor.visit n v)
                         (URLVisitor.visit (DecoratorVisitor.annotate args) v)
                         (map DecoratorVisitor.annotate body))
                      (map (fun d => DecoratorVisitor.mark name
                                       (DecoratorVisitor.annotate d)) decos))).
    { apply keeps_decorators; [assumption .. |]. apply keeps_list; [assumption .. |].
      apply IHa; assumption. }
    destruct returns as [r|]; [apply IHr; assumption | exact Hd].
  - apply keeps_list; [assumption .. |]. apply keeps_list; [assumption .. |].
    apply keeps_keywords; [assumption .. |]. apply keeps_list; assumption.
  - destruct pf as [pf|]; [discriminate |].
    apply keeps_keywords; [assumption .. |]. apply keeps_list; [assumption .. |].
    apply IHf; [assumption .. |].
    apply (Q_visit_Call_own_cases pref P verbs_add_route verbs_add_include
             verbs_set_routers); [| exact Hv].
    intros arg0 rest func_name w _ _ [=].
  - exact Hv.
  - apply IH; assumption.
  - exact Hv.
  - apply keeps_list; assumption.
  - apply keeps_list; assumption.
  - apply keeps_list; [assumption .. |]. apply keeps_keys; assumption.
  - apply keeps_list; assumption.
Qed.

End DecoratedHandler.

Lemma walk_includes_prefix (rec : string -> string -> walk_state -> walk_outcome)
    (h : host) (root : string) (incs : list (string * string)) :
  forall routes st rs st',
    walk_includes rec h root incs routes st = Some (Ok rs, st') ->
    exists more, rs = routes ++ more.
Proof.
  induction incs as [|[mod_ new_pref] incs IH]; intros routes st rs st'; cbn [walk_includes].
  - intros [= <- <-]. exists []. rewrite app_nil_r. reflexivity.
  - destruct (_file_from_module h mod_ root) as [[[sub|]|] t]; [| apply IH | discriminate].
    destruct (rec sub new_pref (emit t st)) as [[[rs1|] s1]|]; [| discriminate ..].
    intros [more ->]%IH. exists (rs1 ++ more). rewrite app_assoc. reflexivity.
Qed.

(** The walk of an existing, parsed file returns, and what it returns
    starts with the routes of the file itself. *)
Lemma walk_returns_root_routes (h : host) (urls_file root : string) (tree : ast) :
  resolve_idempotent h ->
  fs h !! resolve h urls_file = Some (Some tree) ->
  exists res st,
    walk h urls_file root = Some (res, st)
    /\ forall rs, res = Ok rs ->
         exists more, rs = URLVisitor.routes (visit_file tree "") ++ more.
Proof.
  intros Hres Hfile.
  destruct (walk_total h root Hres (walk_budget h) urls_file "" fresh_state)
    as (res & st & Hw & _).
  { unfold unvisited, walk_budget. cbn [seen fresh_state].
    rewrite <- size_dom. apply Nat.lt_succ_r, subseteq_size. set_solver. }
  exists res, st. split; [exact Hw |]. intros rs ->.
  unfold walk, walk_budget in Hw. cbn [_walk] in Hw.
  rewrite bool_decide_eq_false_2 in Hw by (cbn; apply not_elem_of_empty).
  unfold exists_ in Hw. rewrite Hres, Hfile in Hw.
  rewrite bool_decide_eq_true_2 in Hw by eauto. cbn [negb] in Hw.
  eapply walk_includes_prefix. exact Hw.
Qed.

Lemma annotate_urlconf (pre before : list ast) (decl : ast) (after post : list ast) :
  DecoratorVisitor.annotate (urlconf pre before decl after post)
  = Module_ (map DecoratorVisitor.annotate pre
             ++ Assign [Name "urlpatterns"]
                  (List_ (map DecoratorVisitor.annotate before
                          ++ DecoratorVisitor.annotate decl
                          :: map DecoratorVisitor.annotate after))
             :: map DecoratorVisitor.annotate post).
Proof.
  unfold urlconf. cbn [DecoratorVisitor.annotate]. rewrite map_app. cbn [map].
  cbn [DecoratorVisitor.annotate]. rewrite map_app. reflexivity.
Qed.

(** The visit of a file with a [urlpatterns] list: the statements before
    it, the declarations of the list, its expressions, then the rest. *)
Lemma visit_urlconf (pre decls post : list ast) (v : URLVisitor.t) :
  URLVisitor.visit
    (Module_ (pre ++ Assign [Name "urlpatterns"] (List_ decls) :: post)) v
  = foldl (fun v n => URLVisitor.visit n v)
      (URLVisitor.visit (List_ decls)
         (foldl (fun v elt => URLVisitor._handle_pattern_call elt v)
            (foldl (fun v n => URLVisitor.visit n v) v pre) decls))
      post.
Proof. cbn [URLVisitor.visit]. rewrite foldl_app. reflexivity. Qed.

(** A route declaration whose handler has stored verbs takes these verbs,
    whatever its keywords are. *)
Lemma route_decl_adds (g raw f : string) (more : list ast)
    (keywords : list (option string * ast)) (ms : list string) (v : URLVisitor.t) :
  Py.str_in g ["path"; "re_path"] = true ->
  Py.nonempty f = true ->
  ms <> [] ->
  URLVisitor.viewset_info v !! f = Some ms ->
  route_key (URLVisitor.prefix v +:+ raw) ms ∉ URLVisitor.route_patterns v ->
  URLVisitor.routes
    (URLVisitor._handle_pattern_call
       (DecoratorVisitor.annotate (route_decl g raw f more keywords)) v)
  = URLVisitor.routes v ++ verb_routes f (URLVisitor.prefix v) raw ms.
Proof.
  intros Hg Hf Hms Hinfo Hkey.
  destruct f as [|c f]; [discriminate |].
  destruct ms as [|m ms]; [contradiction |].
  unfold route_decl, str. cbn [DecoratorVisitor.annotate map].
  unfold URLVisitor._handle_pattern_call. rewrite Hg.
  cbn [negb _str head URLVisitor.view_name_of URLVisitor.as_view_methods].
  rewrite Hinfo. cbn [default].
  unfold URLVisitor._add_route, verb_routes, route_key in *.
  destruct (_django_to_openapi (URLVisitor.prefix v +:+ raw)) as [op params].
  cbn [fst] in Hkey. rewrite bool_decide_eq_false_2 by exact Hkey.
  cbn [URLVisitor.set_routes URLVisitor.routes]. f_equal.
  apply map_ext. intros m'. f_equal.
  destruct (String.eqb m' "get"); reflexivity.
Qed.

(** C7, as the code has it.  Take a freshly parsed file with a
    [urlpatterns] list, a handler [f] whose [@api_view(...)] decorations,
    on plain [def] statements and written as calls of the bare name, all
    list the verbs [ms] (for instance [["get"; "post"]]), and a declaration
    [path(raw, f, ...)] or [re_path(raw, f, ...)] of the list, with any
    keywords, whose path and verbs are not registered when the visitor
    reaches it.  Then the declaration adds exactly one record per verb of
    [ms], in this order, for the translated path and with the handler's
    name in the operation id; these records stay in the routes of the
    file; and the walk of the file returns, and a route list that it
    returns holds them. *)
Theorem api_view_verbs_reach_the_route
    (pre before after post more : list ast) (keywords : list (option string * ast))
    (g raw f prefix : string) (ms : list string) :
  Py.str_in g ["path"; "re_path"] = true ->
  Py.nonempty f = true ->
  ms <> [] ->
  fresh (urlconf pre before (route_decl g raw f more keywords) after post) = true ->
  decorated_with f ms (urlconf pre before (route_decl g raw f more keywords) after post) ->
  route_key (prefix +:+ raw) ms
    ∉ URLVisitor.route_patterns
        (visitor_at (urlconf pre before (route_decl g raw f more keywords) after post)
           prefix pre before) ->
  URLVisitor.routes
    (URLVisitor._handle_pattern_call
       (DecoratorVisitor.annotate (route_decl g raw f more keywords))
       (visitor_at (urlconf pre before (route_decl g raw f more keywords) after post)
          prefix pre before))
  = URLVisitor.routes
      (visitor_at (urlconf pre before (route_decl g raw f more keywords) after post)
         prefix pre before)
    ++ verb_routes f prefix raw ms
  /\ map method_and_path (verb_routes f prefix raw ms)
     = map (fun m => (m, fst (_django_to_openapi (prefix +:+ raw)))) ms
  /\ (exists later,
        URLVisitor.routes
          (visit_file (urlconf pre before (route_decl g raw f more keywords) after post)
             prefix)
        = URLVisitor.routes
            (visitor_at (urlconf pre before (route_decl g raw f more keywords) after post)
               prefix pre before)
          ++ verb_routes f prefix raw ms ++ later)
  /\ (forall (h : host) (urls_file root : string),
        prefix = "" ->
        resolve_idempotent h ->
        fs h !! resolve h urls_file
        = Some (Some (urlconf pre before (route_decl g raw f more keywords) after post)) ->
        exists res st,
          walk h urls_file root = Some (res, st)
          /\ forall rs, res = Ok rs ->
               exists later,
                 rs = URLVisitor.routes
                        (visitor_at
                           (urlconf pre before (route_decl g raw f more keywords) after post)
                           "" pre before)
                      ++ verb_routes f "" raw ms ++ later).
Proof.
  intros Hg Hf Hms Hfresh Hdec Hkey.
  set (decl := route_decl g raw f more keywords) in *.
  set (tree := urlconf pre before decl after post) in *.
  set (v := visitor_at tree prefix pre before) in *.
  assert (Hv : URLVisitor.prefix v = prefix /\ URLVisitor.viewset_info v !! f = Some ms).
  { pose proof Hdec as [_ Hall].
    unfold tree, urlconf in Hfresh, Hall.
    cbn [fresh] in Hfresh. rewrite forallb_app in Hfresh.
    apply andb_true_iff in Hfresh as [Hfpre Hfrest].
    cbn [forallb fresh] in Hfrest. rewrite forallb_app in Hfrest.
    apply andb_true_iff in Hfrest as [[Hfbefore _]%andb_true_iff _].
    cbn [api_view_args] in Hall. rewrite flat_map_app in Hall.
    apply Forall_app in Hall as [Hapre Harest].
    cbn [flat_map api_view_args app] in Harest. rewrite flat_map_app in Harest.
    apply Forall_app in Harest as [[Habefore _]%Forall_app _].
    unfold v, visitor_at.
    assert (Hkeeps : forall l : list ast,
              Forall (fun n => fresh n = true ->
                               Forall (fun arg => verbs_of arg = ms) (api_view_args f n) ->
                               forall w,
                                 URLVisitor.prefix w = prefix
                                 /\ URLVisitor.viewset_info w !! f = Some ms ->
                                 URLVisitor.prefix
                                   (URLVisitor.visit (DecoratorVisitor.annotate n) w)
                                 = prefix
                                 /\ URLVisitor.viewset_info
                                      (URLVisitor.visit (DecoratorVisitor.annotate n) w) !! f
                                    = Some ms) l).
    { intros l. apply Forall_forall. intros n _. apply visit_keeps_verbs. }
    apply (foldl_preserves
             (fun w => URLVisitor.prefix w = prefix
                       /\ URLVisitor.viewset_info w !! f = Some ms)).
    - apply Forall_forall. intros elt _ w Hw. apply verbs_handle_pattern_call. exact Hw.
    - apply (keeps_list f ms prefix pre (Hkeeps pre) Hfpre Hapre).
      apply prepared_visitor_verbs; assumption. }
  destruct Hv as [Hp Hinfo].
  assert (Hadd : URLVisitor.routes
                   (URLVisitor._handle_pattern_call (DecoratorVisitor.annotate decl) v)
                 = URLVisitor.routes v ++ verb_routes f prefix raw ms).
  { rewrite <- Hp. apply route_decl_adds; try assumption. rewrite Hp. exact Hkey. }
  assert (Hfile : forall pref',
            exists later,
              URLVisitor.routes (visit_file tree pref')
              = URLVisitor.routes
                  (URLVisitor._handle_pattern_call (DecoratorVisitor.annotate decl)
                     (visitor_at tree pref' pre before))
                ++ later).
  { intros pref'.
    change (visit_file tree pref')
      with (URLVisitor.visit (DecoratorVisitor.annotate tree) (prepared_visitor tree pref')).
    unfold tree at 1. rewrite annotate_urlconf, visit_urlconf, foldl_app. cbn [foldl].
    fold (visitor_at tree pref' pre before).
    set (w := URLVisitor._handle_pattern_call _ (visitor_at tree pref' pre before)).
    enough (He : extends w
                   (foldl (fun v n => URLVisitor.visit n v)
                      (URLVisitor.visit
                         (List_ (map DecoratorVisitor.annotate before
                                 ++ DecoratorVisitor.annotate decl
                                 :: map DecoratorVisitor.annotate after))
                         (foldl (fun v elt => URLVisitor._handle_pattern_call elt v) w
                            (map DecoratorVisitor.annotate after)))
                      (map DecoratorVisitor.annotate post))).
    { destruct He as (_ & [later Hl] & _). exists later. exact Hl. }
    eapply extends_trans;
      [apply (foldl_extends (fun v elt => URLVisitor._handle_pattern_call elt v)
                (map DecoratorVisitor.annotate after));
       intros; apply handle_pattern_call_extends |].
    eapply extends_trans; [apply visit_extends |].
    apply (foldl_extends (fun v n => URLVisitor.visit n v)). intros. apply visit_extends. }
  split; [exact Hadd |]. split; [| split].
  - unfold verb_routes. destruct (_django_to_openapi (prefix +:+ raw)) as [op params].
    rewrite map_map. reflexivity.
  - destruct (Hfile prefix) as [later Hl]. exists later.
    rewrite Hl. fold v. rewrite Hadd, <- app_assoc. reflexivity.
  - intros h urls_file root -> Hres Hfs.
    destruct (walk_returns_root_routes h urls_file root tree Hres Hfs)
      as (res & st & Hw & Hrs).
    exists res, st. split; [exact Hw |]. intros rs Hok.
    destruct (Hrs rs Hok) as [more' ->]. destruct (Hfile "") as [later Hl].
    exists (later ++ more'). rewrite Hl. fold v. rewrite Hadd, <- !app_assoc. reflexivity.
Qed.

Lemma api_view_verbs_reach_the_route_witness :
  urlconf [api_view_handler "handler" ["get"; "post"]] []
    (route_decl "path" "x/" "handler" [] []) [] []
  = api_view_module "handler" "x/"
  /\ fresh (api_view_module "handler" "x/") = true
  /\ decorated_with "handler" ["get"; "post"] (api_view_module "handler" "x/")
  /\ URLVisitor.routes
       (visitor_at (api_view_module "handler" "x/") ""
          [api_view_handler "handler" ["get"; "post"]] []) = []
  /\ map method_and_path
       (URLVisitor.routes
          (URLVisitor._handle_pattern_call
             (DecoratorVisitor.annotate (route_decl "path" "x/" "handler" [] []))
             (visitor_at (api_view_module "handler" "x/") ""
                [api_view_handler "handler" ["get"; "post"]] [])))
     = [("get", "/x/"); ("post", "/x/")]
  /\ map method_and_path (walked (api_view_module "handler" "x/"))
     = [("get", "/x/"); ("post", "/x/")].
Proof.
  assert (Hdec : decorated_with "handler" ["get"; "post"] (api_view_module "handler" "x/")).
  { split; [discriminate | repeat constructor]. }
  assert (Hroutes : URLVisitor.routes
                      (visitor_at (api_view_module "handler" "x/") ""
                         [api_view_handler "handler" ["get"; "post"]] []) = []).
  { vm_compute. reflexivity. }
  split; [reflexivity |]. split; [reflexivity |]. split; [exact Hdec |].
  split; [exact Hroutes |]. split; [| vm_compute; reflexivity].
  assert (Hkey : route_key ("" +:+ "x/") ["get"; "post"]
                 ∉ URLVisitor.route_patterns
                     (visitor_at
                        (urlconf [api_view_handler "handler" ["get"; "post"]] []
                           (route_decl "path" "x/" "handler" [] []) [] [])
                        "" [api_view_handler "handler" ["get"; "post"]] [])).
  { apply (bool_decide_unpack _). vm_compute. exact I. }
  pose proof (api_view_verbs_reach_the_route
              [api_view_handler "handler" ["get"; "post"]] [] [] [] [] []
              "path" "x/" "handler" "" ["get"; "post"]
              eq_refl eq_refl ltac:(discriminate) eq_refl Hdec Hkey)
    as (Hadd & Hverbs & _).
  change (urlconf [api_view_handler "handler" ["get"; "post"]] []
            (route_decl "path" "x/" "handler" [] []) [] [])
    with (api_view_module "handler" "x/") in Hadd.
  rewrite Hadd.
  rewrite Hroutes. exact Hverbs.
Defined.

(** A decoration written through a module, [@decorators.api_view(["get",
    "post"])], is not read: the route of the handler gets the default
    GET alone. *)
Lemma qualified_api_view_is_missed :
  map method_and_path (walked qualified_api_view_module) = [("get", "/x/")].
Proof. vm_compute. reflexivity. Qed.

(** The verbs reach a route list that stands above the definition of its
    handler: the scan of the whole file comes first. *)
Example handler_after_routes_eval :
  map method_and_path (walked handler_after_routes) = [("get", "/x/"); ("post", "/x/")].
Proof. vm_compute. reflexivity. Qed.

(** When the decorations of one name disagree, the route list takes the
    verbs of the definition last visited before it, not those that the
    scan left: the visitor stores the verbs again as it goes. *)
Example handler_redefined_eval :
  map method_and_path (walked handler_redefined) = [("get", "/x/")].
Proof. vm_compute. reflexivity. Qed.
